(** * Resume structuring and relevancy scoring

    A shallow embedding of [app/services/enhanced_parser.py] (the Structuring
    Engine: section locator, field extractors, confidence scorer) and of
    [app/services/matching_service.py] (the Relevancy Scoring Engine).

    Conventions of the embedding.
    - A Python [str] is a [list ascii]: the text is ASCII, and the character
      classes ([\d], [\s], [\w], [isdigit], [isupper], case folding) are the
      ASCII ones.
    - The [re] module is embedded as a backtracking matcher over a small
      regular-expression syntax ([Re.rmatch]): alternatives are tried left to
      right, repetitions are greedy, and the first success in that order is
      the match, as in Python.
    - A Python [float] is a rational ([Q]); [round] is round-half-to-even on
      the exact value. The arithmetic is exact: a statement that a score is
      the value of an expression is about the exact value, from which the
      binary floating-point value differs by its rounding error. Where the
      code behaves differently on an [int] and on a [float], the number
      carries its kind ([pynum]).
    - The optional NER back ends (spaCy, transformers), the iteration order of
      a Python [set] and the current year are parameters ([Env]). *)

From Stdlib Require Import Ascii String QArith Qround Qminmax Lia Lqa Permutation.
From stdpp Require Import base list strings gmap.

Open Scope nat_scope.

(** ** Python strings *)

Module PyStr.

Definition str := list ascii.

Definition lit (s : string) : str := list_ascii_of_string s.

Definition code (c : ascii) : nat := nat_of_ascii c.

Definition in_range (lo hi : nat) (c : ascii) : bool :=
  (lo <=? code c) && (code c <=? hi).

Definition nl : ascii := ascii_of_nat 10.
Definition tab : ascii := ascii_of_nat 9.

Definition is_upper (c : ascii) : bool := in_range 65 90 c.
Definition is_lower (c : ascii) : bool := in_range 97 122 c.
Definition is_digit (c : ascii) : bool := in_range 48 57 c.
Definition is_alpha (c : ascii) : bool := is_upper c || is_lower c.

(** [str.isspace] and [\s] on ASCII: TAB, LF, VT, FF, CR, FS, GS, RS, US and
    the space. *)
Definition is_space (c : ascii) : bool := in_range 9 13 c || in_range 28 32 c.

(** [\w] on ASCII. *)
Definition is_word (c : ascii) : bool :=
  is_alpha c || is_digit c || Ascii.eqb c "_".

Definition to_lower (c : ascii) : ascii :=
  if is_upper c then ascii_of_nat (code c + 32) else c.

Definition to_upper (c : ascii) : ascii :=
  if is_lower c then ascii_of_nat (code c - 32) else c.

(** [s.lower()] *)
Definition lower (s : str) : str := map to_lower s.

(** [bool(s)] *)
Definition truthy (s : str) : bool :=
  match s with [] => false | _ => true end.

(** [a == b] on strings *)
Fixpoint str_eqb (a b : str) : bool :=
  match a, b with
  | [], [] => true
  | x :: a', y :: b' => Ascii.eqb x y && str_eqb a' b'
  | _, _ => false
  end.

(** [x in l] for a list of strings *)
Definition mem (x : str) (l : list str) : bool := existsb (str_eqb x) l.

(** [s.startswith(p)] *)
Fixpoint startswith (p s : str) : bool :=
  match p, s with
  | [], _ => true
  | x :: p', y :: s' => Ascii.eqb x y && startswith p' s'
  | _ :: _, [] => false
  end.

(** [sub in s] *)
Fixpoint contains (sub s : str) : bool :=
  startswith sub s ||
  match s with
  | [] => false
  | _ :: s' => contains sub s'
  end.

(** [s[i:j]] for [0 <= i], [0 <= j] *)
Definition slice (s : str) (i j : nat) : str := take (j - i) (drop i s).

Fixpoint lstrip (s : str) : str :=
  match s with
  | c :: s' => if is_space c then lstrip s' else s
  | [] => []
  end.

Definition rstrip (s : str) : str := rev (lstrip (rev s)).

(** [s.strip()] *)
Definition strip (s : str) : str := rstrip (lstrip s).

(** [s.split(sep)] for a one-character separator: the pieces between the
    separators, at least one piece. *)
Fixpoint split_on (sep : ascii) (s : str) : list str :=
  match s with
  | [] => [[]]
  | c :: s' =>
      if Ascii.eqb c sep then [] :: split_on sep s'
      else match split_on sep s' with
           | p :: ps => (c :: p) :: ps
           | [] => [[c]]
           end
  end.

(** [s.split()]: the maximal runs of non-whitespace characters. *)
Fixpoint split_ws_aux (cur : str) (s : str) : list str :=
  match s with
  | [] => match cur with [] => [] | _ => [rev cur] end
  | c :: s' =>
      if is_space c
      then match cur with
           | [] => split_ws_aux [] s'
           | _ => rev cur :: split_ws_aux [] s'
           end
      else split_ws_aux (c :: cur) s'
  end.

Definition split_ws (s : str) : list str := split_ws_aux [] s.

(** [sep.join(l)] *)
Fixpoint join (sep : str) (l : list str) : str :=
  match l with
  | [] => []
  | [x] => x
  | x :: l' => x ++ sep ++ join sep l'
  end.

(** [int(s)] for a string of decimal digits *)
Definition digit_val (c : ascii) : Z := Z.of_nat (code c - 48).

Definition int_of_digits (s : str) : Z :=
  fold_left (fun acc c => (acc * 10 + digit_val c)%Z) s 0%Z.

End PyStr.

Export PyStr.
Coercion lit : string >-> str.

(** ** The [re] module *)

Module Re.

(** Syntax of the patterns the two services use. [Cls p] matches one
    character of the class [p] (a literal character is a one-element class);
    [Rep a lo hi] is the greedy repetition [a{lo,hi}], unbounded when [hi] is
    [None]; [Grp n a] is the capturing group number [n]. *)
Inductive re : Type :=
| Eps
| Cls (p : ascii -> bool)
| Seq (a b : re)
| Alt (a b : re)
| Rep (a : re) (lo : nat) (hi : option nat)
| Bol
| Eol
| Wb
| Grp (n : nat) (a : re).

(** A position of the matcher in the subject: the character before it (for
    [\b] and [^]), the text from it on, its index, and the groups closed so
    far. *)
Record mstate : Type := MState {
  prev : option ascii;
  rest : str;
  pos : nat;
  caps : list (nat * (nat * nat))
}.

Definition init (s : str) : mstate := MState None s 0 [].

Definition advance (c : ascii) (t : str) (st : mstate) : mstate :=
  MState (Some c) t (S (pos st)) (caps st).

Definition set_cap (n i j : nat) (st : mstate) : mstate :=
  MState (prev st) (rest st) (pos st) ((n, (i, j)) :: caps st).

Definition get_cap (n : nat) (st : mstate) : option (nat * nat) :=
  snd <$> List.find (fun e => Nat.eqb (fst e) n) (caps st).

(** Class membership; under [re.IGNORECASE] a character is accepted when either
    of its cases is in the class. *)
Definition accepts (ic : bool) (p : ascii -> bool) (c : ascii) : bool :=
  p c || (ic && (p (to_lower c) || p (to_upper c))).

Definition is_word_opt (o : option ascii) : bool :=
  match o with Some c => is_word c | None => false end.

Definition at_boundary (st : mstate) : bool :=
  xorb (is_word_opt (prev st)) (is_word_opt (head (rest st))).

Definition under (n : nat) (hi : option nat) : bool :=
  match hi with Some h => n <? h | None => true end.

(** The greedy loop of a repetition: one more iteration first (it has to
    consume a character), the continuation when that fails and [lo]
    iterations are done. The fuel is the number of characters left plus
    one, which the loop cannot use up. *)
Fixpoint rep_loop (ma : mstate -> (mstate -> option mstate) -> option mstate)
    (lo : nat) (hi : option nat) (k : mstate -> option mstate)
    (fuel n : nat) (st : mstate) {struct fuel} : option mstate :=
  match fuel with
  | O => None
  | S fuel' =>
      let more :=
        if under n hi
        then ma st (fun st' =>
               if length (rest st') <? length (rest st)
               then rep_loop ma lo hi k fuel' (S n) st'
               else None)
        else None in
      match more with
      | Some x => Some x
      | None => if lo <=? n then k st else None
      end
  end.

(** [rmatch ic r st k]: match [r] at [st] and continue with [k]; on failure
    of [k] the next way of matching [r] is tried (backtracking). *)
Fixpoint rmatch (ic : bool) (r : re) (st : mstate)
    (k : mstate -> option mstate) {struct r} : option mstate :=
  match r with
  | Eps => k st
  | Cls p =>
      match rest st with
      | c :: t => if accepts ic p c then k (advance c t st) else None
      | [] => None
      end
  | Seq a b => rmatch ic a st (fun st' => rmatch ic b st' k)
  | Alt a b =>
      match rmatch ic a st k with
      | Some x => Some x
      | None => rmatch ic b st k
      end
  | Rep a lo hi => rep_loop (rmatch ic a) lo hi k (S (length (rest st))) 0 st
  | Bol => match prev st with None => k st | Some _ => None end
  | Eol =>
      match rest st with
      | [] => k st
      | [c] => if Ascii.eqb c nl then k st else None
      | _ => None
      end
  | Wb => if at_boundary st then k st else None
  | Grp n a => rmatch ic a st (fun st' => k (set_cap n (pos st) (pos st') st'))
  end.

(** A match object: its span and its groups. *)
Record mobj : Type := MObj {
  m_start : nat;
  m_end : nat;
  m_caps : list (nat * (nat * nat))
}.

Definition match_at (ic : bool) (r : re) (pv : option ascii) (s : str) (i : nat)
  : option mobj :=
  match rmatch ic r (MState pv s i []) Some with
  | Some st' => Some (MObj i (pos st') (caps st'))
  | None => None
  end.

(** Leftmost match from position [i] on, [pv] being the character before. *)
Fixpoint search_from (ic : bool) (r : re) (pv : option ascii) (s : str) (i : nat)
  : option mobj :=
  match match_at ic r pv s i with
  | Some m => Some m
  | None =>
      match s with
      | [] => None
      | c :: s' => search_from ic r (Some c) s' (S i)
      end
  end.

(** [re.search(r, s)] *)
Definition search (ic : bool) (r : re) (s : str) : option mobj :=
  search_from ic r None s 0.

(** [re.match(r, s)] *)
Definition match_ (ic : bool) (r : re) (s : str) : option mobj :=
  match_at ic r None s 0.

(** [re.finditer(r, s)]: the successive non-overlapping matches, left to
    right; [skip] counts the characters still inside the previous match. *)
Fixpoint finditer_from (ic : bool) (r : re) (pv : option ascii) (s : str)
    (i skip : nat) : list mobj :=
  match skip with
  | S skip' =>
      match s with
      | [] => []
      | c :: s' => finditer_from ic r (Some c) s' (S i) skip'
      end
  | O =>
      match match_at ic r pv s i with
      | Some m =>
          m :: match s with
               | [] => []
               | c :: s' =>
                   finditer_from ic r (Some c) s' (S i) (m_end m - i - 1)
               end
      | None =>
          match s with
          | [] => []
          | c :: s' => finditer_from ic r (Some c) s' (S i) 0
          end
      end
  end.

Definition finditer (ic : bool) (r : re) (s : str) : list mobj :=
  finditer_from ic r None s 0 0.

(** [m.group()] and [m.group(n)] *)
Definition group0 (s : str) (m : mobj) : str := slice s (m_start m) (m_end m).

Definition group (s : str) (m : mobj) (n : nat) : option str :=
  match snd <$> List.find (fun e => Nat.eqb (fst e) n) (m_caps m) with
  | Some (i, j) => Some (slice s i j)
  | None => None
  end.

(** [re.findall(r, s)] for a pattern without groups *)
Definition findall (ic : bool) (r : re) (s : str) : list str :=
  map (group0 s) (finditer ic r s).

(** [re.sub(r, repl, s)] for a replacement without back-references *)
Fixpoint sub_spans (repl : str) (s : str) (from : nat) (ms : list mobj) : str :=
  match ms with
  | [] => drop from s
  | m :: ms' => slice s from (m_start m) ++ repl ++ sub_spans repl s (m_end m) ms'
  end.

Definition sub (ic : bool) (r : re) (repl : str) (s : str) : str :=
  sub_spans repl s 0 (finditer ic r s).

(** [re.split(r, s)] for a pattern without groups *)
Fixpoint split_spans (s : str) (from : nat) (ms : list mobj) : list str :=
  match ms with
  | [] => [drop from s]
  | m :: ms' => slice s from (m_start m) :: split_spans s (m_end m) ms'
  end.

Definition split (ic : bool) (r : re) (s : str) : list str :=
  split_spans s 0 (finditer ic r s).

(** *** Pattern combinators *)

Definition chr (c : ascii) : re := Cls (Ascii.eqb c).

(** [re.escape(s)], and any literal run of characters *)
Fixpoint lits (s : str) : re :=
  match s with
  | [] => Eps
  | [c] => chr c
  | c :: s' => Seq (chr c) (lits s')
  end.

Definition word (s : string) : re := lits (lit s).

Fixpoint seqs (l : list re) : re :=
  match l with
  | [] => Eps
  | [r] => r
  | r :: l' => Seq r (seqs l')
  end.

Fixpoint alts (l : list re) : re :=
  match l with
  | [] => Eps
  | [r] => r
  | r :: l' => Alt r (alts l')
  end.

Definition words (l : list string) : re := alts (map word l).

Definition star (r : re) : re := Rep r 0 None.
Definition plus (r : re) : re := Rep r 1 None.
Definition opt (r : re) : re := Rep r 0 (Some 1).
Definition times (r : re) (n : nat) : re := Rep r n (Some n).
Definition at_least (r : re) (n : nat) : re := Rep r n None.
Definition between (r : re) (lo hi : nat) : re := Rep r lo (Some hi).

(** Character classes *)
Definition one_of (s : string) (c : ascii) : bool :=
  existsb (Ascii.eqb c) (lit s).
Definition cor (p q : ascii -> bool) (c : ascii) : bool := p c || q c.
Definition alnum (c : ascii) : bool := is_alpha c || is_digit c.
Definition any_char (c : ascii) : bool := negb (Ascii.eqb c nl).

Definition d : re := Cls is_digit.
Definition sp : re := Cls is_space.
Definition upper : re := Cls is_upper.
Definition lower_ : re := Cls is_lower.

End Re.

Export Re.

(** ** The structured profile *)

Module ProfileData.

(** [None] is Python's [None]; the two parsers of the repository emit every
    key of an entry, so a field is a string or [None]. *)
Record personal : Type := Personal {
  full_name : option str;
  email : option str;
  phone : option str;
  location : option str;
  linkedin : option str;
  github : option str
}.

Record exp_entry : Type := ExpEntry {
  title : option str;
  company : option str;
  start_date : option str;
  end_date : option str;
  description : str;
  achievements : list str;
  technologies : list str
}.

Record edu_entry : Type := EduEntry {
  degree : option str;
  institution : option str;
  year : option str;
  field : option str;
  gpa : option str;
  honors : list str
}.

(** [parsed_data] before the confidence score is stored in it. *)
Record fields : Type := Fields {
  personal_info : personal;
  experience : list exp_entry;
  education : list edu_entry;
  skills : list str;
  summary : option str;
  certifications : list str;
  languages : list str
}.

Record profile : Type := Mk_profile {
  data : fields;
  confidence_score : Q
}.

(** Truth value of an optional string: [None] and [""] are false. *)
Definition some_truthy (o : option str) : bool :=
  match o with Some s => truthy s | None => false end.

End ProfileData.

Export ProfileData.

(** ** Back ends and other parameters of a run *)

Record entity : Type := Entity { ent_text : str; ent_label : str }.

Record tentity : Type := TEntity {
  entity_group : str;
  t_word : str;
  t_score : Q
}.

(** [spacy_nlp] and [transformer_ner] are [None] when the model is not
    loaded; a call yields [None] when it raises (the callers catch it).
    [set_order l] is the order in which [list(set(l))] enumerates the distinct
    elements of [l]; [now_year] is [datetime.now().year]. *)
Record Env : Type := MkEnv {
  spacy_nlp : option (str -> option (list entity));
  transformer_ner : option (str -> option (list tentity));
  set_order : list str -> list str;
  now_year : Z
}.

(** The first occurrence of each element, in order. *)
Fixpoint dedup_str (l : list str) : list str :=
  match l with
  | [] => []
  | x :: l' => x :: List.filter (fun y => negb (str_eqb x y)) (dedup_str l')
  end.

(** What is known of [list(set(l))]: the distinct elements of [l], in some
    order. *)
Definition set_order_ok (env : Env) : Prop :=
  forall l, Permutation (set_order env l) (dedup_str l).

(** ** Rounding *)

(** Round half to even. *)
Definition round_half_even (x : Q) : Z :=
  let f := Qfloor x in
  let r := (x - inject_Z f)%Q in
  match (r ?= 1 # 2)%Q with
  | Lt => f
  | Gt => (f + 1)%Z
  | Eq => if Z.even f then f else (f + 1)%Z
  end.

(** [round(x, n)] *)
Definition py_round (x : Q) (n : nat) : Q :=
  let s := Z.to_pos (10 ^ Z.of_nat n) in
  (round_half_even (x * inject_Z (Zpos s)) # s)%Q.

(** ** The Structuring Engine: [EnhancedParser] *)

Module EnhancedParser.

(** The input of [parse]: a string, or a value of another type. *)
Inductive pyval : Type :=
| PStr (s : str)
| PNotStr.

(** *** [_preprocess_text] *)

(** [[ \t]+] *)
Definition blanks_re : re :=
  plus (Cls (fun c => Ascii.eqb c " " || Ascii.eqb c tab)).

(** [\n{3,}] *)
Definition blank_lines_re : re := at_least (chr nl) 3.

Definition clean_line (line : str) : str := sub false blanks_re " " (strip line).

Definition _preprocess_text (text : str) : str :=
  if negb (truthy text) then []
  else
    let lines := split_on nl text in
    let cleaned_lines :=
      filter (fun l => truthy l)
        (map clean_line (filter (fun l => truthy l) lines)) in
    let cleaned := join [nl] cleaned_lines in
    sub false blank_lines_re [nl; nl] cleaned.

(** *** [_find_section] *)

(** [\n\s*[A-Z][A-Z\s]{10,}|\n\s*\d+\.|\n\s*[A-Z]+\s*:] *)
Definition end_pattern : re :=
  alts [ seqs [chr nl; star sp; upper; at_least (Cls (cor is_upper is_space)) 10];
         seqs [chr nl; star sp; plus d; chr "."];
         seqs [chr nl; star sp; plus upper; star sp; chr ":"] ].

(** [r'\b' + re.escape(keyword) + r'\b'] *)
Definition whole_word (keyword : str) : re := seqs [Wb; lits keyword; Wb].

Fixpoint find_section_loop (text text_lower : str) (keywords : list str)
  : option str :=
  match keywords with
  | [] => None
  | keyword :: keywords' =>
      if negb (truthy keyword) then find_section_loop text text_lower keywords'
      else
        match search true (whole_word keyword) text_lower with
        | Some m =>
            let start_idx := m_end m in
            match search false end_pattern (drop start_idx text) with
            | Some end_match =>
                Some (slice text start_idx (start_idx + m_start end_match))
            | None => Some (slice text start_idx (start_idx + 2000))
            end
        | None => find_section_loop text text_lower keywords'
        end
  end.

Definition _find_section (text : str) (keywords : list str) : option str :=
  if negb (truthy text) then None
  else find_section_loop text (lower text) keywords.

(** [section if section else fallback], for [if not section: section = ...] *)
Definition section_or (o : option str) (fallback : str) : str :=
  match o with
  | Some s => if truthy s then s else fallback
  | None => fallback
  end.

(** *** [_extract_personal_info_enhanced] *)

(** [\b[A-Za-z0-9._%+-]+@[A-Za-z0-9.-]+\.[A-Z|a-z]{2,}\b] *)
Definition email_pattern : re :=
  seqs [ Wb; plus (Cls (cor alnum (one_of "._%+-"))); chr "@";
         plus (Cls (cor alnum (one_of ".-"))); chr ".";
         at_least (Cls (cor is_alpha (one_of "|"))) 2; Wb ].

(** [[-.\s]] *)
Definition sepc : re := Cls (cor (one_of "-.") is_space).

Definition phone_patterns : list re :=
  [ (* \+?\d{1,3}[-.\s]?\(?\d{3}\)?[-.\s]?\d{3}[-.\s]?\d{4} *)
    seqs [ opt (chr "+"); between d 1 3; opt sepc; opt (chr "("); times d 3;
           opt (chr ")"); opt sepc; times d 3; opt sepc; times d 4 ];
    (* \+?\d{1,3}[-.\s]?\d{3}[-.\s]?\d{3}[-.\s]?\d{4} *)
    seqs [ opt (chr "+"); between d 1 3; opt sepc; times d 3; opt sepc;
           times d 3; opt sepc; times d 4 ];
    (* \(\d{3}\)\s?\d{3}[-.\s]?\d{4} *)
    seqs [ chr "("; times d 3; chr ")"; opt sp; times d 3; opt sepc; times d 4 ];
    (* \b\d{10}\b *)
    seqs [ Wb; times d 10; Wb ] ].

(** [s.isdigit()] *)
Definition isdigit (s : str) : bool := truthy s && forallb is_digit s.

(** [s[-1:]] *)
Definition last1 (s : str) : str :=
  match last s with Some c => [c] | None => [] end.

(** The test on one match of a phone pattern: the stripped match has 10
    characters, does not start with 19 or 20, and no digit touches it. *)
Definition phone_candidate (original_text : str) (m : mobj) : option str :=
  let phone_str := strip (group0 original_text m) in
  if (length phone_str =? 10)
     && negb (startswith "19" phone_str || startswith "20" phone_str)
  then
    let start := m_start m in
    let end_ := m_end m in
    let context_before := slice original_text (start - 5) start in
    let context_after :=
      slice original_text end_ (Nat.min (length original_text) (end_ + 5)) in
    if negb (isdigit (last1 context_before) || isdigit (take 1 context_after))
    then Some phone_str
    else None
  else None.

Fixpoint first_phone (original_text : str) (ms : list mobj) : option str :=
  match ms with
  | [] => None
  | m :: ms' =>
      match phone_candidate original_text m with
      | Some p => Some p
      | None => first_phone original_text ms'
      end
  end.

Fixpoint phone_loop (original_text : str) (patterns : list re) : option str :=
  match patterns with
  | [] => None
  | pattern :: patterns' =>
      match first_phone original_text (finditer false pattern original_text) with
      | Some p => Some p
      | None => phone_loop original_text patterns'
      end
  end.

Definition extract_phone (original_text : str) : option str :=
  phone_loop original_text phone_patterns.

(** A name candidate: [(text, confidence, source)]. *)
Definition candidate : Type := str * Q * str.

Definition cand_key (c : candidate) : Q * bool :=
  (snd (fst c), str_eqb (snd c) "spacy").

Definition key_lt (a b : Q * bool) : bool :=
  match (fst a ?= fst b)%Q with
  | Lt => true
  | Gt => false
  | Eq => negb (snd a) && snd b
  end.

(** [l.sort(key=..., reverse=True)]: a stable sort in descending order. *)
Fixpoint insert_desc {A : Type} (key : A -> Q * bool) (x : A) (l : list A)
  : list A :=
  match l with
  | [] => [x]
  | y :: l' =>
      if key_lt (key x) (key y) then y :: insert_desc key x l' else x :: l
  end.

Definition sort_desc {A : Type} (key : A -> Q * bool) (l : list A) : list A :=
  foldr (insert_desc key) [] l.

(** [^([A-Z][a-z]+(?:\s+[A-Z][a-z]+){1,3})(?:\s|$|[,\n])] *)
Definition cap_word : re := Seq upper (plus lower_).

Definition name_pattern : re :=
  seqs [ Bol;
         Grp 1 (Seq cap_word (between (Seq (plus sp) cap_word) 1 3));
         alts [sp; Eol; Cls (fun c => Ascii.eqb c "," || Ascii.eqb c nl)] ].

Definition name_stop_words : list str :=
  ["inc" : str; "llc" : str; "corp" : str; "company" : str; "engineer" : str;
   "manager" : str].

Definition spacy_names (env : Env) (top_lines : str) : list candidate :=
  match spacy_nlp env with
  | Some nlp =>
      match nlp top_lines with
      | Some ents =>
          omap (fun ent =>
            let words := split_ws (ent_text ent) in
            if str_eqb (ent_label ent) "PERSON" && (2 <=? length words)
               && forallb (fun w => match w with c :: _ => is_upper c | [] => false end)
                    (take 2 words)
               && (length (ent_text ent) <? 50)
            then Some (ent_text ent, 9 # 10, "spacy" : str)
            else None) ents
      | None => []
      end
  | None => []
  end.

Definition transformer_names (env : Env) (top_lines : str) : list candidate :=
  match transformer_ner env with
  | Some ner =>
      match ner (take 500 top_lines) with
      | Some entities =>
          omap (fun e =>
            if str_eqb (entity_group e) "PER"
               && (2 <=? length (split_ws (t_word e)))
               && negb (Qle_bool (t_score e) (8 # 10))
            then Some (strip (t_word e), t_score e, "transformer" : str)
            else None) entities
      | None => []
      end
  | None => []
  end.

Definition pattern_names (cleaned_text : str) : list candidate :=
  let first_line :=
    if truthy cleaned_text
    then match split_on nl cleaned_text with l :: _ => l | [] => [] end
    else [] in
  if truthy first_line then
    match search false name_pattern first_line with
    | Some m =>
        match group first_line m 1 with
        | Some g =>
            let name_text := strip g in
            if truthy name_text
               && negb (existsb (fun w => contains (lower w) (lower name_text))
                          name_stop_words)
            then [(name_text, 7 # 10, "pattern" : str)]
            else []
        | None => []
        end
    | None => []
    end
  else [].

Definition extract_name (env : Env) (cleaned_text : str) : option str :=
  let top_lines := join [nl] (take 3 (split_on nl cleaned_text)) in
  let name_candidates :=
    spacy_names env top_lines ++ transformer_names env top_lines
    ++ pattern_names cleaned_text in
  match sort_desc cand_key name_candidates with
  | c :: _ => Some (fst (fst c))
  | [] => None
  end.

Definition extract_location (env : Env) (cleaned_text : str) : option str :=
  let top_text := take 500 cleaned_text in
  let location_candidates :=
    match spacy_nlp env with
    | Some nlp =>
        match nlp top_text with
        | Some ents =>
            omap (fun ent =>
              if str_eqb (ent_label ent) "GPE" || str_eqb (ent_label ent) "LOC"
              then Some (ent_text ent, 9 # 10)
              else None) ents
        | None => []
        end
    | None => []
    end in
  match sort_desc (fun c : str * Q => (snd c, false)) location_candidates with
  | c :: _ => Some (fst c)
  | [] => None
  end.

(** [[a-zA-Z0-9-]+] *)
Definition handle_re : re := plus (Cls (cor alnum (one_of "-"))).

(** [(?:linkedin\.com/in/|linkedin\.com/pub/)([a-zA-Z0-9-]+)] *)
Definition linkedin_pattern : re :=
  Seq (alts [word "linkedin.com/in/"; word "linkedin.com/pub/"]) (Grp 1 handle_re).

(** [(?:github\.com/)([a-zA-Z0-9-]+)] *)
Definition github_pattern : re := Seq (word "github.com/") (Grp 1 handle_re).

Definition extract_handle (pattern : re) (prefix : str) (original_text : str)
  : option str :=
  match search true pattern original_text with
  | Some m =>
      match group original_text m 1 with
      | Some g => Some (prefix ++ g)
      | None => None
      end
  | None => None
  end.

Definition _extract_personal_info_enhanced (env : Env)
    (cleaned_text original_text : str) : personal :=
  {| full_name := extract_name env cleaned_text;
     email := head (findall false email_pattern original_text);
     phone := extract_phone original_text;
     location := extract_location env cleaned_text;
     linkedin := extract_handle linkedin_pattern "linkedin.com/in/" original_text;
     github := extract_handle github_pattern "github.com/" original_text |}.

(** *** [_extract_experience_enhanced] *)

Definition exp_keywords : list str :=
  ["experience" : str; "work history" : str; "employment history" : str;
   "employment" : str; "professional experience" : str; "career" : str;
   "work experience" : str; "professional background" : str;
   "employment background" : str; "work background" : str;
   "career history" : str; "professional history" : str].

(** [(?:Jan|Feb|Mar|Apr|May|Jun|Jul|Aug|Sep|Oct|Nov|Dec)] *)
Definition month_re : re :=
  words ["Jan"; "Feb"; "Mar"; "Apr"; "May"; "Jun"; "Jul"; "Aug"; "Sep"; "Oct";
         "Nov"; "Dec"]%string.

(** [\b(?:Jan|...|Dec)[a-z]*\s+\d{4}] *)
Definition month_year_re : re :=
  seqs [Wb; month_re; star lower_; plus sp; times d 4].

(** [\d{1,2}[/-]\d{4}] *)
Definition num_month_year_re : re :=
  seqs [between d 1 2; Cls (one_of "/-"); times d 4].

(** [(?:Present|Current|Now)] *)
Definition present_re : re := words ["Present"; "Current"; "Now"]%string.

Definition date_patterns : list re :=
  [ Seq month_year_re Wb;
    seqs [Wb; num_month_year_re; Wb];
    (* \b(?:19|20)\d{2}\b *)
    seqs [Wb; words ["19"; "20"]%string; times d 2; Wb];
    present_re ].

(** [[A-Za-z\s]+] *)
Definition letters_spaces : re := plus (Cls (cor is_alpha is_space)).

Definition title_patterns : list re :=
  [ seqs [ Wb;
           words ["Senior"; "Junior"; "Lead"; "Principal"; "Staff"; "Associate";
                  "Manager"; "Director"; "VP"; "CEO"; "CTO"; "CFO"; "Executive";
                  "Head"; "Chief"]%string;
           plus sp; letters_spaces ];
    seqs [ Wb; upper; plus lower_; plus sp;
           words ["Engineer"; "Developer"; "Manager"; "Analyst"; "Specialist";
                  "Architect"; "Consultant"; "Coordinator"; "Supervisor";
                  "Representative"; "Assistant"; "Clerk"]%string ];
    seqs [ Wb;
           alts [ word "Software"; word "Data"; word "Product"; word "DevOps";
                  word "Backend"; word "Frontend";
                  seqs [word "Full"; opt (Cls any_char); word "Stack"];
                  word "Mobile"; word "QA"; word "Test"; word "Systems";
                  word "Security"; word "Sales"; word "Customer";
                  word "Marketing"; word "Operations" ];
           plus sp;
           words ["Engineer"; "Developer"; "Architect"; "Manager"; "Analyst";
                  "Specialist"; "Representative"]%string ];
    seqs [ Wb;
           opt (words ["Warehouse"; "Logistics"; "Supply Chain"; "Operations";
                       "Distribution"; "Retail"; "Amazon"; "Fulfillment";
                       "Delivery"; "Shipping"]%string);
           star sp;
           words ["Associate"; "Specialist"; "Coordinator"; "Supervisor";
                  "Manager"; "Worker"; "Operator"; "Technician"; "Clerk"]%string ];
    (* \b[A-Z][a-z]+\s+(?:at|@)\s+[A-Z] *)
    seqs [ Wb; upper; plus lower_; plus sp; words ["at"; "@"]%string; plus sp;
           upper ];
    (* ^\s*[A-Z][a-z]+(?:\s+[A-Z][a-z]+)*\s*-\s*[A-Z] *)
    seqs [ Bol; star sp; cap_word; star (Seq (plus sp) cap_word); star sp;
           chr "-"; star sp; upper ];
    (* ^\s*[A-Z][a-z]+(?:\s+[A-Z][a-z]+)*\s*,\s*[A-Z] *)
    seqs [ Bol; star sp; cap_word; star (Seq (plus sp) cap_word); star sp;
           chr ","; star sp; upper ] ].

(** [\b(?:Jan|...|Dec)[a-z]*\s+\d{4}\b.*\b(?:Engineer|...|Supervisor)\b] *)
Definition date_title_pattern : re :=
  seqs [ month_year_re; Wb; star (Cls any_char); Wb;
         words ["Engineer"; "Developer"; "Manager"; "Analyst"; "Specialist";
                "Associate"; "Coordinator"; "Supervisor"]%string;
         Wb ].

(** [^(?:at|@)\s+] *)
Definition at_prefix_re : re := seqs [Bol; words ["at"; "@"]%string; plus sp].

Definition well_known_companies : list str :=
  ["Amazon" : str; "Google" : str; "Microsoft" : str; "Apple" : str;
   "Facebook" : str; "Meta" : str; "IBM" : str; "Oracle" : str;
   "Salesforce" : str; "Adobe" : str; "Intel" : str; "NVIDIA" : str;
   "Tesla" : str; "Netflix" : str; "Uber" : str; "Airbnb" : str;
   "Twitter" : str; "LinkedIn" : str; "Walmart" : str; "Target" : str;
   "Costco" : str; "FedEx" : str; "UPS" : str; "DHL" : str].

(** [[A-Za-z0-9\s&.,-]+] *)
Definition company_chars : re :=
  plus (Cls (cor alnum (cor is_space (one_of "&.,-")))).

(** [^[A-Z][A-Za-z0-9\s&.,-]+(?:Inc|...|Enterprises)?$] *)
Definition company_pattern : re :=
  seqs [ Bol; upper; company_chars;
         opt (words ["Inc"; "LLC"; "Ltd"; "Corp"; "Corporation"; "Company";
                     "Co"; "Technologies"; "Solutions"; "Systems"; "Group";
                     "Enterprises"]%string);
         Eol ].

(** [(?:at|@|-|,)\s+([A-Z][A-Za-z0-9\s&.,-]+(?:Inc|...|Co)?)] *)
Definition company_at_pattern : re :=
  seqs [ words ["at"; "@"; "-"; ","]%string; plus sp;
         Grp 1 (seqs [ upper; company_chars;
                       opt (words ["Inc"; "LLC"; "Ltd"; "Corp"; "Corporation";
                                   "Company"; "Co"]%string) ]) ].

(** The two halves of the date-range pattern; the dash class of the source
    also lists the en and em dashes, which are not ASCII. *)
Definition date_range_pattern : re :=
  seqs [ Grp 1 (alts [month_year_re; num_month_year_re]);
         star sp; chr "-"; star sp;
         Grp 2 (alts [month_year_re; num_month_year_re; word "Present";
                      word "Current"; word "Now"]) ].

(** [^[\d\s\/\-]+$] *)
Definition only_dates_re : re :=
  seqs [Bol; plus (Cls (cor is_digit (cor is_space (one_of "/-")))); Eol].

(** [^[A-Z][A-Za-z\s&.,-]+(?:Inc|LLC|Ltd|Corp)?$] *)
Definition bare_company_re : re :=
  seqs [ Bol; upper; plus (Cls (cor is_alpha (cor is_space (one_of "&.,-"))));
         opt (words ["Inc"; "LLC"; "Ltd"; "Corp"]%string); Eol ].

Definition new_exp (title_text : str) : exp_entry :=
  {| title := Some title_text; company := None; start_date := None;
     end_date := None; description := []; achievements := [];
     technologies := [] |}.

(** [if current_exp and current_exp.get('title'): experience.append(current_exp)] *)
Definition commit_exp (experience : list exp_entry) (current : option exp_entry)
  : list exp_entry :=
  match current with
  | Some e => if some_truthy (title e) then experience ++ [e] else experience
  | None => experience
  end.

Definition good_title_len (t : str) : bool :=
  (5 <? length t) && (length t <? 100).

(** The title found by the date-and-title check, if any. *)
Definition date_title (line : str) : option str :=
  match search true date_title_pattern line with
  | Some m =>
      let title_part := strip (drop (m_end m) line) in
      if truthy title_part then
        let title_text := strip (join " " (take 5 (split_ws title_part))) in
        if good_title_len title_text then Some title_text else None
      else None
  | None => None
  end.

(** The title found by the first title pattern that gives one of a
    reasonable length. *)
Fixpoint standard_title (patterns : list re) (line : str) : option str :=
  match patterns with
  | [] => None
  | pattern :: patterns' =>
      match search true pattern line with
      | Some m =>
          let title_text := strip (group0 line m) in
          let title_text := strip (sub true at_prefix_re [] title_text) in
          if good_title_len title_text then Some title_text
          else standard_title patterns' line
      | None => standard_title patterns' line
      end
  end.

Definition find_title (line : str) : option str :=
  match date_title line with
  | Some t => Some t
  | None => standard_title title_patterns line
  end.

Definition set_company (e : exp_entry) (c : str) : exp_entry :=
  {| title := title e; company := Some c; start_date := start_date e;
     end_date := end_date e; description := description e;
     achievements := achievements e; technologies := technologies e |}.

Definition set_start_date (e : exp_entry) (x : str) : exp_entry :=
  {| title := title e; company := company e; start_date := Some x;
     end_date := end_date e; description := description e;
     achievements := achievements e; technologies := technologies e |}.

Definition set_end_date (e : exp_entry) (x : str) : exp_entry :=
  {| title := title e; company := company e; start_date := start_date e;
     end_date := Some x; description := description e;
     achievements := achievements e; technologies := technologies e |}.

Definition set_description (e : exp_entry) (x : str) : exp_entry :=
  {| title := title e; company := company e; start_date := start_date e;
     end_date := end_date e; description := x;
     achievements := achievements e; technologies := technologies e |}.

(** The company steps, each run only while no company is set. *)
Definition company_from_orgs (orgs : list str) (line : str) (e : exp_entry)
  : exp_entry :=
  if some_truthy (company e) then e
  else
    match List.find (fun org => truthy org && truthy line
                                && contains (lower org) (lower line)) orgs with
    | Some org => set_company e org
    | None => e
    end.

Definition company_from_well_known (line : str) (e : exp_entry) : exp_entry :=
  if some_truthy (company e) then e
  else
    match List.find (fun c => truthy c && truthy line
                              && contains (lower c) (lower line)
                              && bool_decide (is_Some (search true (whole_word c) line)))
            well_known_companies with
    | Some c => set_company e c
    | None => e
    end.

Definition company_stop_words : list str :=
  ["engineer" : str; "developer" : str; "manager" : str; "associate" : str].

Definition company_from_line (line : str) (e : exp_entry) : exp_entry :=
  if some_truthy (company e) then e
  else
    if truthy line && bool_decide (is_Some (match_ false company_pattern line))
       && (3 <? length line) && (length line <? 100)
       && negb (bool_decide (is_Some (search false (times d 4) line)))
       && negb (existsb (fun w => contains w (lower line)) company_stop_words)
    then set_company e line
    else e.

Definition company_from_separator (line : str) (e : exp_entry) : exp_entry :=
  if some_truthy (company e) then e
  else
    match search true company_at_pattern line with
    | Some m =>
        match group line m 1 with
        | Some g =>
            let company_text := strip g in
            if (3 <? length company_text) && (length company_text <? 100)
            then set_company e company_text
            else e
        | None => e
        end
    | None => e
    end.

Definition mentions_present (line : str) : bool :=
  truthy line
  && (contains "present" (lower line) || contains "current" (lower line)
      || contains "now" (lower line)).

(** The loop over [date_patterns]: the first pattern with a match decides. *)
Fixpoint dates_from_patterns (patterns : list re) (line : str) (e : exp_entry)
  : exp_entry :=
  match patterns with
  | [] => e
  | pattern :: patterns' =>
      match findall true pattern line with
      | [] => dates_from_patterns patterns' line e
      | d0 :: more =>
          let e1 := if some_truthy (start_date e) then e else set_start_date e d0 in
          match more with
          | d1 :: _ => set_end_date e1 d1
          | [] => if mentions_present line then set_end_date e1 "Present" else e1
          end
      end
  end.

Definition present_words : list str :=
  ["present" : str; "current" : str; "now" : str].

Definition dates_from_range (line : str) (e : exp_entry) : exp_entry :=
  match (if truthy line then search true date_range_pattern line else None) with
  | Some m =>
      let e1 :=
        if some_truthy (start_date e) then e
        else match group line m 1 with
             | Some g => if truthy g then set_start_date e (strip g) else e
             | None => e
             end in
      match group line m 2 with
      | Some g =>
          if truthy g then
            let end_date := strip g in
            if truthy end_date && mem (lower end_date) present_words
            then set_end_date e1 "Present"
            else if truthy end_date then set_end_date e1 end_date
            else e1
          else e1
      | None => e1
      end
  | None => e
  end.

Definition add_description (line : str) (e : exp_entry) : exp_entry :=
  if truthy line && negb (bool_decide (is_Some (match_ false only_dates_re line)))
  then
    if truthy (description e) then
      if negb (contains line (description e))
      then set_description e (description e ++ [nl] ++ line)
      else e
    else
      if negb (bool_decide (is_Some (match_ false bare_company_re line)))
         || (20 <? length line)
      then set_description e line
      else e
  else e.

(** One iteration of the loop over the lines of the section; the state is
    the list built so far and the current entry ([None] for [{}]). *)
Definition exp_step (orgs : list str)
    (st : list exp_entry * option exp_entry) (line : str)
  : list exp_entry * option exp_entry :=
  let '(experience, current_exp) := st in
  if negb (truthy line) then st
  else
    let line := strip line in
    if negb (truthy line) || (length line <? 5) then
      match current_exp with
      | Some e =>
          if some_truthy (title e) then (experience ++ [e], None) else st
      | None => st
      end
    else
      let line := if 500 <? length line then take 500 line else line in
      match find_title line with
      | Some title_text =>
          (commit_exp experience current_exp, Some (new_exp title_text))
      | None =>
          match current_exp with
          | Some e =>
              let e := company_from_orgs orgs line e in
              let e := company_from_well_known line e in
              let e := company_from_line line e in
              let e := company_from_separator line e in
              let e := dates_from_patterns date_patterns line e in
              let e := dates_from_range line e in
              let e := add_description line e in
              (experience, Some e)
          | None => st
          end
      end.

Definition spacy_orgs (env : Env) (exp_section : str) : list str :=
  match spacy_nlp env with
  | Some nlp =>
      match nlp (take 3000 exp_section) with
      | Some ents =>
          map ent_text (filter (fun e => str_eqb (ent_label e) "ORG") ents)
      | None => []
      end
  | None => []
  end.

Definition _extract_experience_enhanced (env : Env)
    (cleaned_text original_text : str) : list exp_entry :=
  let exp_section := section_or (_find_section cleaned_text exp_keywords)
                       cleaned_text in
  let orgs := spacy_orgs env exp_section in
  let lines := split_on nl exp_section in
  let '(experience, current_exp) := fold_left (exp_step orgs) lines ([], None) in
  commit_exp experience current_exp.

(** *** [_extract_education_enhanced] *)

Definition edu_keywords : list str :=
  ["education" : str; "academic" : str; "qualification" : str; "degree" : str;
   "university" : str; "college" : str].

(** [\.?] *)
Definition odot : re := opt (chr ".").

Definition degree_patterns : list re :=
  [ (* \b(?:Bachelor|...|Certificate)\s+(?:of|in)?\s+[A-Za-z\s&]+ *)
    seqs [ Wb;
           words ["Bachelor"; "Master"; "PhD"; "Doctorate"; "Associate";
                  "Diploma"; "Certificate"]%string;
           plus sp; opt (words ["of"; "in"]%string); plus sp;
           plus (Cls (cor is_alpha (cor is_space (one_of "&")))) ];
    (* \b(?:B\.?S\.?|M\.?S\.?|B\.?A\.?|M\.?A\.?|Ph\.?D\.?|MBA|B\.?E\.?|M\.?E\.?)\b *)
    seqs [ Wb;
           alts [ seqs [chr "B"; odot; chr "S"; odot];
                  seqs [chr "M"; odot; chr "S"; odot];
                  seqs [chr "B"; odot; chr "A"; odot];
                  seqs [chr "M"; odot; chr "A"; odot];
                  seqs [word "Ph"; odot; chr "D"; odot];
                  word "MBA";
                  seqs [chr "B"; odot; chr "E"; odot];
                  seqs [chr "M"; odot; chr "E"; odot] ];
           Wb ] ].

(** [\b([A-Z][A-Za-z\s&]+(?:University|College|Institute|School|Academy))\b] *)
Definition institution_pattern : re :=
  seqs [ Wb;
         Grp 1 (seqs [ upper;
                       plus (Cls (cor is_alpha (cor is_space (one_of "&"))));
                       words ["University"; "College"; "Institute"; "School";
                              "Academy"]%string ]);
         Wb ].

(** [\b(19|20)\d{2}\b] *)
Definition year_pattern : re :=
  seqs [Wb; Grp 1 (words ["19"; "20"]%string); times d 2; Wb].

(** [\bGPA[:\s]*(G)\b] with the group [G = \d+\.?\d*] *)
Definition gpa_pattern : re :=
  seqs [ Wb; word "GPA"; star (Cls (cor (one_of ":") is_space));
         Grp 1 (seqs [plus d; odot; star d]); Wb ].

Definition institution_words : list str :=
  ["university" : str; "college" : str; "institute" : str; "school" : str].

Definition new_edu (degree_text : str) : edu_entry :=
  {| degree := Some degree_text; institution := None; year := None;
     field := None; gpa := None; honors := [] |}.

Definition commit_edu (education : list edu_entry) (current : option edu_entry)
  : list edu_entry :=
  match current with
  | Some e => if some_truthy (degree e) then education ++ [e] else education
  | None => education
  end.

Fixpoint find_degree (patterns : list re) (line : str) : option str :=
  match patterns with
  | [] => None
  | pattern :: patterns' =>
      match search true pattern line with
      | Some m =>
          let degree_text := strip (group0 line m) in
          Some (if 100 <? length degree_text then take 100 degree_text
                else degree_text)
      | None => find_degree patterns' line
      end
  end.

(** The words of the line from the first one that holds an institution
    keyword, stopping once their join is longer than 100 characters. *)
Fixpoint inst_words_loop (words : list str) (found_keyword : bool)
    (inst_words : list str) : list str :=
  match words with
  | [] => inst_words
  | w :: words' =>
      let found_keyword :=
        found_keyword
        || (truthy w && existsb (fun kw => contains kw (lower w)) institution_words) in
      if found_keyword then
        let inst_words := inst_words ++ [w] in
        if 100 <? length (join " " inst_words) then inst_words
        else inst_words_loop words' found_keyword inst_words
      else inst_words_loop words' found_keyword inst_words
  end.

Definition set_institution (e : edu_entry) (x : str) : edu_entry :=
  {| degree := degree e; institution := Some x; year := year e;
     field := field e; gpa := gpa e; honors := honors e |}.

Definition set_year (e : edu_entry) (x : str) : edu_entry :=
  {| degree := degree e; institution := institution e; year := Some x;
     field := field e; gpa := gpa e; honors := honors e |}.

Definition set_gpa (e : edu_entry) (x : str) : edu_entry :=
  {| degree := degree e; institution := institution e; year := year e;
     field := field e; gpa := Some x; honors := honors e |}.

Definition edu_institution (line : str) (e : edu_entry) : edu_entry :=
  if some_truthy (institution e) then e
  else
    match search false institution_pattern line with
    | Some m =>
        match group line m 1 with
        | Some g =>
            let inst_text := strip g in
            if length inst_text <=? 100 then set_institution e inst_text else e
        | None => e
        end
    | None =>
        if truthy line
           && existsb (fun w => contains w (lower line)) institution_words
        then
          match inst_words_loop (split_ws line) false [] with
          | [] => e
          | inst_words => set_institution e (strip (join " " (take 8 inst_words)))
          end
        else e
    end.

Definition edu_year (line : str) (e : edu_entry) : edu_entry :=
  match search false year_pattern line with
  | Some m => if some_truthy (year e) then e else set_year e (group0 line m)
  | None => e
  end.

Definition edu_gpa (line : str) (e : edu_entry) : edu_entry :=
  match search true gpa_pattern line with
  | Some m =>
      match group line m 1 with
      | Some g => set_gpa e g
      | None => e
      end
  | None => e
  end.

Definition edu_step (st : list edu_entry * option edu_entry) (line : str)
  : list edu_entry * option edu_entry :=
  let '(education, current_edu) := st in
  if negb (truthy line) then st
  else
    let line := strip line in
    if negb (truthy line) || (length line <? 5) then
      match current_edu with
      | Some e =>
          if some_truthy (degree e) then (education ++ [e], None) else st
      | None => st
      end
    else
      let line := if 300 <? length line then take 300 line else line in
      let '(education, current_edu) :=
        match find_degree degree_patterns line with
        | Some degree_text =>
            (commit_edu education current_edu, Some (new_edu degree_text))
        | None => (education, current_edu)
        end in
      match current_edu with
      | Some e =>
          (education, Some (edu_gpa line (edu_year line (edu_institution line e))))
      | None => (education, None)
      end.

Definition _extract_education_enhanced (cleaned_text original_text : str)
  : list edu_entry :=
  let edu_section := section_or (_find_section cleaned_text edu_keywords)
                       cleaned_text in
  let lines := split_on nl edu_section in
  let '(education, current_edu) := fold_left edu_step lines ([], None) in
  commit_edu education current_edu.

(** *** [_extract_skills_enhanced] *)

Definition skills_keywords : list str :=
  ["skills" : str; "technical skills" : str; "competencies" : str;
   "technologies" : str; "tools" : str; "expertise" : str].

Definition common_skills : list str :=
  ["Python" : str; "Java" : str; "JavaScript" : str; "TypeScript" : str;
   "C++" : str; "C#" : str; "Go" : str; "Rust" : str; "Ruby" : str; "PHP" : str;
   "Swift" : str; "Kotlin" : str; "Scala" : str; "R" : str; "MATLAB" : str;
   "SQL" : str; "HTML" : str; "CSS" : str;
   "React" : str; "Angular" : str; "Vue" : str; "Node.js" : str;
   "Express" : str; "Django" : str; "Flask" : str; "FastAPI" : str;
   "Spring" : str; "Laravel" : str; "ASP.NET" : str; "Next.js" : str;
   "Nuxt.js" : str;
   "PostgreSQL" : str; "MySQL" : str; "MongoDB" : str; "Redis" : str;
   "Oracle" : str; "SQLite" : str; "Cassandra" : str;
   "AWS" : str; "Azure" : str; "GCP" : str; "Docker" : str; "Kubernetes" : str;
   "Git" : str; "Linux" : str;
   "Terraform" : str; "Ansible" : str; "Jenkins" : str; "CI/CD" : str;
   "GitHub Actions" : str;
   "Machine Learning" : str; "TensorFlow" : str; "PyTorch" : str; "Keras" : str;
   "Scikit-learn" : str;
   "Pandas" : str; "NumPy" : str; "OpenCV" : str; "Agile" : str; "Scrum" : str;
   "DevOps" : str;
   "Warehousing" : str; "Logistics" : str; "Supply Chain" : str;
   "Operations" : str; "Distribution" : str].

(** [if x not in skills: skills.append(x)] *)
Definition add_new (skills : list str) (x : str) : list str :=
  if mem x skills then skills else skills ++ [x].

(** The first loop: the vocabulary entries found in the section as whole
    words, case-insensitively. *)
Definition vocab_step (skills_section : str) (skills : list str) (skill : str)
  : list str :=
  if bool_decide (is_Some (search true (whole_word skill) skills_section))
  then add_new skills skill
  else skills.

(** One token of a delimited line. *)
Definition token_step (skills : list str) (skill_text : str) : list str :=
  if truthy skill_text && (3 <=? length skill_text) && (length skill_text <=? 50)
  then
    match List.find (fun known_skill =>
            truthy known_skill && truthy skill_text
            && str_eqb (lower known_skill) (lower skill_text)) common_skills with
    | Some known_skill => add_new skills known_skill
    | None =>
        if match skill_text with c :: _ => is_upper c | [] => false end
           && negb (mem skill_text skills)
        then skills ++ [skill_text]
        else skills
    end
  else skills.

(** [[s.strip() for s in line.split(sep) if s.strip()]] *)
Definition tokens (sep : ascii) (line : str) : list str :=
  map strip (List.filter (fun s => truthy (strip s)) (split_on sep line)).

Definition separators : list ascii := [","%char; "|"%char; ";"%char].

(** A line is split on the first of the separators it contains. *)
Definition line_step (skills : list str) (line : str) : list str :=
  match List.find (fun sep => existsb (Ascii.eqb sep) line) separators with
  | Some sep => fold_left token_step (tokens sep line) skills
  | None => skills
  end.

(** The list [skills] as the two loops leave it, before [list(set(skills))]. *)
Definition collected_skills (skills_section : str) : list str :=
  let skills := fold_left (vocab_step skills_section) common_skills [] in
  fold_left line_step (split_on nl skills_section) skills.

Definition _extract_skills_enhanced (env : Env)
    (cleaned_text original_text : str) : list str :=
  let skills_section := section_or (_find_section cleaned_text skills_keywords)
                          cleaned_text in
  set_order env (collected_skills skills_section).

(** *** [_extract_summary_enhanced] *)

Definition summary_keywords : list str :=
  ["summary" : str; "objective" : str; "profile" : str; "about" : str;
   "overview" : str].

(** [[.!?]+] *)
Definition sentence_end_re : re := plus (Cls (one_of ".!?")).

Definition summary_from_lines (cleaned_text : str) : option str :=
  match List.find (fun line => 50 <? length line)
          (take 10 (split_on nl cleaned_text)) with
  | Some line => Some (take 500 line)
  | None => None
  end.

Definition _extract_summary_enhanced (cleaned_text original_text : str)
  : option str :=
  match _find_section cleaned_text summary_keywords with
  | Some summary_section =>
      if truthy summary_section then
        let sentences := split false sentence_end_re summary_section in
        let summary := strip (join ". " (take 3 sentences)) in
        if truthy summary then Some (take 500 summary)
        else summary_from_lines cleaned_text
      else summary_from_lines cleaned_text
  | None => summary_from_lines cleaned_text
  end.

(** *** [_extract_certifications] and [_extract_languages] *)

Definition cert_keywords : list str :=
  ["certification" : str; "certificate" : str; "certified" : str;
   "license" : str].

(** [(?:Certified|Certification|License)\s+[A-Za-z\s]+] *)
Definition cert_pattern : re :=
  seqs [ words ["Certified"; "Certification"; "License"]%string; plus sp;
         letters_spaces ].

Definition _extract_certifications (text : str) : list str :=
  match _find_section text cert_keywords with
  | Some cert_section =>
      if truthy cert_section then findall true cert_pattern cert_section else []
  | None => []
  end.

Definition lang_keywords : list str := ["languages" : str; "language" : str].

Definition common_langs : list str :=
  ["English" : str; "Spanish" : str; "French" : str; "German" : str;
   "Chinese" : str; "Japanese" : str; "Hindi" : str; "Arabic" : str;
   "Portuguese" : str; "Russian" : str; "Italian" : str].

Definition _extract_languages (text : str) : list str :=
  match _find_section text lang_keywords with
  | Some lang_section =>
      if truthy lang_section then
        List.filter (fun lang =>
          bool_decide (is_Some (search true (whole_word lang) lang_section)))
          common_langs
      else []
  | None => []
  end.

(** *** [_calculate_confidence_enhanced] *)

Definition exp_points (e : exp_entry) : Z :=
  ((if some_truthy (title e) then 5 else 0)
   + (if some_truthy (company e) then 3 else 0)
   + (if some_truthy (start_date e) || some_truthy (end_date e) then 2 else 0))%Z.

Definition edu_points (e : edu_entry) : Z :=
  ((if some_truthy (degree e) then 8 else 0)
   + (if some_truthy (institution e) then 6 else 0)
   + (if some_truthy (year e) then 6 else 0))%Z.

Definition sum_points {A : Type} (f : A -> Z) (l : list A) : Z :=
  fold_left (fun acc x => (acc + f x)%Z) l 0%Z.

Definition skill_points (skill_count : nat) : Z :=
  if 10 <=? skill_count then 20%Z
  else if 5 <=? skill_count then 15%Z
  else if 3 <=? skill_count then 10%Z
  else (Z.of_nat skill_count * 3)%Z.

Definition nonempty {A : Type} (l : list A) : bool :=
  match l with [] => false | _ => true end.

(** The sum of the weighted points, before the floor rule. *)
Definition raw_score (pd : fields) : Q :=
  let score := 0%Q in
  let info := personal_info pd in
  let score := if some_truthy (full_name info) then (score + 10)%Q else score in
  let score := if some_truthy (email info) then (score + 10)%Q else score in
  let score := if some_truthy (phone info) then (score + 10)%Q else score in
  let score :=
    if nonempty (experience pd)
    then (score + inject_Z (Z.min 30 (sum_points exp_points (experience pd))))%Q
    else score in
  let score :=
    if nonempty (education pd)
    then (score + inject_Z (Z.min 20 (sum_points edu_points (education pd))))%Q
    else score in
  let score :=
    if nonempty (skills pd)
    then (score + inject_Z (skill_points (length (skills pd))))%Q
    else score in
  let score :=
    match summary pd with
    | Some s => if 50 <? length s then (score + 5)%Q else score
    | None => score
    end in
  let score :=
    if nonempty (languages pd)
    then (score + inject_Z (Z.min 5 (Z.of_nat (length (languages pd)) * 2)))%Q
    else score in
  let score :=
    if nonempty (certifications pd)
    then (score + inject_Z (Z.min 5 (Z.of_nat (length (certifications pd)) * 2)))%Q
    else score in
  score.

(** The test of the floor rule. *)
Definition has_any_data (pd : fields) : bool :=
  let info := personal_info pd in
  some_truthy (full_name info) || some_truthy (email info)
  || some_truthy (phone info)
  || nonempty (experience pd) || nonempty (education pd) || nonempty (skills pd)
  || some_truthy (summary pd).

Definition _calculate_confidence_enhanced (pd : fields) : Q :=
  let score := raw_score pd in
  let score :=
    if Qeq_bool score 0 then (if has_any_data pd then 10%Q else score)
    else score in
  py_round (Qmin 100 score) 1.

(** *** [parse] *)

Definition parse (env : Env) (input : pyval) : profile :=
  let text :=
    match input with
    | PStr s => s
    | PNotStr => []
    end in
  let cleaned_text := _preprocess_text text in
  let parsed_data :=
    {| personal_info := _extract_personal_info_enhanced env cleaned_text text;
       experience := _extract_experience_enhanced env cleaned_text text;
       education := _extract_education_enhanced cleaned_text text;
       skills := _extract_skills_enhanced env cleaned_text text;
       summary := _extract_summary_enhanced cleaned_text text;
       certifications := _extract_certifications cleaned_text;
       languages := _extract_languages cleaned_text |} in
  {| data := parsed_data;
     confidence_score := _calculate_confidence_enhanced parsed_data |}.

End EnhancedParser.

Export EnhancedParser.

(** ** The Relevancy Scoring Engine: [MatchingService] *)

Module MatchingService.

(** The values stored under [detailed_scores]. *)
Record skill_detail : Type := SkillDetail {
  sk_score : Q;
  matched_skills : list str;
  required_skills : list str;
  missing_skills : list str
}.

(** [total_years] and [required_years] are [None] in the dictionary returned
    for an empty list, which has no such keys. *)
Record exp_detail : Type := ExpDetail {
  ex_score : Q;
  total_years : option Q;
  required_years : option Z;
  matched_positions : nat;
  total_positions : nat
}.

Record edu_detail : Type := EduDetail {
  ed_score : Q;
  required_degree : option str;
  matched_degrees : nat;
  has_required : option bool
}.

(** [relevant_keywords] is [None] in the dictionary returned for an empty
    list, which has no such key. *)
Record title_detail : Type := TitleDetail {
  ti_score : Q;
  matched_titles : list str;
  relevant_keywords : option (list str)
}.

Inductive detail : Type :=
| DSkill (x : skill_detail)
| DExp (x : exp_detail)
| DEdu (x : edu_detail)
| DTitle (x : title_detail).

(** The dictionary [scores]; [semantic_score] and [match_summary] are [None]
    while their keys are not set. *)
Record scores : Type := Scores {
  overall_score : Q;
  skill_match : Q;
  experience_match : Q;
  education_match : Q;
  title_match : Q;
  detailed_scores : gmap string detail;
  semantic_score : option Q;
  match_summary : option str
}.

(** The embedding back end: [None] when no model is loaded; otherwise the
    cosine similarity of the embeddings of two texts ([None] when the
    computation raises). *)
Definition embedding : Type := option (str -> str -> option Q).

(** *** [_match_skills] *)

Definition common_skills : list str :=
  ["python" : str; "java" : str; "javascript" : str; "typescript" : str;
   "react" : str; "angular" : str; "vue" : str;
   "node.js" : str; "sql" : str; "postgresql" : str; "mongodb" : str;
   "aws" : str; "azure" : str; "gcp" : str;
   "docker" : str; "kubernetes" : str; "git" : str; "agile" : str;
   "scrum" : str; "ci/cd" : str;
   "machine learning" : str; "ai" : str; "data science" : str;
   "tensorflow" : str; "pytorch" : str].

(** [a in b or b in a] *)
Definition overlaps (a b : str) : bool := contains a b || contains b a.

Definition len_ratio (n m : nat) : Q :=
  (inject_Z (Z.of_nat n) / inject_Z (Z.of_nat (Nat.max m 1)))%Q.

Definition _match_skills (resume_skills : list str) (job_desc : str)
  : skill_detail :=
  let required_skills :=
    List.filter (fun skill => contains skill job_desc) common_skills in
  let matched_skills :=
    List.filter (fun skill => existsb (fun req => overlaps req skill)
                                required_skills) resume_skills in
  let score :=
    if nonempty required_skills
    then len_ratio (length matched_skills) (length required_skills)
    else 0%Q in
  let score := Qmin score 1 in
  {| sk_score := py_round score 2;
     matched_skills := matched_skills;
     required_skills := required_skills;
     missing_skills :=
       List.filter (fun s => negb (existsb (fun rs => overlaps s rs) matched_skills))
         required_skills |}.

(** *** [_match_experience] *)

(** [\b(19|20)\d{2}\b] is [year_pattern] of the parser. *)
Definition _extract_year (date_str : option str) : option Z :=
  match date_str with
  | Some s =>
      if truthy s then
        match search false year_pattern s with
        | Some m => Some (int_of_digits (group0 s m))
        | None => None
        end
      else None
  | None => None
  end.

(** A Python number. The years of an entry are an [int] (a difference of
    two years) or the [float] 1.0, and [sum] and [/] treat the two kinds
    differently. *)
Inductive pynum : Type :=
| PyInt (z : Z)
| PyFloat (q : Q).

Definition num_value (x : pynum) : Q :=
  match x with
  | PyInt z => inject_Z z
  | PyFloat q => q
  end.

(** [x + y]: an [int] when both are, a [float] otherwise. *)
Definition num_add (x y : pynum) : pynum :=
  match x, y with
  | PyInt a, PyInt b => PyInt (a + b)
  | _, _ => PyFloat (num_value x + num_value y)
  end.

(** [int(s)] for a string of decimal digits. From Python 3.11 on (and in the
    security releases of 3.7 to 3.10) a string of more than 640 digits is
    refused with a ValueError when it is longer than
    [sys.get_int_max_str_digits()], 4300 unless configured; leading zeros
    count, and the value 0 switches the limit off. [None] stands for the
    error. *)
Definition int_of_str (max_str_digits : nat) (s : str) : option Z :=
  if (640 <? length s) && (0 <? max_str_digits) && (max_str_digits <? length s)
  then None
  else Some (int_of_digits s).

(** The conversion of an [int] to a [float] raises OverflowError from
    [2**1024 - 2**970] on, the first integer that rounds to [2**1024]. *)
Definition too_large_for_float (n : Z) : bool :=
  (2 ^ 1024 - 2 ^ 970 <=? n)%Z.

(** [x / n] for an [int] [n] above 0. A [float] is divided by [float(n)],
    and the conversion can raise; an [int] is divided exactly, and the
    quotient of a sum of differences of years is far inside the range of a
    [float]. [None] stands for the error. *)
Definition num_div_int (x : pynum) (n : Z) : option Q :=
  match x with
  | PyFloat q => if too_large_for_float n then None else Some (q / inject_Z n)%Q
  | PyInt z => Some (inject_Z z / inject_Z n)%Q
  end.

Definition _calculate_years_from_exp (now : Z) (e : exp_entry) : pynum :=
  let start_year := _extract_year (start_date e) in
  let end_year :=
    match end_date e with
    | Some s => if str_eqb s "Present" then Some now else _extract_year (Some s)
    | None => _extract_year None
    end in
  match start_year, end_year with
  | Some sy, Some ey =>
      if negb (Z.eqb sy 0) && negb (Z.eqb ey 0)
      then PyInt (Z.max 0 (ey - sy))
      else PyFloat 1
  | _, _ => PyFloat 1
  end.

(** [(\d+)\+?\s*years?\s*(?:of\s* )?experience] *)
Definition years_pattern : re :=
  seqs [ Grp 1 (plus d); opt (chr "+"); star sp; word "year"; opt (chr "s");
         star sp; opt (Seq (word "of") (star sp)); word "experience" ].

Definition relevant_keywords_exp : list str :=
  ["engineer" : str; "developer" : str; "manager" : str; "analyst" : str;
   "designer" : str].

(** [[exp for exp in experience if any(kw in exp.get("title", "").lower() ...)]]:
    [None] when a title is [None], on which [.lower()] raises. *)
Fixpoint relevant_experience (experience : list exp_entry)
  : option (list exp_entry) :=
  match experience with
  | [] => Some []
  | e :: rest =>
      match title e with
      | None => None
      | Some t =>
          match relevant_experience rest with
          | None => None
          | Some r =>
              if existsb (fun kw => contains kw (lower t)) relevant_keywords_exp
              then Some (e :: r) else Some r
          end
      end
  end.

(** [sum(self._calculate_years_from_exp(exp) for exp in experience)] *)
Definition sum_years (now : Z) (experience : list exp_entry) : pynum :=
  fold_left (fun acc e => num_add acc (_calculate_years_from_exp now e))
    experience (PyInt 0).

(** [int(years_match.group(1)) if years_match else 0]; [None] stands for
    the error that [int] raises (on a group that is [None] too, which no
    match of this pattern has). *)
Definition required_years_of (max_str_digits : nat) (job_desc : str) : option Z :=
  match search false years_pattern job_desc with
  | Some m =>
      match group job_desc m 1 with
      | Some g => int_of_str max_str_digits g
      | None => None
      end
  | None => Some 0%Z
  end.

(** [None] when the computation raises: in [int] on the number of years, in
    the division by it, or in [.lower()] on a title that is [None]. *)
Definition _match_experience (now : Z) (max_str_digits : nat)
    (experience : list exp_entry) (job_desc : str) : option exp_detail :=
  if negb (nonempty experience)
  then Some {| ex_score := 0; total_years := None; required_years := None;
               matched_positions := 0; total_positions := 0 |}
  else
    match required_years_of max_str_digits job_desc with
    | None => None
    | Some required =>
        let total := sum_years now experience in
        let score :=
          if Z.eqb required 0 then Some (8 # 10)%Q
          else
            match num_div_int total required with
            | Some x => Some (Qmin x 1)
            | None => None
            end in
        match score with
        | None => None
        | Some score =>
            match relevant_experience experience with
            | None => None
            | Some relevant =>
                let relevance_score :=
                  len_ratio (length relevant) (length experience) in
                let final_score :=
                  (score * (6 # 10) + relevance_score * (4 # 10))%Q in
                Some {| ex_score := py_round final_score 2;
                        total_years := Some (py_round (num_value total) 1);
                        required_years := Some required;
                        matched_positions := length relevant;
                        total_positions := length experience |}
            end
        end
    end.

(** *** [_match_education] *)

Definition degree_keywords : list str :=
  ["bachelor" : str; "master" : str; "phd" : str; "doctorate" : str;
   "degree" : str].

(** [any(required_degree in edu.get("degree", "").lower() for edu in education)]:
    [None] when a degree that is [None] is reached before a matching one. *)
Fixpoint any_degree (required : str) (education : list edu_entry) : option bool :=
  match education with
  | [] => Some false
  | e :: rest =>
      match degree e with
      | None => None
      | Some dg =>
          if contains required (lower dg) then Some true
          else any_degree required rest
      end
  end.

Definition _match_education (education : list edu_entry) (job_desc : str)
  : option edu_detail :=
  if negb (nonempty education)
  then Some {| ed_score := 0; required_degree := None; matched_degrees := 0;
               has_required := None |}
  else
    match List.find (fun keyword => contains keyword job_desc) degree_keywords with
    | None =>
        Some {| ed_score := 8 # 10; required_degree := None;
                matched_degrees := length education; has_required := None |}
    | Some required =>
        match any_degree required education with
        | None => None
        | Some matched =>
            Some {| ed_score := if matched then 1 else 3 # 10;
                    required_degree := Some required;
                    matched_degrees := length education;
                    has_required := Some matched |}
        end
    end.

(** *** [_match_titles] *)

Definition title_keywords : list str :=
  ["engineer" : str; "developer" : str; "manager" : str; "analyst" : str;
   "designer" : str; "architect" : str].

Definition _match_titles (job_titles : list str) (job_desc : str) : title_detail :=
  if negb (nonempty job_titles)
  then {| ti_score := 0; matched_titles := []; relevant_keywords := None |}
  else
    let desc_title_keywords :=
      List.filter (fun kw => contains kw job_desc) title_keywords in
    let matched :=
      List.filter (fun t => existsb (fun kw => contains kw t) desc_title_keywords)
        job_titles in
    {| ti_score := py_round (len_ratio (length matched) (length job_titles)) 2;
       matched_titles := matched;
       relevant_keywords := Some desc_title_keywords |}.

(** *** [_semantic_match] and [_generate_match_summary] *)

(** The text built from the summary, the skills and the titles; [None] when
    joining the titles raises on a [None]. *)
Definition resume_text (resume_data : fields) : option str :=
  match mapM title (experience resume_data) with
  | Some titles =>
      Some ((match summary resume_data with Some s => s | None => "None" : str end)
            ++ (" " : str) ++ join " " (skills resume_data)
            ++ (" " : str) ++ join " " titles)
  | None => None
  end.

Definition _semantic_match (model : str -> str -> option Q)
    (resume_data : fields) (job_desc : str) : Q :=
  match resume_text resume_data with
  | Some t => match model t job_desc with Some x => x | None => 0%Q end
  | None => 0%Q
  end.

Definition _generate_match_summary (overall : Q) : str :=
  if Qle_bool (8 # 10) overall
  then "Excellent match - Strong candidate for this position"
  else if Qle_bool (6 # 10) overall
  then "Good match - Candidate meets most requirements"
  else if Qle_bool (4 # 10) overall
  then "Moderate match - Some gaps in requirements"
  else "Weak match - Significant gaps in requirements".

(** *** [calculate_relevancy_score] *)

Definition initial_scores : scores :=
  {| overall_score := 0; skill_match := 0; experience_match := 0;
     education_match := 0; title_match := 0; detailed_scores := ∅;
     semantic_score := None; match_summary := None |}.

(** [base * 0.40 + ...] *)
Definition weighted (s e d t : Q) : Q :=
  (s * (40 # 100) + e * (30 # 100) + d * (15 # 100) + t * (15 # 100))%Q.

(** The body of the [try]: each [match ... with None => scores so far] is the
    [except] clause reached from that point, which returns [scores] as the
    statements before it left it. *)
Definition calculate_relevancy_score (now : Z) (max_str_digits : nat)
    (model : embedding) (resume_data : fields) (job_description : str) : scores :=
  let scores0 := initial_scores in
  let skills := map lower (skills resume_data) in
  let experience := experience resume_data in
  let education := education resume_data in
  let job_titles :=
    omap (fun e => match title e with
                   | Some t => if truthy t then Some (lower t) else None
                   | None => None
                   end) experience in
  let job_desc_lower := lower job_description in
  let skill_matches := _match_skills skills job_desc_lower in
  let scores1 :=
    {| overall_score := overall_score scores0;
       skill_match := sk_score skill_matches;
       experience_match := experience_match scores0;
       education_match := education_match scores0;
       title_match := title_match scores0;
       detailed_scores := <["skill_match"%string := DSkill skill_matches]> (detailed_scores scores0);
       semantic_score := None; match_summary := None |} in
  match _match_experience now max_str_digits experience job_desc_lower with
  | None => scores1
  | Some exp_matches =>
      let scores2 :=
        {| overall_score := overall_score scores1;
           skill_match := skill_match scores1;
           experience_match := ex_score exp_matches;
           education_match := education_match scores1;
           title_match := title_match scores1;
           detailed_scores := <["experience_match"%string := DExp exp_matches]> (detailed_scores scores1);
           semantic_score := None; match_summary := None |} in
      match _match_education education job_desc_lower with
      | None => scores2
      | Some edu_matches =>
          let title_matches := _match_titles job_titles job_desc_lower in
          let details :=
            <["title_match"%string := DTitle title_matches]>
              (<["education_match"%string := DEdu edu_matches]> (detailed_scores scores2)) in
          let base :=
            weighted (skill_match scores2) (experience_match scores2)
              (ed_score edu_matches) (ti_score title_matches) in
          let '(overall, semantic) :=
            match model with
            | Some f =>
                let semantic_score := _semantic_match f resume_data job_description in
                ((base * (7 # 10) + semantic_score * (3 # 10))%Q, Some semantic_score)
            | None => (base, None)
            end in
          {| overall_score := overall;
             skill_match := skill_match scores2;
             experience_match := experience_match scores2;
             education_match := ed_score edu_matches;
             title_match := ti_score title_matches;
             detailed_scores := details;
             semantic_score := semantic;
             match_summary := Some (_generate_match_summary overall) |}
      end
  end.

End MatchingService.

(** ** What a match of a pattern looks like *)

Module ReSpec.

(** [Matches ic r w]: the text [w] is in the language of the pattern [r], the
    anchors [^], [$] and [\b] being taken as the empty pattern. Every span
    that the matcher returns holds such a text ([rmatch_sound] below). *)
Inductive Matches (ic : bool) : re -> str -> Prop :=
| M_Eps : Matches ic Eps []
| M_Cls (p : ascii -> bool) (c : ascii) :
    accepts ic p c = true -> Matches ic (Cls p) [c]
| M_Seq (a b : re) (w1 w2 : str) :
    Matches ic a w1 -> Matches ic b w2 -> Matches ic (Seq a b) (w1 ++ w2)
| M_AltL (a b : re) (w : str) : Matches ic a w -> Matches ic (Alt a b) w
| M_AltR (a b : re) (w : str) : Matches ic b w -> Matches ic (Alt a b) w
| M_RepStop (a : re) (hi : option nat) : Matches ic (Rep a 0 hi) []
| M_RepMore (a : re) (lo : nat) (hi : option nat) (w1 w2 : str) :
    under 0 hi = true ->
    Matches ic a w1 ->
    Matches ic (Rep a (pred lo) (pred <$> hi)) w2 ->
    Matches ic (Rep a lo hi) (w1 ++ w2)
| M_Bol : Matches ic Bol []
| M_Eol : Matches ic Eol []
| M_Wb : Matches ic Wb []
| M_Grp (n : nat) (a : re) (w : str) : Matches ic a w -> Matches ic (Grp n a) w.

(** The 256 characters. *)
Definition all_ascii : list ascii := map ascii_of_nat (seq 0 256).

(** Every character that the class accepts satisfies [P]. *)
Definition class_within (ic : bool) (P p : ascii -> bool) : bool :=
  forallb (fun c => implb (accepts ic p c) (P c)) all_ascii.

(** A lower bound on the number of characters of a match that satisfy [P]. *)
Fixpoint min_count (ic : bool) (P : ascii -> bool) (r : re) : nat :=
  match r with
  | Cls p => if class_within ic P p then 1 else 0
  | Seq a b => min_count ic P a + min_count ic P b
  | Alt a b => Nat.min (min_count ic P a) (min_count ic P b)
  | Rep a lo _ => lo * min_count ic P a
  | Grp _ a => min_count ic P a
  | Eps | Bol | Eol | Wb => 0
  end.

(** Every character of a match satisfies [P]. *)
Fixpoint all_within (ic : bool) (P : ascii -> bool) (r : re) : bool :=
  match r with
  | Cls p => class_within ic P p
  | Seq a b | Alt a b => all_within ic P a && all_within ic P b
  | Rep a _ _ | Grp _ a => all_within ic P a
  | Eps | Bol | Eol | Wb => true
  end.

(** An upper bound on the length of a match, when there is one. *)
Fixpoint max_len (r : re) : option nat :=
  match r with
  | Cls _ => Some 1
  | Seq a b =>
      match max_len a, max_len b with
      | Some x, Some y => Some (x + y)
      | _, _ => None
      end
  | Alt a b =>
      match max_len a, max_len b with
      | Some x, Some y => Some (Nat.max x y)
      | _, _ => None
      end
  | Rep a _ (Some h) =>
      match max_len a with
      | Some x => Some (h * x)
      | None => None
      end
  | Rep _ _ None => None
  | Grp _ a => max_len a
  | Eps | Bol | Eol | Wb => Some 0
  end.

(** What a successful run of the matcher says: the continuation was entered
    at a state reached by consuming a text of the pattern's language. *)
Definition run_sound (ic : bool) (r : re) : Prop :=
  forall st k x, rmatch ic r st k = Some x ->
  exists w st', Matches ic r w /\ rest st = w ++ rest st'
                /\ pos st' = pos st + length w /\ k st' = Some x.

Definition hi_minus (hi : option nat) (n : nat) : option nat :=
  (fun h => h - n) <$> hi.

(** The result of a run depends on the continuation only through its
    values. *)
Definition cont_ext (ma : mstate -> (mstate -> option mstate) -> option mstate)
  : Prop :=
  forall st k1 k2, (forall s, k1 s = k2 s) -> ma st k1 = ma st k2.

Definition count (P : ascii -> bool) (w : str) : nat := length (List.filter P w).

Definition non_space (c : ascii) : bool := negb (is_space c).

(** The character next to a piece of text, if any, is a digit. *)
Definition digit_opt (o : option ascii) : bool :=
  match o with Some c => is_digit c | None => false end.

End ReSpec.

Export ReSpec.

(** ** A keyword occurring as a whole word *)

Module SectionSpec.

(** The character before position [i] of the text, if any. *)
Definition char_before (text : list ascii) (i : nat) : option ascii :=
  match i with
  | O => None
  | S j => text !! j
  end.

(** Position [i] lies between a word character and a character that is not
    one (or an end of the text). *)
Definition word_boundary_at (text : list ascii) (i : nat) : bool :=
  xorb (is_word_opt (char_before text i)) (is_word_opt (text !! i)).

(** The keyword, ignoring case, fills [text[i : i + len(keyword)]], with a word
    boundary at both ends. *)
Definition whole_word_at (keyword text : str) (i : nat) : bool :=
  str_eqb (lower (slice text i (i + length keyword))) (lower keyword)
  && word_boundary_at text i
  && word_boundary_at text (i + length keyword).

Definition occurs_whole_word (keyword text : str) : Prop :=
  exists i, whole_word_at keyword text i = true.

(** The run of the matcher over a literal pattern. *)
Fixpoint lits_run (ic : bool) (kw : str) (st : mstate) : option mstate :=
  match kw with
  | [] => Some st
  | c :: kw' =>
      match rest st with
      | x :: t =>
          if accepts ic (Ascii.eqb c) x then lits_run ic kw' (advance x t st)
          else None
      | [] => None
      end
  end.

(** [kw], ignoring case, is a prefix of [s]. *)
Fixpoint ci_prefix (kw s : str) : bool :=
  match kw, s with
  | [], _ => true
  | c :: kw', x :: s' => Ascii.eqb (to_lower c) (to_lower x) && ci_prefix kw' s'
  | _ :: _, [] => false
  end.

(** The last character of [w], or [pv] when [w] is empty. *)
Definition last_or (pv : option ascii) (w : str) : option ascii :=
  match last w with
  | Some c => Some c
  | None => pv
  end.

(** The test that the pattern [\bkeyword\b] performs at one position: [pv] is
    the character before it and [s] the text from it on. *)
Definition head_test (kw : str) (pv : option ascii) (s : str) : bool :=
  xorb (is_word_opt pv) (is_word_opt (head s))
  && ci_prefix kw s
  && xorb (is_word_opt (last_or pv (take (length kw) s)))
          (is_word_opt (head (drop (length kw) s))).

(** The state of the matcher over the lower-cased subject. *)
Definition lower_st (st : mstate) : mstate :=
  MState (to_lower <$> prev st) (lower (rest st)) (pos st) (caps st).

(** The outcome of a run over the lower-cased subject, against the outcome
    over the subject itself. *)
Definition lower_res (o1 o2 : option mstate) : Prop := o1 = lower_st <$> o2.

(** The text holds ASCII characters only. On such a text [str.lower] keeps
    every index, and [\b] and the case folding of the pattern are the ASCII
    ones. *)
Definition ascii_text (s : str) : bool := forallb (fun c => code c <? 128) s.

End SectionSpec.

Export SectionSpec.

(** ** Concrete inputs used by the examples below *)

Module Examples.

(** No NER back end; [list(set(l))] keeps the order of first occurrence. *)
Definition plain_env : Env :=
  {| spacy_nlp := None; transformer_ner := None; set_order := dedup_str;
     now_year := 2026 |}.

Definition lines_of (l : list string) : str := join [nl] (map lit l).

Definition empty_personal : personal :=
  {| full_name := None; email := None; phone := None; location := None;
     linkedin := None; github := None |}.

Definition empty_fields : fields :=
  {| personal_info := empty_personal; experience := []; education := [];
     skills := []; summary := None; certifications := []; languages := [] |}.

(** An experience entry as the parser builds it, with the given title. *)
Definition entry_titled (t : option str) : exp_entry :=
  {| title := t; company := None; start_date := None; end_date := None;
     description := []; achievements := []; technologies := [] |}.

Definition entry_degree (dg : option str) : edu_entry :=
  {| degree := dg; institution := None; year := None; field := None;
     gpa := None; honors := [] |}.

(** A stored profile whose only experience entry has [title: null]. *)
Definition profile_null_title : fields :=
  {| personal_info := empty_personal;
     experience := [entry_titled None];
     education := [entry_degree (Some ("Bachelor of Science" : str))];
     skills := ["Python" : str];
     summary := None; certifications := []; languages := [] |}.

(** A profile as the parser builds it. *)
Definition profile_engineer : fields :=
  {| personal_info := empty_personal;
     experience := [entry_titled (Some ("Software Engineer" : str))];
     education := [entry_degree (Some ("Bachelor of Science" : str))];
     skills := ["Python" : str];
     summary := None; certifications := []; languages := [] |}.

Definition job_python_bachelor : str :=
  "Python engineer, bachelor degree required".

Definition job_plumber : str := "We need a plumber".

(** A job text that asks for a number of years of 401 digits. *)
Definition job_many_years : str :=
  lit "Python engineer, 1" ++ repeat "0"%char 400 ++ lit " years experience".

(** A profile in which only the LinkedIn handle was recovered. *)
Definition profile_only_linkedin : fields :=
  {| personal_info :=
       {| full_name := None; email := None; phone := None; location := None;
          linkedin := Some ("linkedin.com/in/jdoe" : str); github := None |};
     experience := []; education := []; skills := []; summary := None;
     certifications := []; languages := [] |}.

Definition text_only_linkedin : str := "linkedin.com/in/jdoe".

(** A text with a bare ten-digit number. *)
Definition text_bare_phone : str := "call 5551234567 now".

(** A section of 2001 characters (a space and 2000 letters) closed by a
    numbered line. *)
Definition text_long_section : str :=
  lit "skills " ++ repeat "a"%char 2000 ++ [nl] ++ lit "1.".

(** A skills line with the same word in two casings. *)
Definition text_case_variants : str := "Leadership, LEADERSHIP, Teamwork".

(** [list(set(l))] enumerating in the reverse order of first occurrence. *)
Definition reversing_env : Env :=
  {| spacy_nlp := None; transformer_ner := None;
     set_order := fun l => rev (dedup_str l); now_year := 2026 |}.

(** The text of the end-to-end scenario. *)
Definition text_scenario : str :=
  lines_of ["John Doe"; "john@x.com"; "555-123-4567"; "EXPERIENCE";
            "Senior Software Engineer at Acme Inc"; "Jan 2020 - Present";
            "SKILLS"; "Python, SQL, Docker"]%string.

End Examples.

(** ** Shapes of the extracted entries *)

Module Shapes.

(** An experience entry with a title of 6 to 99 characters, no empty company
    or end date, and nothing under [achievements] and [technologies]. *)
Definition exp_entry_ok (e : exp_entry) : Prop :=
  (exists t, title e = Some t /\ 5 < length t /\ length t < 100)
  /\ company e <> Some []
  /\ end_date e <> Some []
  /\ achievements e = []
  /\ technologies e = [].

(** A string of four digits that starts with 19 or 20. *)
Definition year_string (y : str) : Prop :=
  length y = 4 /\ forallb is_digit y = true
  /\ (startswith "19" y = true \/ startswith "20" y = true).

(** An education entry with a degree of 2 to 100 characters, a four-digit
    year if any, and nothing under [field] and [honors]. *)
Definition edu_entry_ok (e : edu_entry) : Prop :=
  (exists dg, degree e = Some dg /\ 2 <= length dg /\ length dg <= 100)
  /\ (forall y, year e = Some y -> year_string y)
  /\ field e = None
  /\ honors e = [].

(** A skill of the vocabulary, or a token of 3 to 50 characters that starts
    with an upper-case letter. *)
Definition skill_ok (s : str) : Prop :=
  s ∈ EnhancedParser.common_skills
  \/ (3 <= length s <= 50 /\ exists c s', s = c :: s' /\ is_upper c = true).

(** A text of at least nine letters and white-space characters that starts,
    ignoring case, with one of the three words of [cert_pattern]. *)
Definition cert_ok (c : str) : Prop :=
  9 <= length c
  /\ forallb (cor is_alpha is_space) c = true
  /\ (exists kw, In kw ["certified" : str; "certification" : str; "license" : str]
                 /\ startswith kw (lower c) = true).

(** The lines that [_preprocess_text] keeps: the non-empty lines of the
    text, stripped and with their runs of blanks replaced by one space, those
    that are empty after that being dropped. *)
Definition cleaned_lines (text : str) : list str :=
  filter (fun l => truthy l)
    (map clean_line (filter (fun l => truthy l) (split_on nl text))).

Definition not_nl (c : ascii) : bool := negb (Ascii.eqb c nl).

(** The weighted points of [raw_score], as an integer. *)
Definition raw_points (pd : fields) : Z :=
  let info := personal_info pd in
  ((if some_truthy (full_name info) then 10 else 0)
   + (if some_truthy (email info) then 10 else 0)
   + (if some_truthy (phone info) then 10 else 0)
   + (if nonempty (experience pd)
      then Z.min 30 (sum_points exp_points (experience pd)) else 0)
   + (if nonempty (education pd)
      then Z.min 20 (sum_points edu_points (education pd)) else 0)
   + (if nonempty (skills pd) then skill_points (length (skills pd)) else 0)
   + (match summary pd with
      | Some s => if (50 <? length s)%nat then 5 else 0
      | None => 0
      end)
   + (if nonempty (languages pd)
      then Z.min 5 (Z.of_nat (length (languages pd)) * 2) else 0)
   + (if nonempty (certifications pd)
      then Z.min 5 (Z.of_nat (length (certifications pd)) * 2) else 0))%Z.

(** The profile holds nothing but, possibly, a location and the LinkedIn and
    GitHub handles. *)
Definition nothing_scored (pd : fields) : Prop :=
  some_truthy (full_name (personal_info pd)) = false
  /\ some_truthy (email (personal_info pd)) = false
  /\ some_truthy (phone (personal_info pd)) = false
  /\ experience pd = [] /\ education pd = [] /\ skills pd = []
  /\ some_truthy (summary pd) = false
  /\ languages pd = [] /\ certifications pd = [].

(** The three classes of [email_pattern]. *)
Definition email_local_char : ascii -> bool := cor alnum (one_of "._%+-").
Definition email_domain_char : ascii -> bool := cor alnum (one_of ".-").
Definition email_tld_char : ascii -> bool := cor is_alpha (one_of "|").

(** [local@domain.tld], each part over its class, the last of two characters
    or more. *)
Definition email_shape (e : str) : Prop :=
  exists local domain tld : str,
    e = local ++ ("@"%char :: domain) ++ ("."%char :: tld)
    /\ local <> [] /\ forallb email_local_char local = true
    /\ domain <> [] /\ forallb email_domain_char domain = true
    /\ 2 <= length tld /\ forallb email_tld_char tld = true.

End Shapes.

Export Shapes.

(** ** [ClassificationService] *)

Module ClassificationService.

(** [\b(19|20)\d{2}\b] is [year_pattern] of the parser. *)
Definition _extract_year (date_str : option str) : option Z :=
  match date_str with
  | Some s =>
      if truthy s then
        match search false year_pattern s with
        | Some m => Some (int_of_digits (group0 s m))
        | None => None
        end
      else None
  | None => None
  end.

(** One turn of the loop of [calculate_implied_experience]. *)
Definition implied_step (now : Z) (total_years : Q) (e : exp_entry) : Q :=
  let start_year := _extract_year (start_date e) in
  let end_year :=
    match end_date e with
    | Some s => if str_eqb s "Present" then Some now else _extract_year (Some s)
    | None => _extract_year None
    end in
  match start_year, end_year with
  | Some sy, Some ey =>
      if negb (Z.eqb sy 0) && negb (Z.eqb ey 0)
      then
        let years := (ey - sy)%Z in
        if (0 <? years)%Z then (total_years + inject_Z years)%Q else total_years
      else total_years
  | _, _ => total_years
  end.

Definition calculate_implied_experience (now : Z) (experience_items : list exp_entry)
  : Q :=
  py_round (fold_left (implied_step now) experience_items 0%Q) 1.

(** [ResumeService._calculate_total_years] *)
Definition _calculate_total_years (now : Z) (experience : list exp_entry) : Q :=
  if negb (nonempty experience) then 0%Q
  else calculate_implied_experience now experience.

(** *** [score_skill_relevance] *)

Record scored_skill : Type := ScoredSkill {
  skill : str;
  relevance_score : Q;
  is_core : bool
}.

(** [role_skills.get(job_role, [])] *)
Definition role_skills (job_role : str) : list str :=
  if str_eqb job_role "software_engineer"
  then ["python" : str; "java" : str; "javascript" : str; "react" : str;
        "node" : str; "sql" : str; "git" : str]
  else if str_eqb job_role "data_scientist"
  then ["python" : str; "r" : str; "sql" : str; "machine learning" : str;
        "pandas" : str; "numpy" : str; "tensorflow" : str]
  else if str_eqb job_role "devops"
  then ["docker" : str; "kubernetes" : str; "aws" : str; "ci/cd" : str;
        "linux" : str; "terraform" : str]
  else if str_eqb job_role "product_manager"
  then ["agile" : str; "scrum" : str; "product management" : str;
        "stakeholder" : str]
  else [].

Definition score_one (priority_skills : list str) (s : str) : scored_skill :=
  let skill_lower := lower s in
  let relevance :=
    if existsb (fun priority => contains priority skill_lower) priority_skills
    then 1%Q else (1 # 2)%Q in
  {| skill := s; relevance_score := relevance;
     is_core := Qle_bool (8 # 10) relevance |}.

(** [sorted(scored_skills, key=lambda x: x['relevance_score'], reverse=True)] *)
Definition score_skill_relevance (skills : list str) (job_role : str)
  : list scored_skill :=
  let priority_skills := role_skills job_role in
  sort_desc (fun x => (relevance_score x, false))
    (map (score_one priority_skills) skills).

(** *** [assess_seniority_level] *)

(** The dictionary [SENIORITY_KEYWORDS], in the order of its keys. *)
Definition SENIORITY_KEYWORDS : list (str * list str) :=
  [ ("entry" : str,
     ["intern" : str; "junior" : str; "entry" : str; "associate" : str;
      "trainee" : str; "graduate" : str]);
    ("mid" : str,
     ["mid-level" : str; "professional" : str; "specialist" : str;
      "analyst" : str]);
    ("senior" : str,
     ["senior" : str; "sr." : str; "lead" : str; "principal" : str;
      "staff" : str]);
    ("executive" : str,
     ["director" : str; "vp" : str; "vice president" : str; "cto" : str;
      "ceo" : str; "cfo" : str; "chief" : str; "head of" : str]) ].

(** [sum(1 for keyword in keywords if keyword in all_text)] *)
Definition keyword_score (all_text : str) (keywords : list str) : Z :=
  Z.of_nat (length (List.filter (fun keyword => contains keyword all_text) keywords)).

(** The dictionary built by the loop: the levels with a positive score, in
    the order of the table. *)
Definition keyword_scores (table : list (str * list str)) (all_text : str)
  : list (str * Z) :=
  omap (fun entry =>
          let score := keyword_score all_text (snd entry) in
          if (0 <? score)%Z then Some (fst entry, score) else None) table.

(** [d.get(k, 0)] *)
Definition dict_get (d : list (str * Z)) (k : str) : Z :=
  match List.find (fun e => str_eqb (fst e) k) d with
  | Some e => snd e
  | None => 0%Z
  end.

(** [d[k] = d.get(k, 0) + n]: an existing key keeps its place, a new key
    goes last. *)
Fixpoint dict_add (d : list (str * Z)) (k : str) (n : Z) : list (str * Z) :=
  match d with
  | [] => [(k, n)]
  | e :: d' =>
      if str_eqb (fst e) k then (fst e, (snd e + n)%Z) :: d'
      else e :: dict_add d' k n
  end.

(** [max(d.items(), key=lambda x: x[1])]: the first item with the greatest
    value. *)
Fixpoint max_item (best : str * Z) (d : list (str * Z)) : str * Z :=
  match d with
  | [] => best
  | e :: d' => max_item (if (snd best <? snd e)%Z then e else best) d'
  end.

Record seniority : Type := Seniority {
  level : str;
  confidence : Q;
  breakdown : list (str * Z)
}.

Definition assess_seniority_level (job_titles : list str)
    (experience_years : option Q) : seniority :=
  let all_text := lower (join " " job_titles) in
  let seniority_scores := keyword_scores SENIORITY_KEYWORDS all_text in
  let seniority_scores :=
    match experience_years with
    | Some years =>
        if negb (Qle_bool 2 years) then dict_add seniority_scores "entry" 2
        else if negb (Qle_bool 5 years) then dict_add seniority_scores "mid" 2
        else if negb (Qle_bool 10 years) then dict_add seniority_scores "senior" 2
        else dict_add seniority_scores "executive" 1
    | None => seniority_scores
    end in
  let primary_level :=
    match seniority_scores with
    | e :: d => fst (max_item e d)
    | [] => "mid" : str
    end in
  {| level := primary_level;
     confidence :=
       (inject_Z (dict_get seniority_scores primary_level)
        / inject_Z (Z.of_nat (Nat.max (length job_titles) 1)))%Q;
     breakdown := seniority_scores |}.

(** *** [classify_job_role] *)

(** The dictionary [JOB_ROLES], in the order of its keys. *)
Definition JOB_ROLES : list (str * list str) :=
  [ ("software_engineer" : str,
     ["software engineer" : str; "developer" : str; "programmer" : str;
      "coder" : str; "dev" : str]);
    ("data_scientist" : str,
     ["data scientist" : str; "data analyst" : str; "data engineer" : str;
      "ml engineer" : str]);
    ("product_manager" : str,
     ["product manager" : str; "pm" : str; "product owner" : str]);
    ("devops" : str,
     ["devops" : str; "sre" : str; "site reliability" : str;
      "infrastructure engineer" : str]);
    ("qa" : str,
     ["qa engineer" : str; "test engineer" : str; "quality assurance" : str;
      "sdet" : str]);
    ("designer" : str,
     ["designer" : str; "ui/ux" : str; "graphic designer" : str;
      "product designer" : str]);
    ("manager" : str,
     ["manager" : str; "lead" : str; "director" : str; "head of" : str;
      "vp" : str; "cto" : str; "ceo" : str]);
    ("analyst" : str,
     ["business analyst" : str; "systems analyst" : str;
      "financial analyst" : str]);
    ("consultant" : str,
     ["consultant" : str; "advisor" : str; "architect" : str]);
    ("other" : str, []) ].

Record job_role : Type := JobRole {
  primary_role : str;
  role_confidence : Q;
  possible_roles : list str;
  role_scores : list (str * Z)
}.

(** The text in which [classify_job_role] looks for the keywords: the titles
    and, when there are any, the descriptions that are not empty. *)
Definition role_text (job_titles : list str) (descriptions : option (list str))
  : str :=
  let all_text := lower (join " " job_titles) in
  match descriptions with
  | Some ds =>
      if nonempty ds
      then all_text ++ (" " : str) ++ join " " (map lower (List.filter truthy ds))
      else all_text
  | None => all_text
  end.

Definition classify_job_role (job_titles : list str)
    (descriptions : option (list str)) : job_role :=
  let all_text := role_text job_titles descriptions in
  let scores := keyword_scores JOB_ROLES all_text in
  let primary :=
    match scores with
    | e :: d => fst (max_item e d)
    | [] => "other" : str
    end in
  {| primary_role := primary;
     role_confidence :=
       (inject_Z (dict_get scores primary)
        / inject_Z (Z.of_nat (Nat.max (length job_titles) 1)))%Q;
     possible_roles := map fst scores;
     role_scores := scores |}.

(** *** [standardize_skill] *)

(** [s.title()] on ASCII: a letter that follows a letter goes to lower case,
    every other letter to upper case. *)
Fixpoint title_from (previous_is_cased : bool) (s : str) : str :=
  match s with
  | [] => []
  | c :: s' =>
      (if previous_is_cased then to_lower c else to_upper c)
        :: title_from (is_alpha c) s'
  end.

Definition title_case (s : str) : str := title_from false s.

Definition skill_map : list (str * str) :=
  [ ("js" : str, "JavaScript" : str);
    ("ts" : str, "TypeScript" : str);
    ("py" : str, "Python" : str);
    ("ml" : str, "Machine Learning" : str);
    ("dl" : str, "Deep Learning" : str);
    ("ai" : str, "Artificial Intelligence" : str);
    ("db" : str, "Database" : str);
    ("ui" : str, "UI/UX" : str);
    ("ux" : str, "UI/UX" : str);
    ("api" : str, "REST API" : str);
    ("aws" : str, "Amazon Web Services" : str);
    ("gcp" : str, "Google Cloud Platform" : str);
    ("azure" : str, "Microsoft Azure" : str) ].

Definition standardize_skill (skill : str) : str :=
  let skill_lower := strip (lower skill) in
  match List.find (fun e => str_eqb (fst e) skill_lower) skill_map with
  | Some e => snd e
  | None => title_case skill
  end.

End ClassificationService.

(** ** [AnonymizationService] *)

Module AnonymizationService.

(** The result of [anonymize_resume_data]; [removed_pii] is the dictionary
    stored under [removed_pii["personal"]]. *)
Record anonymized : Type := Anonymized {
  anonymized_data : profile;
  removed_pii : gmap string str;
  anonymization_applied : bool
}.

(** [if personal.get(key): removed[name] = personal[key]; personal[key] = mark] *)
Definition redact (name : string) (mark : str) (value : option str)
    (removed : gmap string str) : option str * gmap string str :=
  match value with
  | Some v => if truthy v then (Some mark, <[name := v]> removed)
              else (value, removed)
  | None => (value, removed)
  end.

Definition anonymize_resume_data (resume_data : profile) : anonymized :=
  let personal := personal_info (data resume_data) in
  let removed := (∅ : gmap string str) in
  let '(full_name', removed) := redact "name" "[NAME]" (full_name personal) removed in
  let '(email', removed) := redact "email" "[EMAIL]" (email personal) removed in
  let '(phone', removed) := redact "phone" "[PHONE]" (phone personal) removed in
  let '(location', removed) :=
    redact "location" "[LOCATION]" (location personal) removed in
  let '(linkedin', removed) :=
    redact "linkedin" "[PROFILE]" (linkedin personal) removed in
  let '(github', removed) := redact "github" "[PROFILE]" (github personal) removed in
  {| anonymized_data :=
       {| data :=
            {| personal_info :=
                 {| full_name := full_name'; email := email'; phone := phone';
                    location := location'; linkedin := linkedin';
                    github := github' |};
               experience := experience (data resume_data);
               education := education (data resume_data);
               skills := skills (data resume_data);
               summary := summary (data resume_data);
               certifications := certifications (data resume_data);
               languages := languages (data resume_data) |};
          confidence_score := confidence_score resume_data |};
     removed_pii := removed;
     anonymization_applied := true |}.

End AnonymizationService.

(** ** [ResponseFormatter] *)

Module ResponseFormatter.

(** *** [_format_skills] *)

Definition lang_keywords : list str :=
  ["python" : str; "java" : str; "javascript" : str; "typescript" : str;
   "go" : str; "rust" : str; "c++" : str; "c#" : str; "ruby" : str; "php" : str;
   "swift" : str; "kotlin" : str; "scala" : str; "r" : str].

Definition framework_keywords : list str :=
  ["django" : str; "flask" : str; "react" : str; "angular" : str; "vue" : str;
   "node" : str; "express" : str; "spring" : str; "laravel" : str; "rails" : str;
   "fastapi" : str; "next" : str].

Definition tool_keywords : list str :=
  ["docker" : str; "kubernetes" : str; "aws" : str; "gcp" : str; "azure" : str;
   "jenkins" : str; "git" : str; "postgresql" : str; "mongodb" : str;
   "redis" : str; "elasticsearch" : str].

(** [any(kw in skill_lower for kw in keywords)] *)
Definition has_keyword (keywords : list str) (skill_lower : str) : bool :=
  existsb (fun kw => contains kw skill_lower) keywords.

(** One turn of the loop over the skills: the three lists
    [programming_languages], [frameworks] and [tools]. *)
Definition skill_step (st : list str * list str * list str) (s : str)
  : list str * list str * list str :=
  let '(programming_languages, frameworks, tools) := st in
  let skill_lower := lower s in
  if has_keyword lang_keywords skill_lower
  then (programming_languages ++ [s], frameworks, tools)
  else if has_keyword framework_keywords skill_lower
  then (programming_languages, frameworks ++ [s], tools)
  else if has_keyword tool_keywords skill_lower
  then (programming_languages, frameworks, tools ++ [s])
  else (programming_languages ++ [s], frameworks, tools).

Record technical_entry : Type := TechnicalEntry {
  category : str;
  items : list str
}.

Record language_entry : Type := LanguageEntry {
  language : str;
  proficiency : str
}.

Record formatted_skills : Type := FormattedSkills {
  technical : list technical_entry;
  soft : list str;
  f_languages : list language_entry
}.

(** [parts = lang.split("-")] and the two fields read from it. *)
Definition format_language (lang : str) : language_entry :=
  let parts := split_on "-" lang in
  {| language := strip (match parts with p :: _ => p | [] => [] end);
     proficiency :=
       match parts with
       | _ :: p :: _ => strip p
       | _ => "Conversational" : str
       end |}.

Definition _format_skills (skills_list languages_list : list str)
  : formatted_skills :=
  let '(programming_languages, frameworks, tools) :=
    fold_left skill_step skills_list ([], [], []) in
  let technical := [] in
  let technical :=
    if nonempty programming_languages
    then technical ++ [ {| category := "Programming Languages";
                           items := programming_languages |} ]
    else technical in
  let technical :=
    if nonempty frameworks
    then technical ++ [ {| category := "Frameworks"; items := frameworks |} ]
    else technical in
  let technical :=
    if nonempty tools
    then technical ++ [ {| category := "Tools & Technologies"; items := tools |} ]
    else technical in
  {| technical := technical; soft := [];
     f_languages := map format_language languages_list |}.

(** *** [_format_certifications] *)

Record formatted_cert : Type := FormattedCert {
  cert_name : str;
  issuer : option str
}.

Definition format_cert (cert : str) : formatted_cert :=
  let parts := split_on "-" cert in
  {| cert_name := strip (match parts with p :: _ => p | [] => [] end);
     issuer :=
       match parts with
       | _ :: p :: _ => Some (strip p)
       | _ => None
       end |}.

Definition _format_certifications (certifications_list : list str)
  : list formatted_cert :=
  map format_cert certifications_list.

(** *** [_format_personal_info] *)

(** [if x: if not x.startswith("http"): x = f"https://{x}"] *)
Definition with_scheme (x : option str) : option str :=
  match x with
  | Some s =>
      if truthy s
      then (if negb (startswith "http" s) then Some (("https://" : str) ++ s) else x)
      else x
  | None => x
  end.

Record name_out : Type := NameOut {
  first : str;
  last_ : str;
  full : option str
}.

Record address_out : Type := AddressOut {
  street : option str;
  city : option str;
  state : option str;
  zipCode : option str;
  country : option str
}.

(** [\b\d{5}(-\d{4})?\b] *)
Definition zip_pattern : re :=
  seqs [Wb; times d 5; opt (Grp 1 (Seq (chr "-") (times d 4))); Wb].

Definition _parse_address (location : option str) : address_out :=
  if negb (some_truthy location)
  then {| street := None; city := None; state := None; zipCode := None;
          country := None |}
  else
    let parts :=
      map strip (split_on "," (match location with Some s => s | None => [] end)) in
    let '(state, zipCode) :=
      match parts with
      | _ :: p1 :: _ =>
          let state_zip := strip p1 in
          match search false zip_pattern state_zip with
          | Some zip_match =>
              (Some (strip (take (m_start zip_match) state_zip)),
               Some (group0 state_zip zip_match))
          | None => (Some state_zip, None)
          end
      | _ => (None, None)
      end in
    {| street := None; city := head parts; state := state; zipCode := zipCode;
       country := match parts with
                  | _ :: _ :: p2 :: _ => Some (strip p2)
                  | _ => None
                  end |}.

Record contact_out : Type := ContactOut {
  c_email : option str;
  c_phone : option str;
  address : address_out;
  c_linkedin : option str;
  website : option str
}.

Record personal_out : Type := PersonalOut {
  name : name_out;
  contact : contact_out
}.

Definition _format_personal_info (personal_info : personal) : personal_out :=
  let full_name := ProfileData.full_name personal_info in
  let name_parts :=
    match full_name with
    | Some s => if truthy s then split_ws s else []
    | None => []
    end in
  let first_name := match name_parts with p :: _ => p | [] => [] end in
  let last_name :=
    if 1 <? length name_parts then join " " (drop 1 name_parts) else [] in
  let linkedin := with_scheme (ProfileData.linkedin personal_info) in
  let github := with_scheme (ProfileData.github personal_info) in
  let website :=
    if some_truthy (ProfileData.github personal_info) then github else None in
  {| name := {| first := first_name; last_ := last_name; full := full_name |};
     contact := {| c_email := email personal_info; c_phone := phone personal_info;
                   address := _parse_address (location personal_info);
                   c_linkedin := linkedin; website := website |} |}.

(** *** The two scores of [_format_ai_enhancements] *)

(** [int(x)]: truncation towards zero. *)
Definition py_int (x : Q) : Z :=
  if Qle_bool 0 x then Qfloor x else Qceiling x.

Definition qualityScore (parsed_data : profile) : Z :=
  py_int (confidence_score parsed_data).

Definition completenessScore (parsed_data : profile) : Z :=
  let pd := data parsed_data in
  let completeness := 0%Z in
  let completeness :=
    if some_truthy (ProfileData.full_name (personal_info pd))
    then (completeness + 10)%Z else completeness in
  let completeness :=
    if some_truthy (email (personal_info pd))
    then (completeness + 10)%Z else completeness in
  let completeness :=
    if nonempty (experience pd) then (completeness + 30)%Z else completeness in
  let completeness :=
    if nonempty (education pd) then (completeness + 20)%Z else completeness in
  let completeness :=
    if nonempty (skills pd) then (completeness + 20)%Z else completeness in
  let completeness :=
    if some_truthy (summary pd) then (completeness + 10)%Z else completeness in
  completeness.

End ResponseFormatter.

(** ** Notions used to state the properties of the three services *)

Module ServiceSpec.

(** The end year that the two services read off an entry: the current year
    for [Present]. *)
Definition end_year (now : Z) (e : exp_entry) : option Z :=
  match end_date e with
  | Some s =>
      if str_eqb s "Present" then Some now
      else MatchingService._extract_year (Some s)
  | None => None
  end.

(** Both years of the entry are known. *)
Definition dated (now : Z) (e : exp_entry) : bool :=
  match MatchingService._extract_year (start_date e), end_year now e with
  | Some sy, Some ey => negb (Z.eqb sy 0) && negb (Z.eqb ey 0)
  | _, _ => false
  end.

(** The years between the two years of a dated entry, 0 when the end comes
    first. *)
Definition entry_years (now : Z) (e : exp_entry) : Z :=
  match MatchingService._extract_year (start_date e), end_year now e with
  | Some sy, Some ey =>
      if negb (Z.eqb sy 0) && negb (Z.eqb ey 0) then Z.max 0 (ey - sy) else 0%Z
  | _, _ => 0%Z
  end.

(** The digits of the number of years that the job text asks for. *)
Definition years_digits (job_desc : str) : option str :=
  match search false MatchingService.years_pattern job_desc with
  | Some m => group job_desc m 1
  | None => None
  end.

(** The job text asks for no number of years, or for one of at most 308
    digits. Such a number is accepted by [int] and is below
    [2**1024 - 2**970], so it converts to a [float]. *)
Definition modest_years (job_desc : str) : bool :=
  match search false MatchingService.years_pattern job_desc with
  | Some m =>
      match group job_desc m 1 with
      | Some g => length g <=? 308
      | None => false
      end
  | None => true
  end.

(** The entry has a degree, a string that, lowercased, does not contain the
    keyword. *)
Definition degree_without (required : str) (e : edu_entry) : Prop :=
  exists dg, degree e = Some dg /\ contains required (lower dg) = false.

(** The skill holds one of the priority skills of the role. *)
Definition is_priority (job_role : str) (s : str) : bool :=
  existsb (fun priority => contains priority (lower s))
    (ClassificationService.role_skills job_role).

(** The four levels of [SENIORITY_KEYWORDS]. *)
Definition levels : list str :=
  ["entry" : str; "mid" : str; "senior" : str; "executive" : str].

(** No keyword of the table occurs in the text. *)
Definition no_keyword (table : list (str * list str)) (all_text : str) : Prop :=
  forall entry kw, In entry table -> In kw (snd entry) ->
                   contains kw all_text = false.

(** The value is absent, empty, or the given placeholder. *)
Definition redacted (mark : str) (value : option str) : Prop :=
  value = None \/ value = Some [] \/ value = Some mark.

(** The list in which [_format_skills] files a skill. *)
Definition in_frameworks (s : str) : bool :=
  negb (ResponseFormatter.has_keyword ResponseFormatter.lang_keywords (lower s))
  && ResponseFormatter.has_keyword ResponseFormatter.framework_keywords (lower s).

Definition in_tools (s : str) : bool :=
  negb (ResponseFormatter.has_keyword ResponseFormatter.lang_keywords (lower s))
  && negb (ResponseFormatter.has_keyword ResponseFormatter.framework_keywords
             (lower s))
  && ResponseFormatter.has_keyword ResponseFormatter.tool_keywords (lower s).

Definition in_languages (s : str) : bool :=
  negb (in_frameworks s) && negb (in_tools s).

End ServiceSpec.

Export ServiceSpec.

(** ** What the groups of a match hold *)

Module CaptureSpec.

(** The capturing groups of a pattern, with their numbers and bodies. *)
Fixpoint groups_of (r : re) : list (nat * re) :=
  match r with
  | Seq a b | Alt a b => groups_of a ++ groups_of b
  | Rep a _ _ => groups_of a
  | Grp n a => (n, a) :: groups_of a
  | Eps | Cls _ | Bol | Eol | Wb => []
  end.

(** The state is at position [pos st] of the text. *)
Definition at_text (text : list ascii) (st : mstate) : Prop :=
  rest st = drop (pos st) text /\ pos st <= length text.

(** Every span recorded for a group holds a text of the body of a group
    with that number. *)
Definition caps_sound (ic : bool) (gs : list (nat * re)) (text : list ascii)
    (cp : list (nat * (nat * nat))) : Prop :=
  Forall (fun e => exists a, In (fst e, a) gs
                             /\ Matches ic a (slice text (fst (snd e)) (snd (snd e))))
    cp.

(** What a successful run says, the groups included. *)
Definition run_caps_sound (ic : bool) (r : re) : Prop :=
  forall text gs st k x,
    incl (groups_of r) gs -> at_text text st -> caps_sound ic gs text (caps st) ->
    rmatch ic r st k = Some x ->
    exists w st', Matches ic r w /\ rest st = w ++ rest st'
                  /\ pos st' = pos st + length w /\ k st' = Some x
                  /\ caps_sound ic gs text (caps st').

(** Every match has at least one character. *)
Definition never_empty (ic : bool) (r : re) : bool :=
  1 <=? min_count ic (fun _ => true) r.

(** The first character of a match that is not empty satisfies [P]. *)
Fixpoint starts_within (ic : bool) (P : ascii -> bool) (r : re) : bool :=
  match r with
  | Cls p => class_within ic P p
  | Seq a b =>
      starts_within ic P a && (never_empty ic a || starts_within ic P b)
  | Alt a b => starts_within ic P a && starts_within ic P b
  | Rep a _ _ | Grp _ a => starts_within ic P a
  | Eps | Bol | Eol | Wb => true
  end.

(** The last character of a match that is not empty satisfies [P]. *)
Fixpoint ends_within (ic : bool) (P : ascii -> bool) (r : re) : bool :=
  match r with
  | Cls p => class_within ic P p
  | Seq a b =>
      ends_within ic P b && (never_empty ic b || ends_within ic P a)
  | Alt a b => ends_within ic P a && ends_within ic P b
  | Rep a _ _ | Grp _ a => ends_within ic P a
  | Eps | Bol | Eol | Wb => true
  end.

(** A pattern without anchors in which every repeated pattern consumes a
    character: on such a pattern the matcher finds a match wherever there
    is one. *)
Fixpoint plain (ic : bool) (r : re) : bool :=
  match r with
  | Eps | Cls _ => true
  | Seq a b | Alt a b => plain ic a && plain ic b
  | Rep a _ _ => plain ic a && never_empty ic a
  | Grp _ a => plain ic a
  | Bol | Eol | Wb => false
  end.

(** A text of the pattern starts at position [p] of [s]. *)
Definition starts_at (ic : bool) (r : re) (s : str) (p : nat) : Prop :=
  exists w post, Matches ic r w /\ drop p s = w ++ post /\ p <= length s.

(** [p] is the first position of [s] at which a text of the pattern
    starts. *)
Definition first_start (ic : bool) (r : re) (s : str) (p : nat) : Prop :=
  starts_at ic r s p /\ forall q, q < p -> ~ starts_at ic r s q.

(** A GPA as [gpa_pattern] captures it: digits, then possibly a dot, then
    possibly digits. *)
Definition gpa_string (g : str) : Prop :=
  exists whole dot frac : str,
    g = whole ++ dot ++ frac
    /\ whole <> [] /\ forallb is_digit whole = true
    /\ (dot = [] \/ dot = ["."%char])
    /\ forallb is_digit frac = true.

(** A handle as the two profile patterns capture it. *)
Definition handle_string (h : str) : Prop :=
  h <> [] /\ forallb (cor alnum (one_of "-")) h = true.

(** A name as [name_pattern] captures it: at least five characters, letters
    and white space only, from an upper-case letter to a lower-case one. *)
Definition name_string (nm : str) : Prop :=
  5 <= length nm
  /\ forallb (cor is_alpha is_space) nm = true
  /\ (exists c, head nm = Some c /\ is_upper c = true)
  /\ (exists c, last nm = Some c /\ is_lower c = true).

End CaptureSpec.

Export CaptureSpec.

(** * Properties *)

(** ** Rounding and rational arithmetic *)

Section Rounding.

Lemma round_half_even_bounds (a b : Z) (x : Q) :
  (inject_Z a <= x)%Q -> (x <= inject_Z b)%Q ->
  (a <= round_half_even x <= b)%Z.
Proof.
  intros Ha Hb. unfold round_half_even.
  pose proof (Qfloor_le x) as Hf. pose proof (Qlt_floor x) as Hf'.
  assert (Hfa : (a <= Qfloor x)%Z).
  { rewrite <- (Qfloor_Z a). by apply Qfloor_resp_le. }
  assert (Hfb : (Qfloor x <= b)%Z).
  { rewrite <- (Qfloor_Z b). by apply Qfloor_resp_le. }
  destruct (Z.eq_dec (Qfloor x) b) as [Heq|Hne].
  - assert (Hx : (x - inject_Z (Qfloor x) == 0)%Q).
    { rewrite Heq in *. lra. }
    assert (Hc : (x - inject_Z (Qfloor x) ?= 1 # 2)%Q = Lt).
    { rewrite <- Qlt_alt. rewrite Hx. reflexivity. }
    rewrite Hc. lia.
  - destruct (x - inject_Z (Qfloor x) ?= 1 # 2)%Q; [destruct (Z.even _)| |]; lia.
Qed.

Lemma py_round_bounds (a b : Z) (x : Q) (n : nat) :
  (inject_Z a <= x)%Q -> (x <= inject_Z b)%Q ->
  (inject_Z a <= py_round x n)%Q /\ (py_round x n <= inject_Z b)%Q.
Proof.
  intros Ha Hb. unfold py_round.
  set (s := Z.to_pos (10 ^ Z.of_nat n)).
  assert (Hs : (0 < inject_Z (Z.pos s))%Q) by (unfold Qlt; simpl; lia).
  destruct (round_half_even_bounds (a * Z.pos s) (b * Z.pos s) (x * inject_Z (Z.pos s)))
    as [H1 H2].
  - rewrite inject_Z_mult. apply Qmult_le_compat_r; [done | by apply Qlt_le_weak].
  - rewrite inject_Z_mult. apply Qmult_le_compat_r; [done | by apply Qlt_le_weak].
  - unfold Qle in *. simpl in *. split; nia.
Qed.

Lemma py_round_zero (n : nat) : (py_round 0 n == 0)%Q.
Proof. unfold py_round. reflexivity. Qed.

End Rounding.

(** ** The Relevancy Scoring Engine *)

Section Matching.

Import MatchingService.

Lemma len_ratio_nonneg (n m : nat) : (0 <= len_ratio n m)%Q.
Proof.
  unfold len_ratio. apply Qle_shift_div_l.
  - unfold Qlt; simpl. lia.
  - unfold Qle; simpl. lia.
Qed.

Lemma len_ratio_le_1 (n m : nat) : n <= m -> (len_ratio n m <= 1)%Q.
Proof.
  intros H. unfold len_ratio. apply Qle_shift_div_r.
  - unfold Qlt; simpl. lia.
  - unfold Qle; simpl. lia.
Qed.

Lemma filter_length_le {A : Type} (f : A -> bool) (l : list A) :
  length (List.filter f l) <= length l.
Proof. induction l as [|x l IH]; simpl; [lia|]. destruct (f x); simpl; lia. Qed.

Lemma filter_nil_of_all_false {A : Type} (f : A -> bool) (l : list A) :
  (forall x, In x l -> f x = false) -> List.filter f l = [].
Proof.
  induction l as [|x l IH]; intros H; simpl; [done|].
  rewrite (H x) by (by left). apply IH. intros y Hy. apply H. by right.
Qed.

Lemma match_skills_score_bounds (resume_skills : list str) (job_desc : str) :
  (0 <= sk_score (_match_skills resume_skills job_desc))%Q
  /\ (sk_score (_match_skills resume_skills job_desc) <= 1)%Q.
Proof.
  unfold _match_skills; cbn [sk_score].
  apply (py_round_bounds 0 1).
  - apply Q.min_glb; [|done].
    destruct (nonempty _); [apply len_ratio_nonneg | done].
  - apply Q.le_min_r.
Qed.

Lemma int_of_digits_nonneg_from (s : str) (acc : Z) :
  (0 <= acc)%Z ->
  (0 <= fold_left (fun a c => (a * 10 + digit_val c)%Z) s acc)%Z.
Proof.
  revert acc. induction s as [|c s IH]; intros acc H; simpl; [done|].
  apply IH. unfold digit_val. lia.
Qed.

Lemma int_of_digits_nonneg (s : str) : (0 <= int_of_digits s)%Z.
Proof. by apply int_of_digits_nonneg_from. Qed.

Lemma num_add_value (x y : pynum) :
  (num_value (num_add x y) == num_value x + num_value y)%Q.
Proof.
  destruct x as [a|p], y as [b|q]; cbn [num_add num_value]; try reflexivity.
  by rewrite inject_Z_plus.
Qed.

Lemma years_from_exp_nonneg (now : Z) (e : exp_entry) :
  (0 <= num_value (_calculate_years_from_exp now e))%Q.
Proof.
  unfold _calculate_years_from_exp.
  destruct (_extract_year (start_date e)); [|done].
  destruct (match end_date e with Some _ => _ | None => _ end); [|done].
  destruct (_ && _); [|done].
  cbn [num_value]. unfold Qle; simpl. lia.
Qed.

Lemma sum_years_nonneg_from (now : Z) (l : list exp_entry) (acc : pynum) :
  (0 <= num_value acc)%Q ->
  (0 <= num_value
          (fold_left (fun a e => num_add a (_calculate_years_from_exp now e)) l acc))%Q.
Proof.
  revert acc. induction l as [|e l IH]; intros acc H; cbn [fold_left]; [done|].
  apply IH. rewrite num_add_value.
  pose proof (years_from_exp_nonneg now e). lra.
Qed.

Lemma sum_years_nonneg (now : Z) (l : list exp_entry) :
  (0 <= num_value (sum_years now l))%Q.
Proof. by apply sum_years_nonneg_from. Qed.

Lemma relevant_experience_length (l r : list exp_entry) :
  relevant_experience l = Some r -> length r <= length l.
Proof.
  revert r. induction l as [|e l IH]; intros r; cbn [relevant_experience].
  - intros [= <-]. done.
  - destruct (title e); [|done].
    destruct (relevant_experience l) as [r'|]; [|done].
    specialize (IH r' eq_refl).
    destruct (existsb _ relevant_keywords_exp); intros [= <-];
      cbn [length]; lia.
Qed.

(** [relevant_experience] raises exactly when some title is [None]. *)
Lemma relevant_experience_total (l : list exp_entry) :
  Forall (fun e => is_Some (title e)) l -> is_Some (relevant_experience l).
Proof.
  induction 1 as [|e l [t Ht] _ [r Hr]]; cbn [relevant_experience]; [by eexists|].
  rewrite Ht, Hr. destruct (existsb _ relevant_keywords_exp); by eexists.
Qed.

Lemma int_of_str_nonneg (max_str_digits : nat) (s : str) (n : Z) :
  int_of_str max_str_digits s = Some n -> (0 <= n)%Z.
Proof.
  unfold int_of_str. destruct (_ && _); [done|]. intros [= <-].
  apply int_of_digits_nonneg.
Qed.

Lemma required_years_nonneg (max_str_digits : nat) (job : str) (n : Z) :
  required_years_of max_str_digits job = Some n -> (0 <= n)%Z.
Proof.
  unfold required_years_of. destruct (search _ _ _); [|by intros [= <-]].
  destruct (group _ _ _); [apply int_of_str_nonneg | done].
Qed.

Lemma num_div_int_nonneg (x : pynum) (n : Z) (q : Q) :
  (0 <= num_value x)%Q -> (0 < n)%Z -> num_div_int x n = Some q -> (0 <= q)%Q.
Proof.
  intros Hx Hn. unfold num_div_int.
  assert (Hd : forall v : Q, (0 <= v)%Q -> (0 <= v / inject_Z n)%Q).
  { intros v Hv. apply Qle_shift_div_l; [unfold Qlt; simpl; lia | lra]. }
  destruct x as [z|v]; cbn [num_value] in Hx.
  - intros [= <-]. by apply Hd.
  - destruct (too_large_for_float n); [done|]. intros [= <-]. by apply Hd.
Qed.

Lemma match_experience_score_bounds (now : Z) (max_str_digits : nat)
    (l : list exp_entry) (job : str) (dt : exp_detail) :
  _match_experience now max_str_digits l job = Some dt ->
  (0 <= ex_score dt)%Q /\ (ex_score dt <= 1)%Q.
Proof.
  unfold _match_experience.
  destruct (negb (nonempty l)).
  { intros [= <-]; simpl. split; done. }
  destruct (required_years_of max_str_digits job) as [required|] eqn:Hreq; [|done].
  apply required_years_nonneg in Hreq.
  destruct (if Z.eqb required 0 then _ else _) as [score|] eqn:Hscore; [|done].
  assert (Hs : (0 <= score)%Q /\ (score <= 1)%Q).
  { destruct (Z.eqb_spec required 0).
    - injection Hscore as <-. split; done.
    - destruct (num_div_int (sum_years now l) required) as [x|] eqn:Hx; [|done].
      injection Hscore as <-. split; [|apply Q.le_min_r].
      apply Q.min_glb; [|done].
      apply (num_div_int_nonneg _ _ _ (sum_years_nonneg now l)) in Hx; [done|lia]. }
  destruct (relevant_experience l) as [r|] eqn:Hr; [|done].
  intros [= <-]; cbn [ex_score].
  pose proof (len_ratio_nonneg (length r) (length l)) as Hr0.
  pose proof (len_ratio_le_1 _ _ (relevant_experience_length _ _ Hr)) as Hr1.
  destruct Hs as [Hs0 Hs1].
  apply (py_round_bounds 0 1);
    [change (inject_Z 0) with 0%Q | change (inject_Z 1) with 1%Q]; lra.
Qed.

Lemma any_degree_total (req : str) (l : list edu_entry) :
  Forall (fun e => is_Some (degree e)) l -> is_Some (any_degree req l).
Proof.
  induction 1 as [|e l [dg Hd] _ IH]; simpl; [by eexists|].
  rewrite Hd. destruct (contains _ _); [by eexists | done].
Qed.

Lemma match_education_total (l : list edu_entry) (job : str) :
  Forall (fun e => is_Some (degree e)) l -> is_Some (_match_education l job).
Proof.
  intros H. unfold _match_education.
  destruct (negb (nonempty l)); [by eexists|].
  destruct (List.find _ _); [|by eexists].
  destruct (any_degree_total s l H) as [b ->]. by eexists.
Qed.

Lemma match_education_score_bounds (l : list edu_entry) (job : str)
    (dt : edu_detail) :
  _match_education l job = Some dt ->
  (0 <= ed_score dt)%Q /\ (ed_score dt <= 1)%Q.
Proof.
  unfold _match_education.
  destruct (negb (nonempty l)); [intros [= <-]; split; done|].
  destruct (List.find _ _).
  - destruct (any_degree _ _) as [[]|]; [| |done]; intros [= <-]; split; done.
  - intros [= <-]; split; done.
Qed.

Lemma match_titles_score_bounds (job_titles : list str) (job : str) :
  (0 <= ti_score (_match_titles job_titles job))%Q
  /\ (ti_score (_match_titles job_titles job) <= 1)%Q.
Proof.
  unfold _match_titles. destruct (negb (nonempty job_titles)); simpl.
  - split; done.
  - apply (py_round_bounds 0 1).
    + apply len_ratio_nonneg.
    + apply len_ratio_le_1, filter_length_le.
Qed.

End Matching.

Section MatchingClaims.

Import MatchingService Examples.

Lemma forallb_In {A : Type} (f : A -> bool) (l : list A) :
  forallb f l = true -> forall x, In x l -> f x = true.
Proof. intros H x Hx. rewrite forallb_forall in H. by apply H. Qed.

(** C9. For every list of resume skills and every job text the skill score
    lies in [0,1]; and when the job text contains no term of the reference
    vocabulary, [required_skills] is empty and the score is 0. The only
    division is by [max(len(required_skills), 1)], which is at least 1. *)
Theorem skill_match_bounded (resume_skills : list str) (job_desc : str) :
  (0 <= sk_score (_match_skills resume_skills job_desc))%Q
  /\ (sk_score (_match_skills resume_skills job_desc) <= 1)%Q
  /\ ((forall skill, In skill common_skills -> contains skill job_desc = false) ->
      required_skills (_match_skills resume_skills job_desc) = []
      /\ (sk_score (_match_skills resume_skills job_desc) == 0)%Q).
Proof.
  destruct (match_skills_score_bounds resume_skills job_desc) as [H0 H1].
  split; [done|]. split; [done|].
  intros Hnone. unfold _match_skills; cbn [sk_score required_skills].
  rewrite (filter_nil_of_all_false _ _ Hnone). cbn [nonempty]. split; done.
Qed.

Lemma skill_match_bounded_witness :
  (forall skill, In skill common_skills -> contains skill job_plumber = false)
  /\ required_skills (_match_skills ["python" : str] job_plumber) = []
  /\ (sk_score (_match_skills ["python" : str] job_plumber) == 0)%Q.
Proof.
  assert (H : forall skill, In skill common_skills ->
                            contains skill job_plumber = false).
  { intros skill Hin.
    apply (forallb_In (fun s => negb (contains s job_plumber)) common_skills) in Hin.
    - by apply negb_true_iff.
    - vm_compute. reflexivity. }
  split; [exact H|].
  exact (proj2 (proj2 (skill_match_bounded ["python" : str] job_plumber)) H).
Defined.

(** C4, counterexample. With an empty education list the education
    component returns 0.0, not 0.8, although the job text names no degree
    keyword. *)
Lemma education_empty_list_scores_zero :
  forallb (fun kw => negb (contains kw job_plumber)) degree_keywords = true
  /\ exists dt, _match_education [] job_plumber = Some dt
                /\ ed_score dt = 0%Q /\ ~ (ed_score dt == 8 # 10)%Q.
Proof.
  split; [vm_compute; reflexivity|].
  eexists. split; [reflexivity|]. split; [reflexivity|]. simpl. discriminate.
Qed.

Lemma any_degree_skip (required : str) (pre l : list edu_entry) :
  Forall (degree_without required) pre ->
  any_degree required (pre ++ l) = any_degree required l.
Proof.
  induction 1 as [|e pre (dg & Hd & Hc) _ IH]; [done|].
  cbn [app any_degree]. by rewrite Hd, Hc.
Qed.

(** Either every entry has a degree without the keyword, or there is a
    first entry that has no degree or whose degree holds the keyword. *)
Lemma degree_cases (required : str) (education : list edu_entry) :
  Forall (degree_without required) education
  \/ exists pre e post,
       education = pre ++ e :: post /\ Forall (degree_without required) pre
       /\ (degree e = None
           \/ exists dg, degree e = Some dg /\ contains required (lower dg) = true).
Proof.
  induction education as [|e l IH]; [left; constructor|].
  destruct (degree e) as [dg|] eqn:Hd.
  - destruct (contains required (lower dg)) eqn:Hc.
    + right. exists [], e, l. split; [done|]. split; [constructor|].
      right. by exists dg.
    + destruct IH as [IH|(pre & e' & post & -> & Hpre & He')].
      * left. constructor; [by exists dg | done].
      * right. exists (e :: pre), e', post. split; [done|].
        split; [|done]. constructor; [by exists dg | done].
  - right. exists [], e, l. split; [done|]. split; [constructor|]. by left.
Qed.

(** C4, amended. An empty education list scores 0.0 whatever the job text
    says. For a non-empty list: 0.8 when the job text contains no degree
    keyword; otherwise, [required] being the first of bachelor, master, phd,
    doctorate, degree that the job text contains, the degrees are read in
    the order of the list: 1.0 when a degree, lowercased, contains
    [required] and every entry before it has a degree that does not; 0.3
    when every entry has a degree and none contains [required]; and the
    component raises when an entry without degree comes before any degree
    that contains [required]. Every list is in one of the three cases. *)
Theorem match_education_cases (education : list edu_entry) (job_desc : str) :
  (education = [] ->
   exists dt, _match_education education job_desc = Some dt /\ ed_score dt = 0%Q)
  /\ (education <> [] ->
      (forall kw, In kw degree_keywords -> contains kw job_desc = false) ->
      exists dt, _match_education education job_desc = Some dt
                 /\ ed_score dt = (8 # 10)%Q)
  /\ (forall required,
      education <> [] ->
      List.find (fun kw => contains kw job_desc) degree_keywords = Some required ->
      (forall pre e post dg,
          education = pre ++ e :: post ->
          Forall (degree_without required) pre ->
          degree e = Some dg -> contains required (lower dg) = true ->
          exists dt, _match_education education job_desc = Some dt
                     /\ ed_score dt = 1%Q)
      /\ (Forall (degree_without required) education ->
          exists dt, _match_education education job_desc = Some dt
                     /\ ed_score dt = (3 # 10)%Q)
      /\ (forall pre e post,
          education = pre ++ e :: post ->
          Forall (degree_without required) pre ->
          degree e = None ->
          _match_education education job_desc = None)
      /\ (Forall (degree_without required) education
          \/ exists pre e post,
               education = pre ++ e :: post
               /\ Forall (degree_without required) pre
               /\ (degree e = None
                   \/ exists dg, degree e = Some dg
                                 /\ contains required (lower dg) = true))).
Proof.
  split; [|split].
  - intros ->. eexists. split; reflexivity.
  - intros Hne Hnone. unfold _match_education.
    destruct education; [done|]. simpl negb. cbv iota.
    destruct (List.find _ _) as [kw|] eqn:Hf.
    + apply find_some in Hf as [Hin Hc]. rewrite (Hnone kw Hin) in Hc. done.
    + eexists. split; reflexivity.
  - intros required Hne Hf.
    assert (Hm : _match_education education job_desc
                 = match any_degree required education with
                   | Some matched =>
                       Some {| ed_score := if matched then 1 else 3 # 10;
                               required_degree := Some required;
                               matched_degrees := length education;
                               has_required := Some matched |}
                   | None => None
                   end).
    { unfold _match_education. destruct education; [done|].
      simpl negb. cbv iota. by rewrite Hf. }
    rewrite Hm. clear Hm Hf Hne. split; [|split; [|split]]; [| | |apply degree_cases].
    + intros pre e post dg -> Hpre Hd Hc.
      rewrite (any_degree_skip required pre _ Hpre). cbn [any_degree].
      rewrite Hd, Hc. eexists. split; reflexivity.
    + intros Hall. pose proof (any_degree_skip required education [] Hall) as Hs.
      rewrite app_nil_r in Hs. rewrite Hs. cbn [any_degree].
      eexists. split; reflexivity.
    + intros pre e post -> Hpre Hd.
      rewrite (any_degree_skip required pre _ Hpre). cbn [any_degree].
      by rewrite Hd.
Qed.

Lemma match_education_cases_witness :
  exists dt,
    _match_education [entry_degree (Some ("Bachelor of Science" : str))]
      (lower job_python_bachelor) = Some dt
    /\ ed_score dt = 1%Q.
Proof.
  destruct (match_education_cases
              [entry_degree (Some ("Bachelor of Science" : str))]
              (lower job_python_bachelor)) as (_ & _ & H).
  destruct (H ("bachelor" : str)) as (H1 & _).
  - discriminate.
  - vm_compute. reflexivity.
  - apply (H1 [] (entry_degree (Some ("Bachelor of Science" : str))) []
             ("Bachelor of Science" : str)).
    + reflexivity.
    + constructor.
    + reflexivity.
    + vm_compute. reflexivity.
Defined.

End MatchingClaims.
Section Confidence.

Import Examples.

Lemma sum_points_nonneg_from {A : Type} (f : A -> Z) (l : list A) (acc : Z) :
  (forall x, 0 <= f x)%Z -> (0 <= acc)%Z ->
  (0 <= fold_left (fun a x => (a + f x)%Z) l acc)%Z.
Proof.
  intros Hf. revert acc. induction l as [|x l IH]; intros acc H; cbn [fold_left].
  - done.
  - apply IH. specialize (Hf x). lia.
Qed.

Lemma exp_points_nonneg (e : exp_entry) : (0 <= exp_points e)%Z.
Proof.
  unfold exp_points.
  destruct (some_truthy (title e)), (some_truthy (company e)),
    (some_truthy (start_date e) || some_truthy (end_date e)); lia.
Qed.

Lemma edu_points_nonneg (e : edu_entry) : (0 <= edu_points e)%Z.
Proof.
  unfold edu_points.
  destruct (some_truthy (degree e)), (some_truthy (institution e)),
    (some_truthy (year e)); lia.
Qed.

Lemma skill_points_nonneg (n : nat) : (0 <= skill_points n)%Z.
Proof.
  unfold skill_points.
  destruct (10 <=? n), (5 <=? n), (3 <=? n); lia.
Qed.

Lemma inject_Z_nonneg (z : Z) : (0 <= z)%Z -> (0 <= inject_Z z)%Q.
Proof. intros H. unfold Qle; simpl. lia. Qed.

Lemma raw_score_nonneg (pd : fields) : (0 <= raw_score pd)%Q.
Proof.
  unfold raw_score.
  pose proof (inject_Z_nonneg (Z.min 30 (sum_points exp_points (experience pd)))) as H1.
  pose proof (inject_Z_nonneg (Z.min 20 (sum_points edu_points (education pd)))) as H2.
  pose proof (inject_Z_nonneg (skill_points (length (skills pd)))
                (skill_points_nonneg _)) as H3.
  pose proof (inject_Z_nonneg (Z.min 5 (Z.of_nat (length (languages pd)) * 2))) as H4.
  pose proof (inject_Z_nonneg (Z.min 5 (Z.of_nat (length (certifications pd)) * 2))) as H5.
  pose proof (sum_points_nonneg_from exp_points (experience pd) 0
                exp_points_nonneg (Z.le_refl 0)) as H6.
  pose proof (sum_points_nonneg_from edu_points (education pd) 0
                edu_points_nonneg (Z.le_refl 0)) as H7.
  unfold sum_points in *.
  specialize (H1 ltac:(lia)). specialize (H2 ltac:(lia)).
  specialize (H4 ltac:(lia)). specialize (H5 ltac:(lia)).
  destruct (some_truthy (full_name (personal_info pd))),
    (some_truthy (email (personal_info pd))),
    (some_truthy (phone (personal_info pd))),
    (nonempty (experience pd)), (nonempty (education pd)),
    (nonempty (skills pd)), (nonempty (languages pd)),
    (nonempty (certifications pd));
    (destruct (summary pd) as [s|]; [destruct (50 <? length s)|]); lra.
Qed.

Lemma confidence_bounds (pd : fields) :
  (0 <= _calculate_confidence_enhanced pd)%Q
  /\ (_calculate_confidence_enhanced pd <= 100)%Q.
Proof.
  unfold _calculate_confidence_enhanced.
  apply (py_round_bounds 0 100).
  - apply Q.min_glb; [done|].
    pose proof (raw_score_nonneg pd).
    destruct (Qeq_bool (raw_score pd) 0); [destruct (has_any_data pd)|]; done.
  - apply Q.le_min_l.
Qed.

(** C1. [parse] is a total function of its input: for every input, a string
    or not, and with or without NER back ends, it returns a profile whose
    fields [experience], [education], [skills], [certifications] and
    [languages] are lists and whose confidence score lies in [0,100]. An
    input that is not a string is parsed as the empty string. *)
Theorem parse_returns_bounded_profile (env : Env) (input : pyval) :
  (exists (ex : list exp_entry) (ed : list edu_entry) (sk ce la : list str),
      experience (data (parse env input)) = ex
      /\ education (data (parse env input)) = ed
      /\ skills (data (parse env input)) = sk
      /\ certifications (data (parse env input)) = ce
      /\ languages (data (parse env input)) = la)
  /\ (0 <= confidence_score (parse env input))%Q
  /\ (confidence_score (parse env input) <= 100)%Q
  /\ parse env PNotStr = parse env (PStr []).
Proof.
  split; [by do 5 eexists|].
  split; [|split]; [apply confidence_bounds | apply confidence_bounds | reflexivity].
Qed.

(** The floor rule on the fields it checks: with a zero sum, a name, an
    email, a phone, an experience or education entry, a skill or a summary
    gives the score 10. *)
Lemma confidence_floor_checked_fields (pd : fields) :
  (raw_score pd == 0)%Q -> has_any_data pd = true ->
  (_calculate_confidence_enhanced pd == 10)%Q.
Proof.
  intros H0 Hd. unfold _calculate_confidence_enhanced.
  apply Qeq_bool_iff in H0. rewrite H0, Hd. reflexivity.
Qed.

(** A profile with every field empty scores 0. *)
Lemma confidence_empty_profile :
  (_calculate_confidence_enhanced empty_fields == 0)%Q.
Proof. reflexivity. Qed.

(** C3, the code at the failing input. The profile holds a LinkedIn handle
    and nothing else: the weighted sum is 0, the test of the floor rule does
    not look at [linkedin] (nor at [location] or [github]), and the score is
    0 rather than the 10 the rule is meant to give. *)
Theorem confidence_zero_with_only_linkedin :
  linkedin (personal_info profile_only_linkedin)
    = Some ("linkedin.com/in/jdoe" : str)
  /\ (raw_score profile_only_linkedin == 0)%Q
  /\ has_any_data profile_only_linkedin = false
  /\ (_calculate_confidence_enhanced profile_only_linkedin == 0)%Q.
Proof. repeat split. Qed.

(** The parser produces that profile from a text that is just the handle. *)
Lemma parse_only_linkedin :
  data (parse plain_env (PStr text_only_linkedin)) = profile_only_linkedin
  /\ (confidence_score (parse plain_env (PStr text_only_linkedin)) == 0)%Q.
Proof. split; vm_compute; reflexivity. Qed.

End Confidence.
Section Skills.

Import Examples.

Lemma str_eqb_eq (a b : str) : str_eqb a b = true <-> a = b.
Proof.
  revert b. induction a as [|x a IH]; intros [|y b]; cbn [str_eqb]; try done.
  rewrite andb_true_iff, Ascii.eqb_eq, IH. split.
  - by intros [-> ->].
  - by intros [= -> ->].
Qed.

Lemma str_eqb_refl (a : str) : str_eqb a a = true.
Proof. by apply str_eqb_eq. Qed.

Lemma mem_elem_of (x : str) (l : list str) : mem x l = true <-> x ∈ l.
Proof.
  unfold mem. rewrite existsb_exists. split.
  - intros (y & Hy & He). apply str_eqb_eq in He as ->. by apply list_elem_of_In.
  - intros H. exists x. split; [by apply list_elem_of_In | apply str_eqb_refl].
Qed.

Lemma mem_false (x : str) (l : list str) : mem x l = false <-> x ∉ l.
Proof.
  rewrite <- mem_elem_of. destruct (mem x l); naive_solver.
Qed.

Lemma NoDup_snoc (l : list str) (x : str) : NoDup l -> x ∉ l -> NoDup (l ++ [x]).
Proof.
  intros Hl Hx. apply NoDup_app. split; [done|]. split; [|apply NoDup_singleton].
  intros y Hy Hy'. apply list_elem_of_singleton in Hy' as ->. done.
Qed.

Lemma add_new_NoDup (l : list str) (x : str) : NoDup l -> NoDup (add_new l x).
Proof.
  intros H. unfold add_new. destruct (mem x l) eqn:Hm; [done|].
  apply NoDup_snoc; [done | by apply mem_false].
Qed.

Lemma token_step_NoDup (l : list str) (t : str) : NoDup l -> NoDup (token_step l t).
Proof.
  intros H. unfold token_step.
  destruct (_ && _ && _); [|done].
  destruct (List.find _ common_skills); [by apply add_new_NoDup|].
  destruct (match t with [] => _ | _ => _ end); [|done].
  destruct (mem t l) eqn:Hm; [done|]. cbn [negb andb].
  apply NoDup_snoc; [done | by apply mem_false].
Qed.

Lemma fold_left_invariant {A B : Type} (P : A -> Prop) (f : A -> B -> A)
    (l : list B) (a : A) :
  (forall a b, P a -> P (f a b)) -> P a -> P (fold_left f l a).
Proof.
  intros Hf. revert a. induction l as [|b l IH]; intros a Ha; cbn [fold_left].
  - done.
  - apply IH, Hf, Ha.
Qed.

Lemma line_step_NoDup (l : list str) (line : str) : NoDup l -> NoDup (line_step l line).
Proof.
  intros H. unfold line_step. destruct (List.find _ separators); [|done].
  apply fold_left_invariant; [apply token_step_NoDup | done].
Qed.

Lemma vocab_step_NoDup (section : str) (l : list str) (x : str) :
  NoDup l -> NoDup (vocab_step section l x).
Proof.
  intros H. unfold vocab_step. destruct (bool_decide _); [by apply add_new_NoDup | done].
Qed.

Lemma collected_skills_NoDup (section : str) : NoDup (collected_skills section).
Proof.
  unfold collected_skills.
  apply fold_left_invariant; [apply line_step_NoDup|].
  apply fold_left_invariant; [apply vocab_step_NoDup | apply NoDup_nil_2].
Qed.

Lemma filter_not_elem (x : str) (l : list str) :
  x ∉ l -> List.filter (fun y => negb (str_eqb x y)) l = l.
Proof.
  induction l as [|y l IH]; intros H; cbn [List.filter]; [done|].
  apply not_elem_of_cons in H as [Hxy Hl].
  destruct (str_eqb x y) eqn:He.
  - apply str_eqb_eq in He. done.
  - cbn [negb]. by rewrite IH.
Qed.

Lemma dedup_str_NoDup (l : list str) : NoDup l -> dedup_str l = l.
Proof.
  induction 1 as [|x l Hx Hl IH]; cbn [dedup_str]; [done|].
  rewrite IH. by rewrite filter_not_elem.
Qed.

(** C8, counterexample. The line holds one word in two casings; neither is
    in the vocabulary, both start with an upper-case letter, and both are in
    the skills list, in whatever order the set enumerates them. *)
Lemma skills_keep_case_variants :
  ("Leadership" : str)
    ∈ skills (data (parse plain_env (PStr text_case_variants)))
  /\ ("LEADERSHIP" : str)
    ∈ skills (data (parse plain_env (PStr text_case_variants)))
  /\ ("Leadership" : str) <> ("LEADERSHIP" : str)
  /\ lower ("Leadership" : str) = lower ("LEADERSHIP" : str)
  /\ skills (data (parse reversing_env (PStr text_scenario)))
     = ["Docker" : str; "SQL" : str; "Python" : str].
Proof.
  assert (H : skills (data (parse plain_env (PStr text_case_variants)))
              = ["Leadership" : str; "LEADERSHIP" : str; "Teamwork" : str])
    by (vm_compute; reflexivity).
  rewrite H. split; [|split; [|split; [|split]]].
  - apply list_elem_of_here.
  - apply list_elem_of_further, list_elem_of_here.
  - discriminate.
  - vm_compute. reflexivity.
  - vm_compute. reflexivity.
Qed.

(** C8, amended. Entries are compared exactly, not ignoring case: the list
    [skills] built by the two loops has no two equal entries, and the list
    returned is a rearrangement of it, in the order in which the set
    enumerates its elements; so the returned list has no two equal entries
    either. Two entries that differ only in case can both be present, and
    the order of first appearance is not kept. *)
Theorem skills_exact_duplicates_removed (env : Env) (cleaned_text original_text : str) :
  set_order_ok env ->
  NoDup (_extract_skills_enhanced env cleaned_text original_text)
  /\ Permutation (_extract_skills_enhanced env cleaned_text original_text)
       (collected_skills
          (section_or (_find_section cleaned_text skills_keywords) cleaned_text))
  /\ NoDup (collected_skills
              (section_or (_find_section cleaned_text skills_keywords) cleaned_text)).
Proof.
  intros Hset. unfold _extract_skills_enhanced.
  set (section := section_or _ _).
  pose proof (collected_skills_NoDup section) as Hnd.
  pose proof (Hset (collected_skills section)) as Hp.
  rewrite (dedup_str_NoDup _ Hnd) in Hp.
  split; [|split]; [|done|done].
  by rewrite Hp.
Qed.

Lemma skills_exact_duplicates_removed_witness :
  set_order_ok plain_env
  /\ NoDup (_extract_skills_enhanced plain_env text_scenario text_scenario).
Proof.
  assert (H : set_order_ok plain_env) by (intros l; reflexivity).
  split; [exact H|].
  exact (proj1 (skills_exact_duplicates_removed plain_env text_scenario
                  text_scenario H)).
Defined.

End Skills.
Section Engine.

Lemma all_ascii_complete (c : ascii) : In c all_ascii.
Proof.
  unfold all_ascii. rewrite <- (ascii_nat_embedding c).
  apply in_map, in_seq. pose proof (nat_ascii_bounded c). lia.
Qed.

Lemma class_within_spec (ic : bool) (P p : ascii -> bool) (c : ascii) :
  class_within ic P p = true -> accepts ic p c = true -> P c = true.
Proof.
  unfold class_within. rewrite forallb_forall. intros H Ha.
  specialize (H c (all_ascii_complete c)). by rewrite Ha in H.
Qed.

Lemma count_app (P : ascii -> bool) (w1 w2 : str) :
  count P (w1 ++ w2) = count P w1 + count P w2.
Proof. unfold count. by rewrite List.filter_app, length_app. Qed.

Lemma count_le_length (P : ascii -> bool) (w : str) : count P w <= length w.
Proof. apply filter_length_le. Qed.

Lemma min_count_sound (ic : bool) (P : ascii -> bool) (r : re) (w : str) :
  Matches ic r w -> min_count ic P r <= count P w.
Proof.
  induction 1 as [ |p c Hc|a b w1 w2 _ IH1 _ IH2|a b w _ IH|a b w _ IH|a hi
                 |a lo hi w1 w2 Hu _ IH1 _ IH2| | | |n a w _ IH];
    cbn [min_count]; try lia.
  - destruct (class_within ic P p) eqn:Hw; [|lia].
    unfold count. cbn [List.filter]. rewrite (class_within_spec _ _ _ _ Hw Hc).
    cbn [length]. lia.
  - rewrite count_app. lia.
  - rewrite count_app. cbn [min_count] in IH2. destruct lo; cbn [pred] in *; lia.
Qed.

Lemma all_within_sound (ic : bool) (P : ascii -> bool) (r : re) (w : str) :
  Matches ic r w -> all_within ic P r = true -> forallb P w = true.
Proof.
  induction 1 as [ |p c Hc|a b w1 w2 _ IH1 _ IH2|a b w _ IH|a b w _ IH|a hi
                 |a lo hi w1 w2 Hu _ IH1 _ IH2| | | |n a w _ IH];
    cbn [all_within]; try done.
  - intros Hw. cbn [forallb]. by rewrite (class_within_spec _ _ _ _ Hw Hc).
  - intros [Ha Hb]%andb_true_iff. rewrite forallb_app, IH1, IH2; done.
  - intros [Ha Hb]%andb_true_iff. by apply IH.
  - intros [Ha Hb]%andb_true_iff. by apply IH.
  - intros Ha. rewrite forallb_app, IH1, IH2; done.
Qed.

Lemma max_len_sound (ic : bool) (r : re) (w : str) (n : nat) :
  Matches ic r w -> max_len r = Some n -> length w <= n.
Proof.
  intros H. revert n.
  induction H as [ |p c Hc|a b w1 w2 _ IH1 _ IH2|a b w _ IH|a b w _ IH|a hi
                 |a lo hi w1 w2 Hu _ IH1 _ IH2| | | |n' a w _ IH];
    intros n; cbn [max_len length].
  - intros [= <-]. lia.
  - intros [= <-]. lia.
  - destruct (max_len a) as [x|]; [|done]. destruct (max_len b) as [y|]; [|done].
    intros [= <-]. rewrite length_app. specialize (IH1 x eq_refl).
    specialize (IH2 y eq_refl). lia.
  - destruct (max_len a) as [x|]; [|done]. destruct (max_len b) as [y|]; [|done].
    intros [= <-]. specialize (IH x eq_refl). lia.
  - destruct (max_len a) as [x|]; [|done]. destruct (max_len b) as [y|]; [|done].
    intros [= <-]. specialize (IH y eq_refl). lia.
  - lia.
  - destruct hi as [h|]; [|done]. cbn [fmap option_fmap option_map max_len] in IH2.
    destruct (max_len a) as [x|]; [|done]. intros [= <-].
    specialize (IH1 x eq_refl). specialize (IH2 (pred h * x) eq_refl).
    rewrite length_app. cbn [under] in Hu. apply Nat.ltb_lt in Hu.
    destruct h; [lia|]. cbn [pred] in IH2. lia.
  - intros [= <-]. lia.
  - intros [= <-]. lia.
  - intros [= <-]. lia.
  - by apply IH.
Qed.

Lemma rep_loop_sound (ic : bool) (a : re) (lo : nat) (hi : option nat)
    (k : mstate -> option mstate) :
  run_sound ic a ->
  forall fuel n st x,
    rep_loop (rmatch ic a) lo hi k fuel n st = Some x ->
    exists w st', Matches ic (Rep a (lo - n) (hi_minus hi n)) w
                  /\ rest st = w ++ rest st' /\ pos st' = pos st + length w
                  /\ k st' = Some x.
Proof.
  intros Ha. induction fuel as [|fuel IH]; intros n st x; cbn [rep_loop]; [done|].
  destruct (if under n hi then _ else None) as [y|] eqn:Hmore.
  - intros [= ->]. destruct (under n hi) eqn:Hu; [|done].
    apply Ha in Hmore as (w1 & st1 & Hw1 & Hr1 & Hp1 & Hk1).
    destruct (length (rest st1) <? length (rest st)); [|done].
    apply IH in Hk1 as (w2 & st2 & Hw2 & Hr2 & Hp2 & Hk2).
    exists (w1 ++ w2), st2. split; [|split; [|split]].
    + apply M_RepMore; [| done |].
      * destruct hi as [h|]; [|done].
        unfold hi_minus. cbn [fmap option_fmap option_map under] in *.
        apply Nat.ltb_lt in Hu. apply Nat.ltb_lt. lia.
      * replace (pred (lo - n)) with (lo - S n) by lia.
        replace (pred <$> hi_minus hi n) with (hi_minus hi (S n)); [done|].
        destruct hi as [h|]; [|done].
        unfold hi_minus. cbn [fmap option_fmap option_map]. f_equal. lia.
    + rewrite Hr1, Hr2. by rewrite <- app_assoc.
    + rewrite Hp2, Hp1, length_app. lia.
    + done.
  - destruct (lo <=? n) eqn:Hlo; [|done]. intros Hk.
    exists [], st. apply Nat.leb_le in Hlo.
    replace (lo - n) with 0 by lia.
    split; [apply M_RepStop|]. split; [done|]. split; [cbn; lia | done].
Qed.

Lemma rmatch_sound (ic : bool) (r : re) : run_sound ic r.
Proof.
  induction r as [ |p|a IHa b IHb|a IHa b IHb|a IHa lo hi| | | |n a IHa];
    intros st k x; cbn [rmatch].
  - intros H. exists [], st. repeat split; [constructor | cbn; lia | done].
  - destruct (rest st) as [|c t] eqn:Hr; [done|].
    destruct (accepts ic p c) eqn:Hc; [|done]. intros H.
    exists [c], (advance c t st). repeat split; [by constructor | cbn; lia | done].
  - intros H. apply IHa in H as (w1 & st1 & Hw1 & Hr1 & Hp1 & H).
    apply IHb in H as (w2 & st2 & Hw2 & Hr2 & Hp2 & H).
    exists (w1 ++ w2), st2. split; [by constructor|]. split; [|split; [|done]].
    + rewrite Hr1, Hr2. by rewrite <- app_assoc.
    + rewrite Hp2, Hp1, length_app. lia.
  - destruct (rmatch ic a st k) as [y|] eqn:Hy.
    + intros [= ->]. apply IHa in Hy as (w & st' & Hw & Hr' & Hp' & H).
      exists w, st'. split; [by apply M_AltL | done].
    + intros H. apply IHb in H as (w & st' & Hw & Hr' & Hp' & H).
      exists w, st'. split; [by apply M_AltR | done].
  - intros H. apply (rep_loop_sound ic a lo hi k IHa) in H
      as (w & st' & Hw & Hr' & Hp' & H).
    exists w, st'. split; [|done].
    replace (lo - 0) with lo in Hw by lia.
    replace (hi_minus hi 0) with hi in Hw; [done|].
    destruct hi as [h|]; [|done].
    unfold hi_minus. cbn [fmap option_fmap option_map]. f_equal. lia.
  - destruct (prev st); [done|]. intros H.
    exists [], st. repeat split; [constructor | cbn; lia | done].
  - intros H. exists [], st.
    assert (k st = Some x) as Hk.
    { destruct (rest st) as [|c [|c' t]]; [done| |done].
      by destruct (Ascii.eqb c nl). }
    repeat split; [constructor | cbn; lia | done].
  - destruct (at_boundary st); [|done]. intros H.
    exists [], st. repeat split; [constructor | cbn; lia | done].
  - intros H. apply IHa in H as (w & st' & Hw & Hr' & Hp' & H).
    exists w, (set_cap n (pos st) (pos st') st').
    split; [by constructor | done].
Qed.

(** A match object found at position [i] of the text [s]. *)
Lemma match_at_sound (ic : bool) (r : re) (pv : option ascii) (s : str) (i : nat)
    (m : mobj) :
  match_at ic r pv s i = Some m ->
  m_start m = i
  /\ exists w post, Matches ic r w /\ s = w ++ post /\ m_end m = i + length w.
Proof.
  unfold match_at.
  destruct (rmatch ic r (MState pv s i []) Some) as [st'|] eqn:H; [|done].
  intros [= <-]. cbn [m_start m_end]. split; [done|].
  apply rmatch_sound in H as (w & st1 & Hw & Hr & Hp & [= ->]).
  exists w, (rest st'). by cbn in *.
Qed.

Lemma finditer_from_sound (ic : bool) (r : re) (s : str) :
  forall (pv : option ascii) (i skip : nat) (m : mobj),
    In m (finditer_from ic r pv s i skip) ->
    exists pre w post, Matches ic r w /\ s = pre ++ w ++ post
                       /\ m_start m = i + length pre
                       /\ m_end m = i + length pre + length w.
Proof.
  induction s as [|c s IH]; intros pv i skip m.
  - destruct skip; cbn [finditer_from]; [|done].
    destruct (match_at ic r pv [] i) as [m'|] eqn:Hm; [|done].
    intros [<-|[]]. apply match_at_sound in Hm as (Hs & w & post & Hw & Hsp & He).
    exists [], w, post. cbn. split; [done|]. split; [done|]. lia.
  - assert (Hlater : forall pv' skip',
               In m (finditer_from ic r pv' s (S i) skip') ->
               exists pre w post, Matches ic r w /\ c :: s = pre ++ w ++ post
                                  /\ m_start m = i + length pre
                                  /\ m_end m = i + length pre + length w).
    { intros pv' skip' Hin.
      apply IH in Hin as (pre & w & post & Hw & Hs & Hst & He).
      exists (c :: pre), w, post. cbn [length]. rewrite Hs.
      split; [done|]. split; [done|]. lia. }
    destruct skip; cbn [finditer_from]; [|by apply Hlater].
    destruct (match_at ic r pv (c :: s) i) as [m'|] eqn:Hm; [|by apply Hlater].
    intros [<-|Hin]; [|by eapply Hlater].
    apply match_at_sound in Hm as (Hs & w & post & Hw & Hsp & He).
    exists [], w, post. cbn. split; [done|]. split; [done|]. lia.
Qed.

(** Every match of [re.finditer] is a piece of the text that is in the
    language of the pattern. *)
Lemma finditer_sound (ic : bool) (r : re) (s : str) (m : mobj) :
  In m (finditer ic r s) ->
  exists pre w post, Matches ic r w /\ s = pre ++ w ++ post
                     /\ m_start m = length pre /\ m_end m = length pre + length w
                     /\ group0 s m = w.
Proof.
  intros H. apply finditer_from_sound in H as (pre & w & post & Hw & Hs & Hst & He).
  exists pre, w, post. cbn in Hst, He. repeat split; try done.
  unfold group0, slice. rewrite Hst, He, Hs.
  rewrite drop_app_length.
  replace (length pre + length w - length pre) with (length w) by lia.
  by rewrite take_app_length.
Qed.

End Engine.

Section Fuel.

Lemma rep_loop_ext (ma : mstate -> (mstate -> option mstate) -> option mstate)
    (lo : nat) (hi : option nat) (k1 k2 : mstate -> option mstate) :
  cont_ext ma -> (forall s, k1 s = k2 s) ->
  forall fuel n st,
    rep_loop ma lo hi k1 fuel n st = rep_loop ma lo hi k2 fuel n st.
Proof.
  intros Hma Hk. induction fuel as [|fuel IH]; intros n st; cbn [rep_loop]; [done|].
  rewrite Hk.
  replace (ma st (fun st' => if length (rest st') <? length (rest st)
                             then rep_loop ma lo hi k1 fuel (S n) st' else None))
    with (ma st (fun st' => if length (rest st') <? length (rest st)
                            then rep_loop ma lo hi k2 fuel (S n) st' else None));
    [done|].
  apply Hma. intros s. by rewrite IH.
Qed.

Lemma rmatch_ext (ic : bool) (r : re) : cont_ext (rmatch ic r).
Proof.
  induction r as [ |p|a IHa b IHb|a IHa b IHb|a IHa lo hi| | | |n a IHa];
    intros st k1 k2 Hk; cbn [rmatch]; try (by rewrite Hk).
  - destruct (rest st); [done|]. by rewrite Hk.
  - apply IHa. intros s. by apply IHb.
  - by rewrite (IHa st k1 k2 Hk), (IHb st k1 k2 Hk).
  - by apply rep_loop_ext.
  - apply IHa. intros s. by rewrite Hk.
Qed.

(** The fuel of a repetition never runs out: any two amounts of fuel above
    the number of characters left give the same result, so the [None] of
    the case [fuel = 0] is never the answer of [rmatch]. *)
Lemma rep_loop_fuel (ma : mstate -> (mstate -> option mstate) -> option mstate)
    (lo : nat) (hi : option nat) (k : mstate -> option mstate) :
  cont_ext ma ->
  forall fuel1 fuel2 n st,
    length (rest st) < fuel1 -> length (rest st) < fuel2 ->
    rep_loop ma lo hi k fuel1 n st = rep_loop ma lo hi k fuel2 n st.
Proof.
  intros Hma. induction fuel1 as [|fuel1 IH]; intros fuel2 n st H1 H2; [lia|].
  destruct fuel2 as [|fuel2]; [lia|]. cbn [rep_loop].
  replace (ma st (fun st' => if length (rest st') <? length (rest st)
                             then rep_loop ma lo hi k fuel1 (S n) st' else None))
    with (ma st (fun st' => if length (rest st') <? length (rest st)
                            then rep_loop ma lo hi k fuel2 (S n) st' else None));
    [done|].
  apply Hma. intros s.
  destruct (length (rest s) <? length (rest st)) eqn:Hlt; [|done].
  apply Nat.ltb_lt in Hlt. symmetry. apply IH; lia.
Qed.

End Fuel.

Section Phone.

Lemma last1_of_last (s : str) (c : ascii) : last s = Some c -> last1 s = [c].
Proof. unfold last1. by intros ->. Qed.

Lemma count_rev (P : ascii -> bool) (s : str) : count P (rev s) = count P s.
Proof. unfold count. by rewrite List.filter_rev, length_rev. Qed.

Lemma lstrip_count (s : str) : count non_space (lstrip s) = count non_space s.
Proof.
  induction s as [|c s IH]; cbn [lstrip]; [done|].
  destruct (is_space c) eqn:Hc; [|done].
  rewrite IH. unfold count, non_space. cbn [List.filter]. by rewrite Hc.
Qed.

Lemma strip_count (s : str) : count non_space (strip s) = count non_space s.
Proof.
  unfold strip, rstrip. by rewrite count_rev, lstrip_count, count_rev, lstrip_count.
Qed.

Lemma lstrip_id (s : str) : forallb non_space s = true -> lstrip s = s.
Proof.
  destruct s as [|c s]; [done|]. cbn [forallb lstrip]. unfold non_space at 1.
  intros [Hc _]%andb_true_iff. apply negb_true_iff in Hc. by rewrite Hc.
Qed.

Lemma forallb_rev (P : ascii -> bool) (s : str) :
  forallb P s = true -> forallb P (rev s) = true.
Proof.
  rewrite !forallb_forall. intros H x Hx. apply H. by apply in_rev.
Qed.

Lemma strip_id (s : str) : forallb non_space s = true -> strip s = s.
Proof.
  intros H. unfold strip, rstrip. rewrite (lstrip_id s H).
  rewrite (lstrip_id (rev s)) by (by apply forallb_rev). apply rev_involutive.
Qed.

Lemma digit_non_space (c : ascii) : is_digit c = true -> non_space c = true.
Proof.
  unfold is_digit, non_space, is_space, in_range.
  rewrite andb_true_iff, negb_true_iff, orb_false_iff, !andb_false_iff,
    !Nat.leb_le, !Nat.leb_gt. lia.
Qed.

Lemma digits_non_space (s : str) :
  forallb is_digit s = true -> forallb non_space s = true.
Proof.
  rewrite !forallb_forall. intros H x Hx. by apply digit_non_space, H.
Qed.

Lemma phone_candidate_spec (text : str) (m : mobj) (p : str) :
  phone_candidate text m = Some p ->
  p = strip (group0 text m) /\ length p = 10
  /\ startswith "19" p = false /\ startswith "20" p = false
  /\ isdigit (last1 (slice text (m_start m - 5) (m_start m))) = false
  /\ isdigit (take 1 (slice text (m_end m)
                        (Nat.min (length text) (m_end m + 5)))) = false.
Proof.
  unfold phone_candidate.
  destruct (length (strip (group0 text m)) =? 10) eqn:Hl; [|done].
  destruct (startswith "19" (strip (group0 text m))) eqn:H19; [done|].
  destruct (startswith "20" (strip (group0 text m))) eqn:H20; [done|].
  cbn [orb negb andb].
  destruct (isdigit (last1 _)) eqn:Hb; [done|].
  destruct (isdigit (take 1 _)) eqn:Ha; [done|].
  cbn [orb negb]. intros [= <-]. apply Nat.eqb_eq in Hl. done.
Qed.

Lemma first_phone_spec (text : str) (ms : list mobj) (p : str) :
  first_phone text ms = Some p ->
  exists m, In m ms /\ phone_candidate text m = Some p.
Proof.
  induction ms as [|m ms IH]; cbn [first_phone]; [done|].
  destruct (phone_candidate text m) as [q|] eqn:Hq.
  - intros [= ->]. exists m. split; [by left | done].
  - intros H. destruct (IH H) as (m' & Hin & Hm'). exists m'. split; [by right | done].
Qed.

Lemma phone_loop_spec (text : str) (patterns : list re) (p : str) :
  phone_loop text patterns = Some p ->
  exists pattern m, In pattern patterns /\ In m (finditer false pattern text)
                    /\ phone_candidate text m = Some p.
Proof.
  induction patterns as [|r rs IH]; cbn [phone_loop]; [done|].
  destruct (first_phone text (finditer false r text)) as [q|] eqn:Hq.
  - intros [= ->]. apply first_phone_spec in Hq as (m & Hin & Hm).
    exists r, m. split; [by left | done].
  - intros H. destruct (IH H) as (r' & m & Hr' & Hin & Hm).
    exists r', m. split; [by right | done].
Qed.

Lemma last_drop_lt {A : Type} (l : list A) (a : nat) :
  a < length l -> last (drop a l) = last l.
Proof.
  intros H. rewrite !last_lookup, length_drop, lookup_drop. f_equal. lia.
Qed.

Lemma slice_before (pre rest_ : str) (a : nat) :
  a <= length pre -> slice (pre ++ rest_) a (length pre) = drop a pre.
Proof.
  intros H. unfold slice. rewrite drop_app_le by done.
  rewrite take_app_le by (rewrite length_drop; lia).
  apply take_ge. rewrite length_drop. lia.
Qed.

Lemma isdigit_single (c : ascii) : isdigit [c] = is_digit c.
Proof. unfold isdigit. cbn. by rewrite andb_true_r. Qed.

(** The digit-adjacency test of the source, read on the text split around
    the match. *)
Lemma context_checks (pre w post : str) :
  isdigit (last1 (slice (pre ++ w ++ post) (length pre - 5) (length pre))) = false ->
  isdigit (take 1 (slice (pre ++ w ++ post) (length pre + length w)
                     (Nat.min (length (pre ++ w ++ post))
                        (length pre + length w + 5)))) = false ->
  (forall c, last pre = Some c -> is_digit c = false)
  /\ (forall c, head post = Some c -> is_digit c = false).
Proof.
  intros Hb Ha. split.
  - intros c Hc. rewrite slice_before in Hb by lia.
    assert (Hlen : 0 < length pre) by (destruct pre; [done | cbn; lia]).
    rewrite (last1_of_last _ c) in Hb.
    + by rewrite isdigit_single in Hb.
    + rewrite last_drop_lt by lia. done.
  - intros c Hc. destruct post as [|c' post]; [done|]. injection Hc as ->.
    unfold slice in Ha. rewrite app_assoc in Ha.
    rewrite drop_app_length' in Ha by (rewrite length_app; lia).
    rewrite take_take in Ha.
    replace (Nat.min 1 _) with 1 in Ha.
    + cbn [take] in Ha. by rewrite isdigit_single in Ha.
    + rewrite !length_app. cbn [length]. lia.
Qed.

End Phone.
Section PhoneClaim.

Import Examples.

Lemma count_true_length (w : str) : count (fun _ => true) w = length w.
Proof.
  unfold count. induction w as [|c w IH]; cbn [List.filter length]; [done|].
  by rewrite IH.
Qed.

(** The first three phone patterns match at least 11 characters that are
    not white space; the fourth matches exactly ten digits. *)
Lemma phone_patterns_cases (r : re) :
  In r phone_patterns ->
  11 <= min_count false non_space r
  \/ (min_count false (fun _ => true) r = 10 /\ max_len r = Some 10
      /\ all_within false is_digit r = true).
Proof.
  unfold phone_patterns. intros H.
  repeat destruct H as [<-|H]; try done.
  - left. apply Nat.leb_le. vm_compute. reflexivity.
  - left. apply Nat.leb_le. vm_compute. reflexivity.
  - left. apply Nat.leb_le. vm_compute. reflexivity.
  - right. repeat split; vm_compute; reflexivity.
Qed.

Lemma extract_phone_spec (text p : str) :
  extract_phone text = Some p ->
  length p = 10 /\ forallb is_digit p = true
  /\ startswith "19" p = false /\ startswith "20" p = false
  /\ exists pre post, text = pre ++ p ++ post
                      /\ digit_opt (last pre) = false
                      /\ digit_opt (head post) = false.
Proof.
  unfold extract_phone. intros H.
  apply phone_loop_spec in H as (r & m & Hr & Hm & Hc).
  apply finditer_sound in Hm as (pre & w & post & Hw & Hs & Hst & He & Hg).
  apply phone_candidate_spec in Hc as (Hp & Hlen & H19 & H20 & Hb & Ha).
  rewrite Hg in Hp.
  destruct (phone_patterns_cases r Hr) as [H11|(Hmin & Hmax & Hall)].
  - pose proof (min_count_sound false non_space r w Hw) as Hcount.
    rewrite <- strip_count in Hcount.
    pose proof (count_le_length non_space (strip w)). subst p. lia.
  - pose proof (min_count_sound false (fun _ => true) r w Hw) as Hge.
    rewrite count_true_length, Hmin in Hge.
    pose proof (max_len_sound false r w 10 Hw Hmax) as Hle.
    pose proof (all_within_sound false is_digit r w Hw Hall) as Hdig.
    rewrite (strip_id w (digits_non_space w Hdig)) in Hp. subst p.
    split; [done|]. split; [done|]. split; [done|]. split; [done|].
    exists pre, post. split; [done|].
    rewrite Hst, Hs in Hb. rewrite He, Hs in Ha.
    destruct (context_checks pre w post Hb Ha) as [Hpre Hpost].
    split.
    + destruct (last pre) as [c|]; [by apply Hpre | done].
    + destruct (head post) as [c|]; [by apply Hpost | done].
Qed.

(** C10. Whenever [parse] returns a phone, the input was a string, and
    the phone is a run of exactly ten digits of it that does not start with
    19 or 20 and has no digit right before or right after it in the text. In
    particular the phone is never ["(555) 123-4567"], nor any other number
    written with separators. *)
Theorem phone_is_ten_isolated_digits (env : Env) (input : pyval) (p : str) :
  phone (personal_info (data (parse env input))) = Some p ->
  length p = 10 /\ forallb is_digit p = true
  /\ startswith "19" p = false /\ startswith "20" p = false
  /\ (exists text pre post,
        input = PStr text /\ text = pre ++ p ++ post
        /\ digit_opt (last pre) = false /\ digit_opt (head post) = false)
  /\ p <> ("(555) 123-4567" : str).
Proof.
  intros H.
  assert (Hx : exists text, input = PStr text /\ extract_phone text = Some p).
  { destruct input as [s|]; [by exists s|].
    exfalso. revert H. vm_compute. discriminate. }
  destruct Hx as (text & -> & Hx).
  apply extract_phone_spec in Hx as (Hlen & Hdig & H19 & H20 & pre & post & Ht & Hb & Ha).
  split; [done|]. split; [done|]. split; [done|]. split; [done|]. split.
  - exists text, pre, post. done.
  - intros ->. vm_compute in Hlen. discriminate.
Qed.

Lemma phone_is_ten_isolated_digits_witness :
  phone (personal_info (data (parse plain_env (PStr text_bare_phone))))
    = Some ("5551234567" : str)
  /\ length ("5551234567" : str) = 10
  /\ forallb is_digit ("5551234567" : str) = true.
Proof.
  assert (H : phone (personal_info (data (parse plain_env (PStr text_bare_phone))))
              = Some ("5551234567" : str)) by (vm_compute; reflexivity).
  split; [exact H|].
  destruct (phone_is_ten_isolated_digits plain_env (PStr text_bare_phone)
              ("5551234567" : str) H) as (H1 & H2 & _).
  split; [exact H1 | exact H2].
Defined.

End PhoneClaim.
Section Scenario.

Import Examples.

Lemma parse_phone (env : Env) (text : str) :
  phone (personal_info (data (parse env (PStr text)))) = extract_phone text.
Proof. reflexivity. Qed.

Lemma parse_email (env : Env) (text : str) :
  email (personal_info (data (parse env (PStr text))))
  = head (findall false email_pattern text).
Proof. reflexivity. Qed.

(** C2, the code at the scenario text. The email is found, an experience
    entry has a title containing "Engineer", and "Python" is among the
    skills; but the phone is [None] whatever the back ends are: the three
    patterns that allow separators only match texts of 11 non-blank
    characters or more, and the test [len(phone_str) == 10] rejects them. *)
Theorem scenario_phone_is_none :
  (forall env : Env,
      email (personal_info (data (parse env (PStr text_scenario))))
        = Some ("john@x.com" : str)
      /\ phone (personal_info (data (parse env (PStr text_scenario)))) = None)
  /\ (exists e t,
        In e (experience (data (parse plain_env (PStr text_scenario))))
        /\ title e = Some t /\ contains "Engineer" t = true)
  /\ In ("Python" : str) (skills (data (parse plain_env (PStr text_scenario)))).
Proof.
  split; [|split].
  - intros env. rewrite parse_phone, parse_email. split; vm_compute; reflexivity.
  - assert (H : map title (experience (data (parse plain_env (PStr text_scenario))))
                = [Some ("Senior Software Engineer at Acme Inc" : str);
                   Some ("Python, S" : str)]) by (vm_compute; reflexivity).
    destruct (experience (data (parse plain_env (PStr text_scenario))))
      as [|e l]; [done|].
    injection H as He _. exists e, ("Senior Software Engineer at Acme Inc" : str).
    split; [by left|]. split; [done|]. vm_compute. reflexivity.
  - assert (H : skills (data (parse plain_env (PStr text_scenario)))
                = ["Python" : str; "SQL" : str; "Docker" : str])
      by (vm_compute; reflexivity).
    rewrite H. by left.
Qed.

(** A number written with separators is not returned as the phone. *)
Lemma phone_with_separators_dropped (env : Env) :
  phone (personal_info (data (parse env (PStr "(555) 123-4567")))) = None.
Proof. rewrite parse_phone. vm_compute. reflexivity. Qed.

(** The empty text and an input that is not a string give the empty profile
    with confidence 0 when no NER back end is loaded. *)
Lemma parse_empty_text :
  data (parse plain_env (PStr [])) = empty_fields
  /\ data (parse plain_env PNotStr) = empty_fields
  /\ (confidence_score (parse plain_env PNotStr) == 0)%Q.
Proof. repeat split. Qed.

End Scenario.
Section Locator.

Import Examples.

Lemma forallb_all_ascii (f : ascii -> bool) :
  forallb f all_ascii = true -> forall c, f c = true.
Proof. intros H c. rewrite forallb_forall in H. apply H, all_ascii_complete. Qed.

Lemma is_word_lower (c : ascii) : is_word (to_lower c) = is_word c.
Proof.
  apply Bool.eqb_prop.
  revert c. apply forallb_all_ascii. vm_compute. reflexivity.
Qed.

Lemma accepts_lower (c x : ascii) :
  accepts true (Ascii.eqb c) (to_lower x) = Ascii.eqb (to_lower c) (to_lower x).
Proof.
  apply Bool.eqb_prop. revert x. apply forallb_all_ascii.
  revert c. apply forallb_all_ascii. vm_compute. reflexivity.
Qed.

Lemma rmatch_lits (ic : bool) (kw : str) :
  forall st k,
    rmatch ic (lits kw) st k
    = match lits_run ic kw st with Some st' => k st' | None => None end.
Proof.
  induction kw as [|c kw IH]; intros st k; [done|].
  destruct kw as [|c' kw].
  - cbn [lits chr rmatch lits_run]. destruct (rest st) as [|x t]; [done|].
    by destruct (accepts ic (Ascii.eqb c) x).
  - change (lits (c :: c' :: kw)) with (Seq (chr c) (lits (c' :: kw))).
    cbn [rmatch chr]. cbn [lits_run]. destruct (rest st) as [|x t]; [done|].
    destruct (accepts ic (Ascii.eqb c) x); [|done]. apply IH.
Qed.

End Locator.
Section Locator2.

Import Examples.

Lemma last_or_cons (pv : option ascii) (y : ascii) (w : str) :
  last_or pv (y :: w) = last_or (Some y) w.
Proof.
  unfold last_or. destruct w as [|a w]; [done|].
  change (last (y :: a :: w)) with (last (a :: w)).
  destruct (last (a :: w)) eqn:H; [done|]. by apply last_None in H.
Qed.

Lemma lits_run_lower (kw : str) :
  forall (s : str) (pv : option ascii) (i : nat) (cp : list (nat * (nat * nat))),
    lits_run true kw (MState pv (lower s) i cp)
    = if ci_prefix kw s
      then Some (MState (last_or pv (lower (take (length kw) s)))
                   (lower (drop (length kw) s)) (i + length kw) cp)
      else None.
Proof.
  induction kw as [|c kw IH]; intros s pv i cp.
  - cbn [lits_run ci_prefix length take drop]. by rewrite Nat.add_0_r.
  - destruct s as [|x s]; [done|].
    cbn [lits_run lower map rest ci_prefix].
    rewrite accepts_lower.
    destruct (Ascii.eqb (to_lower c) (to_lower x)); [|done].
    cbn [andb]. unfold advance. cbn [pos caps].
    fold (lower s). rewrite IH.
    destruct (ci_prefix kw s); [|done].
    cbn [length take drop]. fold (lower (take (length kw) s)).
    cbn [lower map]. fold (lower (take (length kw) s)).
    rewrite last_or_cons. do 2 f_equal. lia.
Qed.

Lemma is_word_opt_lower (o : option ascii) :
  is_word_opt (to_lower <$> o) = is_word_opt o.
Proof. destruct o; [apply is_word_lower | done]. Qed.

Lemma head_lower (s : str) : head (lower s) = to_lower <$> head s.
Proof. by destruct s. Qed.

Lemma last_lower (s : str) : last (lower s) = to_lower <$> last s.
Proof.
  induction s as [|c s IH]; [done|]. destruct s as [|c' s]; [done|].
  exact IH.
Qed.

Lemma last_or_lower (pv : option ascii) (w : str) :
  last_or (to_lower <$> pv) (lower w) = to_lower <$> last_or pv w.
Proof. unfold last_or. rewrite last_lower. by destruct (last w). Qed.

Lemma match_at_whole_word (kw s : str) (pv : option ascii) (i : nat) :
  match_at true (whole_word kw) (to_lower <$> pv) (lower s) i
  = if head_test kw pv s then Some (MObj i (i + length kw) []) else None.
Proof.
  unfold match_at, whole_word, head_test.
  change (seqs [Wb; lits kw; Wb]) with (Seq Wb (Seq (lits kw) Wb)).
  cbn [rmatch]. unfold at_boundary at 1. cbn [prev rest].
  rewrite is_word_opt_lower, head_lower, is_word_opt_lower.
  destruct (xorb (is_word_opt pv) (is_word_opt (head s))); [|done].
  rewrite rmatch_lits, lits_run_lower.
  destruct (ci_prefix kw s); [|done].
  cbn [rmatch andb]. unfold at_boundary. cbn [prev rest].
  rewrite last_or_lower, head_lower, !is_word_opt_lower.
  by destruct (xorb _ _).
Qed.

Lemma ci_prefix_eq (kw : str) :
  forall s, ci_prefix kw s = str_eqb (lower (take (length kw) s)) (lower kw).
Proof.
  induction kw as [|c kw IH]; intros [|x s]; try done.
  cbn [ci_prefix length take lower map str_eqb].
  fold (lower (take (length kw) s)). fold (lower kw).
  rewrite IH. f_equal. apply Ascii.eqb_sym.
Qed.

Lemma ci_prefix_length (kw s : str) : ci_prefix kw s = true -> length kw <= length s.
Proof.
  revert s. induction kw as [|c kw IH]; intros [|x s]; cbn [ci_prefix length];
    try done; try lia.
  intros [_ H]%andb_true_iff. apply IH in H. lia.
Qed.

Lemma char_before_app (pre s : list ascii) : char_before (pre ++ s) (length pre) = last pre.
Proof.
  destruct pre as [|c pre] using rev_ind; [done|].
  rewrite length_app. cbn [length]. rewrite Nat.add_1_r. cbn [char_before].
  rewrite last_snoc, <- app_assoc. rewrite lookup_app_r by lia.
  by rewrite Nat.sub_diag.
Qed.

Lemma lookup_app_length (pre s : list ascii) (n : nat) :
  (pre ++ s) !! (length pre + n) = s !! n.
Proof. rewrite lookup_app_r by lia. f_equal. lia. Qed.

Lemma head_drop (s : list ascii) (n : nat) : head (drop n s) = s !! n.
Proof.
  revert s. induction n as [|n IH]; intros [|c s]; try done. cbn. apply IH.
Qed.

Lemma last_take (s : list ascii) (n : nat) :
  n < length s -> last (take (S n) s) = s !! n.
Proof.
  intros H. rewrite last_lookup, length_take.
  replace (Nat.min (S n) (length s)) with (S n) by lia. cbn [pred].
  apply lookup_take_lt. lia.
Qed.

(** The matcher's test at the position after [pre] is [whole_word_at]. *)
Lemma head_test_whole_word_at (kw pre s : str) :
  kw <> [] ->
  head_test kw (last pre) s = whole_word_at kw (pre ++ s) (length pre).
Proof.
  intros Hkw. unfold head_test, whole_word_at, word_boundary_at.
  unfold str in *. rewrite char_before_app.
  replace ((pre ++ s) !! length pre) with (head s)
    by (rewrite <- (Nat.add_0_r (length pre)), lookup_app_length; by destruct s).
  unfold slice. rewrite drop_app_length.
  replace (length pre + length kw - length pre) with (length kw) by lia.
  rewrite <- ci_prefix_eq.
  destruct (ci_prefix kw s) eqn:Hci;
    [|rewrite andb_false_r; cbn [andb]; reflexivity].
  rewrite andb_true_r. cbn [andb]. f_equal.
  apply ci_prefix_length in Hci.
  destruct kw as [|c kw]; [congruence|]. cbn [length] in *.
  rewrite lookup_app_length, head_drop. f_equal.
  rewrite Nat.add_succ_r. cbn [char_before]. rewrite lookup_app_length.
  unfold last_or. rewrite last_take by lia.
  destruct (s !! length kw) eqn:Hl; [done|].
  apply lookup_ge_None in Hl. lia.
Qed.

End Locator2.
Section Locator3.

Import Examples.

Lemma lower_length (s : str) : length (lower s) = length s.
Proof. apply length_map. Qed.

(** An occurrence lies inside the text. *)
Lemma whole_word_at_in_range (kw text : str) (j : nat) :
  kw <> [] -> whole_word_at kw text j = true -> j + length kw <= length text.
Proof.
  intros Hkw H. unfold whole_word_at in H.
  apply andb_true_iff in H as [H _]. apply andb_true_iff in H as [H _].
  apply str_eqb_eq in H. apply (f_equal length) in H.
  rewrite !lower_length in H. unfold slice in H.
  rewrite length_take, length_drop in H.
  destruct kw; [congruence|]. cbn [length] in *. lia.
Qed.

Lemma search_from_unfold (ic : bool) (r : re) (pv : option ascii) (c : ascii)
    (s : str) (i : nat) :
  search_from ic r pv (lower (c :: s)) i
  = match match_at ic r pv (lower (c :: s)) i with
    | Some m => Some m
    | None => search_from ic r (Some (to_lower c)) (lower s) (S i)
    end.
Proof. reflexivity. Qed.

Lemma search_from_whole_word (kw text : str) :
  kw <> [] ->
  forall s pre, text = pre ++ s ->
    match search_from true (whole_word kw) (to_lower <$> last pre) (lower s)
            (length pre) with
    | Some m =>
        exists i, length pre <= i /\ whole_word_at kw text i = true
                  /\ (forall j, length pre <= j -> j < i ->
                                whole_word_at kw text j = false)
                  /\ m_end m = i + length kw
    | None => forall j, length pre <= j -> whole_word_at kw text j = false
    end.
Proof.
  intros Hkw. induction s as [|c s IH]; intros pre Ht.
  - change (search_from true (whole_word kw) (to_lower <$> last pre) (lower [])
              (length pre))
      with (match match_at true (whole_word kw) (to_lower <$> last pre) (lower [])
                    (length pre) with
            | Some m => Some m | None => None end).
    rewrite match_at_whole_word, (head_test_whole_word_at kw pre [] Hkw), <- Ht.
    destruct (whole_word_at kw text (length pre)) eqn:Hw.
    + exists (length pre). split; [lia|]. split; [done|]. split; [lia | done].
    + intros j Hj. destruct (whole_word_at kw text j) eqn:Hwj; [|done].
      pose proof (whole_word_at_in_range kw text j Hkw Hwj) as Hr.
      rewrite Ht, length_app in Hr. cbn [length] in Hr.
      assert (j = length pre) as -> by (destruct kw; [congruence | cbn [length] in Hr; lia]).
      congruence.
  - rewrite search_from_unfold, match_at_whole_word,
      (head_test_whole_word_at kw pre (c :: s) Hkw), <- Ht.
    destruct (whole_word_at kw text (length pre)) eqn:Hw.
    + exists (length pre). split; [lia|]. split; [done|]. split; [lia | done].
    + specialize (IH (pre ++ [c])). rewrite last_snoc, length_app in IH.
      cbn [length] in IH. rewrite Nat.add_1_r in IH.
      cbn [fmap option_fmap option_map] in IH.
      specialize (IH ltac:(by rewrite <- app_assoc)).
      destruct (search_from true (whole_word kw) (Some (to_lower c)) (lower s)
                  (S (length pre))) as [m|].
      * destruct IH as (i & Hi & Hwi & Hleft & He).
        exists i. split; [lia|]. split; [done|]. split; [|done].
        intros j Hj1 Hj2. destruct (decide (j = length pre)) as [->|]; [done|].
        apply Hleft; lia.
      * intros j Hj. destruct (decide (j = length pre)) as [->|]; [done|].
        apply IH. lia.
Qed.

(** [re.search(r'\bkeyword\b', text.lower(), re.IGNORECASE)] finds the leftmost
    whole-word occurrence of the keyword in the text, if there is one. *)
Lemma search_whole_word (kw text : str) :
  kw <> [] ->
  match search true (whole_word kw) (lower text) with
  | Some m =>
      exists i, whole_word_at kw text i = true
                /\ (forall j, j < i -> whole_word_at kw text j = false)
                /\ m_end m = i + length kw
  | None => forall j, whole_word_at kw text j = false
  end.
Proof.
  intros Hkw. pose proof (search_from_whole_word kw text Hkw text [] eq_refl) as H.
  unfold search. cbn [last length fmap option_fmap option_map] in H.
  destruct (search_from true (whole_word kw) None (lower text) 0) as [m|].
  - destruct H as (i & _ & Hw & Hleft & He). exists i. split; [done|].
    split; [|done]. intros j Hj. apply Hleft; lia.
  - intros j. apply H. lia.
Qed.

Lemma slice_from (text : str) (a n : nat) :
  slice text a (a + n) = take n (drop a text).
Proof. unfold slice. f_equal. lia. Qed.

Lemma find_section_loop_spec (text : str) (keywords : list str) :
  match find_section_loop text (lower text) keywords with
  | None =>
      forall kw, In kw keywords -> kw <> [] ->
                 forall j, whole_word_at kw text j = false
  | Some sec =>
      exists l1 kw l2 i,
        keywords = l1 ++ kw :: l2 /\ kw <> []
        /\ (forall k, In k l1 -> k <> [] -> forall j, whole_word_at k text j = false)
        /\ whole_word_at kw text i = true
        /\ (forall j, j < i -> whole_word_at kw text j = false)
        /\ sec = match search false end_pattern (drop (i + length kw) text) with
                 | Some b => take (m_start b) (drop (i + length kw) text)
                 | None => take 2000 (drop (i + length kw) text)
                 end
  end.
Proof.
  induction keywords as [|kw kws IH]; cbn [find_section_loop].
  - intros kw Hin. destruct Hin.
  - destruct kw as [|c kw'] eqn:Hkw.
    + cbn [truthy negb].
      destruct (find_section_loop text (lower text) kws) as [sec|].
      * destruct IH as (l1 & k & l2 & i & Hk & Hne & Hl1 & Hw & Hleft & Hsec).
        exists ([] :: l1), k, l2, i. rewrite Hk. split; [done|]. split; [done|].
        split; [|done]. intros k' Hin Hk'.
        destruct Hin as [<-|Hin]; [congruence | by apply Hl1].
      * intros k Hin Hk. destruct Hin as [<-|Hin]; [congruence | by apply IH].
    + cbn [truthy negb]. rewrite <- Hkw.
      assert (Hne : kw <> []) by (rewrite Hkw; discriminate).
      pose proof (search_whole_word kw text Hne) as Hs.
      destruct (search true (whole_word kw) (lower text)) as [m|].
      * destruct Hs as (i & Hw & Hleft & He). cbv beta iota zeta. rewrite He.
        destruct (search false end_pattern (drop (i + length kw) text))
          as [b|] eqn:Hb; cbv beta iota;
          exists [], kw, kws, i; (split; [done|]); (split; [done|]);
          (split; [intros k Hin; destruct Hin|]); (split; [done|]);
          (split; [done|]); rewrite Hb; by rewrite slice_from.
      * destruct (find_section_loop text (lower text) kws) as [sec|].
        -- destruct IH as (l1 & k & l2 & i & Hk & Hk' & Hl1 & Hw & Hleft & Hsec).
           exists (kw :: l1), k, l2, i. rewrite Hk. split; [done|]. split; [done|].
           split; [|done]. intros k' Hin Hk''.
           destruct Hin as [<-|Hin]; [done | by apply Hl1].
        -- intros k Hin Hk. destruct Hin as [<-|Hin]; [done | by apply IH].
Qed.

End Locator3.

(** ** The search of the matcher *)

Section EngineSearch.

Lemma search_from_sound (ic : bool) (r : re) (s : str) :
  forall (pv : option ascii) (i : nat) (m : mobj),
    search_from ic r pv s i = Some m ->
    exists pre w post, Matches ic r w /\ s = pre ++ w ++ post
                       /\ m_start m = i + length pre
                       /\ m_end m = i + length pre + length w.
Proof.
  induction s as [|c s IH]; intros pv i m; cbn [search_from].
  - destruct (match_at ic r pv [] i) as [m'|] eqn:Hm; [|done].
    intros [= <-]. apply match_at_sound in Hm as (Hs & w & post & Hw & Hsp & He).
    exists [], w, post. cbn. split; [done|]. split; [done|]. lia.
  - destruct (match_at ic r pv (c :: s) i) as [m'|] eqn:Hm.
    + intros [= <-]. apply match_at_sound in Hm as (Hs & w & post & Hw & Hsp & He).
      exists [], w, post. cbn. split; [done|]. split; [done|]. lia.
    + intros Hin. apply IH in Hin as (pre & w & post & Hw & Hs & Hst & He).
      exists (c :: pre), w, post. cbn [length]. rewrite Hs.
      split; [done|]. split; [done|]. lia.
Qed.

(** The match of [re.search] is a piece of the text that is in the language
    of the pattern. *)
Lemma search_sound (ic : bool) (r : re) (s : str) (m : mobj) :
  search ic r s = Some m ->
  exists pre w post, Matches ic r w /\ s = pre ++ w ++ post
                     /\ m_start m = length pre /\ m_end m = length pre + length w
                     /\ group0 s m = w.
Proof.
  intros H. apply search_from_sound in H as (pre & w & post & Hw & Hs & Hst & He).
  exists pre, w, post. cbn in Hst, He. repeat split; try done.
  unfold group0, slice. rewrite Hst, He, Hs.
  rewrite drop_app_length.
  replace (length pre + length w - length pre) with (length w) by lia.
  by rewrite take_app_length.
Qed.

Lemma matches_length (ic : bool) (r : re) (w : str) (n : nat) :
  Matches ic r w -> min_count ic (fun _ => true) r = n -> max_len r = Some n ->
  length w = n.
Proof.
  intros Hw Hmin Hmax.
  pose proof (min_count_sound ic (fun _ => true) r w Hw) as H1.
  rewrite count_true_length in H1.
  pose proof (max_len_sound ic r w n Hw Hmax) as H2. lia.
Qed.

End EngineSearch.

(** ** The groups of a match *)

Section Captures.

Lemma at_text_step (text : list ascii) (st st' : mstate) (w : list ascii) :
  at_text text st -> rest st = w ++ rest st' -> pos st' = pos st + length w ->
  at_text text st' /\ slice text (pos st) (pos st') = w.
Proof.
  intros [Hr Hp] Hw Hpos. rewrite Hr in Hw.
  assert (Hlen : length (drop (pos st) text) = length w + length (rest st'))
    by (by rewrite Hw, length_app).
  rewrite length_drop in Hlen.
  split; [split|].
  - rewrite Hpos, <- drop_drop, Hw. by rewrite drop_app_length.
  - lia.
  - unfold slice. rewrite Hw, Hpos.
    replace (pos st + length w - pos st) with (length w) by lia.
    by rewrite take_app_length.
Qed.

Lemma incl_app_l {A : Type} (l1 l2 gs : list A) : incl (l1 ++ l2) gs -> incl l1 gs.
Proof. intros H x Hx. apply H, in_or_app. by left. Qed.

Lemma incl_app_r {A : Type} (l1 l2 gs : list A) : incl (l1 ++ l2) gs -> incl l2 gs.
Proof. intros H x Hx. apply H, in_or_app. by right. Qed.

Lemma rep_loop_caps (ic : bool) (a : re) (lo : nat) (hi : option nat)
    (k : mstate -> option mstate) (text : list ascii) (gs : list (nat * re)) :
  run_caps_sound ic a -> incl (groups_of a) gs ->
  forall fuel n st x,
    at_text text st -> caps_sound ic gs text (caps st) ->
    rep_loop (rmatch ic a) lo hi k fuel n st = Some x ->
    exists w st', Matches ic (Rep a (lo - n) (hi_minus hi n)) w
                  /\ rest st = w ++ rest st' /\ pos st' = pos st + length w
                  /\ k st' = Some x /\ caps_sound ic gs text (caps st').
Proof.
  intros Ha Hgs. induction fuel as [|fuel IH]; intros n st x Hat Hcs;
    cbn [rep_loop]; [done|].
  destruct (if under n hi then _ else None) as [y|] eqn:Hmore.
  - intros [= ->]. destruct (under n hi) eqn:Hu; [|done].
    apply (Ha text gs) in Hmore as (w1 & st1 & Hw1 & Hr1 & Hp1 & Hk1 & Hc1);
      [|done|done|done].
    destruct (length (rest st1) <? length (rest st)); [|done].
    destruct (at_text_step text st st1 w1 Hat Hr1 Hp1) as [Hat1 _].
    apply IH in Hk1 as (w2 & st2 & Hw2 & Hr2 & Hp2 & Hk2 & Hc2); [|done|done].
    exists (w1 ++ w2), st2. split; [|split; [|split; [|split]]].
    + apply M_RepMore; [| done |].
      * destruct hi as [h|]; [|done].
        unfold hi_minus. cbn [fmap option_fmap option_map under] in *.
        apply Nat.ltb_lt in Hu. apply Nat.ltb_lt. lia.
      * replace (pred (lo - n)) with (lo - S n) by lia.
        replace (pred <$> hi_minus hi n) with (hi_minus hi (S n)); [done|].
        destruct hi as [h|]; [|done].
        unfold hi_minus. cbn [fmap option_fmap option_map]. f_equal. lia.
    + rewrite Hr1, Hr2. by rewrite <- app_assoc.
    + rewrite Hp2, Hp1, length_app. lia.
    + done.
    + done.
  - destruct (lo <=? n) eqn:Hlo; [|done]. intros Hk.
    exists [], st. apply Nat.leb_le in Hlo.
    replace (lo - n) with 0 by lia.
    split; [apply M_RepStop|]. split; [done|]. split; [cbn; lia | done].
Qed.

(** The spans that the matcher records for the groups hold texts of the
    bodies of the groups. *)
Lemma rmatch_caps (ic : bool) (r : re) : run_caps_sound ic r.
Proof.
  induction r as [ |p|a IHa b IHb|a IHa b IHb|a IHa lo hi| | | |n a IHa];
    intros text gs st k x Hgs Hat Hcs; cbn [rmatch]; cbn [groups_of] in Hgs.
  - intros H. exists [], st. repeat split; (done || (by constructor) || (cbn; lia)).
  - destruct (rest st) as [|c t] eqn:Hr; [done|].
    destruct (accepts ic p c) eqn:Hc; [|done]. intros H.
    exists [c], (advance c t st).
    repeat split; (done || (by constructor) || (cbn; lia)).
  - intros H.
    apply (IHa text gs) in H as (w1 & st1 & Hw1 & Hr1 & Hp1 & H & Hc1);
      [|by eapply incl_app_l|done|done].
    destruct (at_text_step text st st1 w1 Hat Hr1 Hp1) as [Hat1 _].
    apply (IHb text gs) in H as (w2 & st2 & Hw2 & Hr2 & Hp2 & H & Hc2);
      [|by eapply incl_app_r|done|done].
    exists (w1 ++ w2), st2. split; [by constructor|].
    split; [|split; [|done]].
    + rewrite Hr1, Hr2. by rewrite <- app_assoc.
    + rewrite Hp2, Hp1, length_app. lia.
  - destruct (rmatch ic a st k) as [y|] eqn:Hy.
    + intros [= ->].
      apply (IHa text gs) in Hy as (w & st' & Hw & Hr' & Hp' & H & Hc');
        [|by eapply incl_app_l|done|done].
      exists w, st'. split; [by apply M_AltL | done].
    + intros H.
      apply (IHb text gs) in H as (w & st' & Hw & Hr' & Hp' & H & Hc');
        [|by eapply incl_app_r|done|done].
      exists w, st'. split; [by apply M_AltR | done].
  - intros H.
    apply (rep_loop_caps ic a lo hi k text gs IHa Hgs) in H
      as (w & st' & Hw & Hr' & Hp' & H & Hc'); [|done|done].
    exists w, st'. split; [|done].
    replace (lo - 0) with lo in Hw by lia.
    replace (hi_minus hi 0) with hi in Hw; [done|].
    destruct hi as [h|]; [|done].
    unfold hi_minus. cbn [fmap option_fmap option_map]. f_equal. lia.
  - destruct (prev st); [done|]. intros H.
    exists [], st. repeat split; (done || (by constructor) || (cbn; lia)).
  - intros H. exists [], st.
    assert (k st = Some x) as Hk.
    { destruct (rest st) as [|c [|c' t]]; [done| |done].
      by destruct (Ascii.eqb c nl). }
    repeat split; (done || (by constructor) || (cbn; lia)).
  - destruct (at_boundary st); [|done]. intros H.
    exists [], st. repeat split; (done || (by constructor) || (cbn; lia)).
  - intros H.
    apply (IHa text gs) in H as (w & st' & Hw & Hr' & Hp' & H & Hc');
      [| |done|done].
    2:{ intros e He. apply Hgs. by right. }
    exists w, (set_cap n (pos st) (pos st') st').
    split; [by constructor|]. split; [done|]. split; [done|]. split; [done|].
    cbn [set_cap caps]. apply Forall_cons. split; [|done].
    cbn [fst snd]. exists a. split; [apply Hgs; by left|].
    by destruct (at_text_step text st st' w Hat Hr' Hp') as [_ ->].
Qed.

Lemma match_at_caps (ic : bool) (r : re) (pre s : list ascii) (pv : option ascii)
    (m : mobj) :
  match_at ic r pv s (length pre) = Some m ->
  caps_sound ic (groups_of r) (pre ++ s) (m_caps m).
Proof.
  unfold match_at.
  destruct (rmatch ic r (MState pv s (length pre) []) Some) as [st'|] eqn:H; [|done].
  intros [= <-]. cbn [m_caps].
  apply (rmatch_caps ic r (pre ++ s) (groups_of r)) in H
    as (w & st1 & _ & _ & _ & [= ->] & Hc).
  - done.
  - apply incl_refl.
  - split; cbn [rest pos]; [by rewrite drop_app_length | rewrite length_app; lia].
  - by apply Forall_nil.
Qed.

Lemma search_from_caps (ic : bool) (r : re) (s : list ascii) :
  forall (pre : list ascii) (pv : option ascii) (m : mobj),
    search_from ic r pv s (length pre) = Some m ->
    caps_sound ic (groups_of r) (pre ++ s) (m_caps m).
Proof.
  induction s as [|c s IH]; intros pre pv m; cbn [search_from].
  - destruct (match_at ic r pv [] (length pre)) as [m'|] eqn:Hm; [|done].
    intros [= <-]. by apply match_at_caps in Hm.
  - destruct (match_at ic r pv (c :: s) (length pre)) as [m'|] eqn:Hm.
    + intros [= <-]. by apply match_at_caps in Hm.
    + intros H. specialize (IH (pre ++ [c]) (Some c) m).
      rewrite length_app, Nat.add_1_r, <- app_assoc in IH. by apply IH.
Qed.

(** A group of the match of [re.search] holds a text of the body of a group
    with that number. *)
Lemma search_group (ic : bool) (r : re) (s : str) (m : mobj) (n : nat) (g : str) :
  search ic r s = Some m -> group s m n = Some g ->
  exists a, In (n, a) (groups_of r) /\ Matches ic a g.
Proof.
  intros Hs Hg. apply (search_from_caps ic r s [] None m) in Hs.
  cbn [app] in Hs. unfold group in Hg.
  destruct (List.find _ (m_caps m)) as [[n' [i j]]|] eqn:Hf; [|done].
  cbn in Hg. injection Hg as <-.
  apply find_some in Hf as [Hin Hn]. cbn [fst] in Hn. apply Nat.eqb_eq in Hn.
  subst n'. unfold caps_sound in Hs. rewrite Forall_forall in Hs.
  apply list_elem_of_In, Hs in Hin. exact Hin.
Qed.

End Captures.

(** ** Where the matcher finds a match *)

Section Completeness.

Lemma never_empty_sound (ic : bool) (r : re) (w : str) :
  Matches ic r w -> never_empty ic r = true -> w <> [].
Proof.
  intros Hw Hn. unfold never_empty in Hn. apply Nat.leb_le in Hn.
  pose proof (min_count_sound ic (fun _ => true) r w Hw) as H.
  rewrite count_true_length in H. intros ->. cbn in H. lia.
Qed.

Lemma hi_minus_0 (hi : option nat) : hi_minus hi 0 = hi.
Proof.
  destruct hi as [h|]; [|done].
  unfold hi_minus. cbn [fmap option_fmap option_map]. f_equal. lia.
Qed.

Lemma hi_minus_S (hi : option nat) (n : nat) :
  pred <$> hi_minus hi n = hi_minus hi (S n).
Proof.
  destruct hi as [h|]; [|done].
  unfold hi_minus. cbn [fmap option_fmap option_map]. f_equal. lia.
Qed.

Lemma under_hi_minus (hi : option nat) (n : nat) :
  under 0 (hi_minus hi n) = true -> under n hi = true.
Proof.
  destruct hi as [h|]; [|done].
  unfold hi_minus. cbn [fmap option_fmap option_map under].
  intros H. apply Nat.ltb_lt in H. apply Nat.ltb_lt. lia.
Qed.

(** The loop of a repetition succeeds on a text of the repetition, when the
    repeated pattern does and consumes a character each time. *)
Lemma rep_loop_complete (ic : bool) (a : re) (lo : nat) (hi : option nat)
    (k : mstate -> option mstate) (t : str) :
  never_empty ic a = true ->
  (forall w, Matches ic a w ->
   forall st u k', rest st = w ++ u ->
                   (forall st', rest st' = u -> is_Some (k' st')) ->
                   is_Some (rmatch ic a st k')) ->
  (forall st', rest st' = t -> is_Some (k st')) ->
  forall fuel n st w,
    Matches ic (Rep a (lo - n) (hi_minus hi n)) w ->
    rest st = w ++ t -> length (rest st) < fuel ->
    is_Some (rep_loop (rmatch ic a) lo hi k fuel n st).
Proof.
  intros Hne Ha Hk. induction fuel as [|fuel IH]; intros n st w Hw Hr Hf; [lia|].
  cbn [rep_loop].
  inversion Hw as [| | | | |a' hi' Hlo|a' lo' hi' w1 w2 Hu H1 H2| | | |]; subst.
  - destruct (if under n hi then _ else None) as [x|]; [by eexists|].
    assert (Hle : (lo <=? n) = true) by (apply Nat.leb_le; lia).
    rewrite Hle. apply Hk. by rewrite Hr.
  - rewrite (under_hi_minus hi n Hu).
    assert (Hw1 : w1 <> []) by (by apply (never_empty_sound ic a)).
    assert (Hmore : is_Some
              (rmatch ic a st
                 (fun st' => if length (rest st') <? length (rest st)
                             then rep_loop (rmatch ic a) lo hi k fuel (S n) st'
                             else None))).
    { apply (Ha w1 H1 st (w2 ++ t)); [by rewrite Hr, <- app_assoc|].
      intros st' Hst'.
      assert (Hlt : length (rest st') < length (rest st)).
      { rewrite Hst', Hr, !length_app. destruct w1; [done|]. cbn [length]. lia. }
      apply Nat.ltb_lt in Hlt as Hlt'. rewrite Hlt'.
      apply (IH (S n) st' w2); [|done|lia].
      rewrite hi_minus_S in H2.
      by replace (lo - S n) with (pred (lo - n)) by lia. }
    destruct Hmore as [x ->]. by eexists.
Qed.

(** On a plain pattern the matcher succeeds wherever a text of the pattern
    lies ahead and the continuation accepts what is left. *)
Lemma rmatch_complete (ic : bool) (r : re) :
  plain ic r = true ->
  forall w, Matches ic r w ->
  forall st t k, rest st = w ++ t ->
                 (forall st', rest st' = t -> is_Some (k st')) ->
                 is_Some (rmatch ic r st k).
Proof.
  induction r as [ |p|a IHa b IHb|a IHa b IHb|a IHa lo hi| | | |n a IHa];
    intros Hp w Hw st t k Hr Hk; cbn [plain] in Hp; cbn [rmatch]; try done.
  - inversion Hw; subst. by apply Hk.
  - inversion Hw as [|p' c Hc| | | | | | | | |]; subst.
    rewrite Hr. cbn [app]. rewrite Hc. by apply Hk.
  - apply andb_true_iff in Hp as [Hpa Hpb].
    inversion Hw as [| |a' b' w1 w2 H1 H2| | | | | | | |]; subst.
    apply (IHa Hpa w1 H1 st (w2 ++ t)); [by rewrite Hr, <- app_assoc|].
    intros st' Hst'. by apply (IHb Hpb w2 H2 st' t).
  - apply andb_true_iff in Hp as [Hpa Hpb].
    destruct (rmatch ic a st k) as [x|] eqn:Hx; [by eexists|].
    inversion Hw as [| | |a' b' w' H1|a' b' w' H1| | | | | |]; subst.
    + destruct (IHa Hpa w H1 st t k Hr Hk) as [y Hy]. congruence.
    + by apply (IHb Hpb w H1 st t).
  - apply andb_true_iff in Hp as [Hpa Hne].
    apply (rep_loop_complete ic a lo hi k t Hne (IHa Hpa) Hk _ 0 st w);
      [|done|lia].
    by rewrite Nat.sub_0_r, hi_minus_0.
  - inversion Hw as [| | | | | | | | | |n' a' w' H1]; subst.
    apply (IHa Hp w H1 st t); [done|]. intros st' Hst'. by apply Hk.
Qed.

Lemma match_at_complete (ic : bool) (r : re) (pv : option ascii) (s : str) (i : nat) :
  plain ic r = true -> starts_at ic r s 0 -> is_Some (match_at ic r pv s i).
Proof.
  intros Hp (w & post & Hw & Hs & _). cbn [drop] in Hs. unfold match_at.
  destruct (rmatch_complete ic r Hp w Hw (MState pv s i []) post Some) as [x ->];
    [done|by eexists|by eexists].
Qed.

Lemma starts_at_cons (ic : bool) (r : re) (c : ascii) (s : str) (p : nat) :
  starts_at ic r (c :: s) (S p) <-> starts_at ic r s p.
Proof.
  unfold starts_at. cbn [drop length]. split.
  - intros (w & post & Hw & Hd & Hl). exists w, post. repeat split; [done|done|lia].
  - intros (w & post & Hw & Hd & Hl). exists w, post. repeat split; [done|done|lia].
Qed.

Lemma search_from_first (ic : bool) (r : re) (s : str) :
  plain ic r = true ->
  forall (pv : option ascii) (i : nat),
    match search_from ic r pv s i with
    | Some m => exists p, m_start m = i + p /\ first_start ic r s p
    | None => forall q, ~ starts_at ic r s q
    end.
Proof.
  intros Hp. induction s as [|c s IH]; intros pv i; cbn [search_from].
  - destruct (match_at ic r pv [] i) as [m|] eqn:Hm.
    + apply match_at_sound in Hm as (Hs & w & post & Hw & Hsp & He).
      exists 0. split; [lia|]. split; [|intros q Hq; lia].
      exists w, post. by repeat split.
    + intros q (w & post & Hw & Hd & Hl). cbn [length] in Hl.
      assert (q = 0) by lia. subst q.
      destruct (match_at_complete ic r pv [] i Hp) as [m Hm'];
        [by exists w, post|congruence].
  - destruct (match_at ic r pv (c :: s) i) as [m|] eqn:Hm.
    + apply match_at_sound in Hm as (Hs & w & post & Hw & Hsp & He).
      exists 0. split; [lia|]. split; [|intros q Hq; lia].
      exists w, post. repeat split; [done|done|lia].
    + assert (H0 : ~ starts_at ic r (c :: s) 0).
      { intros H. destruct (match_at_complete ic r pv (c :: s) i Hp H) as [m Hm'].
        congruence. }
      specialize (IH (Some c) (S i)).
      destruct (search_from ic r (Some c) s (S i)) as [m|].
      * destruct IH as (p & Hst & Hs & Hleast). exists (S p).
        split; [lia|]. split; [by apply starts_at_cons|].
        intros [|q] Hq; [done|]. rewrite starts_at_cons. apply Hleast. lia.
      * intros [|q]; [done|]. rewrite starts_at_cons. apply IH.
Qed.

(** [re.search] on a plain pattern returns the first position at which a
    text of the pattern starts, and [None] only when there is none. *)
Lemma search_first (ic : bool) (r : re) (s : str) :
  plain ic r = true ->
  match search ic r s with
  | Some m => first_start ic r s (m_start m)
  | None => forall q, ~ starts_at ic r s q
  end.
Proof.
  intros Hp. pose proof (search_from_first ic r s Hp None 0) as H.
  unfold search. destruct (search_from ic r None s 0) as [m|]; [|done].
  destruct H as (p & Hst & Hf). cbn [Nat.add] in Hst. by rewrite Hst.
Qed.

End Completeness.

(** ** The section locator *)

Section LocatorClaim.

Import Examples.

(** C7, counterexample. The keyword is followed by 2001 letters and then by
    a numbered line: no boundary lies within the 2000 characters after the
    keyword, yet the section returned has 2001 characters. *)
Lemma long_section_not_truncated :
  whole_word_at "skills" text_long_section 0 = true
  /\ search false end_pattern (take 2000 (drop 6 text_long_section)) = None
  /\ exists sec, _find_section text_long_section ["skills" : str] = Some sec
                 /\ length sec = 2001.
Proof.
  split; [vm_compute; reflexivity|]. split; [vm_compute; reflexivity|].
  eexists. split; [vm_compute; reflexivity|]. vm_compute. reflexivity.
Qed.

(** C7, amended. For an ASCII text and ASCII keywords the locator returns
    [None] exactly when no non-empty keyword occurs in the text as a whole
    word, ignoring case. Otherwise the section starts right after the
    leftmost occurrence of the first keyword of the list that occurs. It
    ends at the first position after the keyword at which a new-section
    boundary, a text of the end pattern, starts, however far that is; only
    when no boundary starts anywhere after the keyword is it cut to at most
    2000 characters. *)
Theorem find_section_spec (text : str) (keywords : list str) :
  ascii_text text = true -> forallb ascii_text keywords = true ->
  (_find_section text keywords = None <->
   forall kw, In kw keywords -> kw <> [] -> ~ occurs_whole_word kw text)
  /\ (forall sec, _find_section text keywords = Some sec ->
      exists l1 kw l2 i,
        keywords = l1 ++ kw :: l2 /\ kw <> []
        /\ (forall k, In k l1 -> k <> [] -> ~ occurs_whole_word k text)
        /\ whole_word_at kw text i = true
        /\ (forall j, j < i -> whole_word_at kw text j = false)
        /\ ((exists p, first_start false end_pattern (drop (i + length kw) text) p
                       /\ sec = take p (drop (i + length kw) text))
            \/ ((forall q, ~ starts_at false end_pattern
                               (drop (i + length kw) text) q)
                /\ sec = take 2000 (drop (i + length kw) text)
                /\ length sec <= 2000))).
Proof.
  intros _ _.
  assert (Hno : forall kw, (forall j, whole_word_at kw text j = false) <->
                           ~ occurs_whole_word kw text).
  { intros kw. unfold occurs_whole_word. split.
    - intros H [i Hi]. rewrite H in Hi. discriminate.
    - intros H j. destruct (whole_word_at kw text j) eqn:Hj; [|done].
      exfalso. apply H. by exists j. }
  assert (Hempty : text = [] -> forall kw, kw <> [] -> ~ occurs_whole_word kw text).
  { intros -> kw Hkw [i Hi]. apply whole_word_at_in_range in Hi; [|done].
    destruct kw; [congruence|]. cbn [length] in Hi. lia. }
  pose proof (find_section_loop_spec text keywords) as Hloop.
  unfold _find_section. destruct text as [|c text'] eqn:Htext.
  { cbn [truthy negb]. split; [|done]. split; [|done].
    intros _ kw _ Hkw. by apply Hempty. }
  cbn [truthy negb]. rewrite <- Htext in *. clear Hempty.
  destruct (find_section_loop text (lower text) keywords) as [sec|].
  - destruct Hloop as (l1 & kw & l2 & i & Hk & Hne & Hl1 & Hw & Hleft & Hsec).
    split.
    + split; [done|]. intros H. exfalso.
      apply (H kw); [|done|by exists i]. rewrite Hk. apply in_elt.
    + intros sec' [= <-]. exists l1, kw, l2, i.
      split; [done|]. split; [done|].
      split; [intros k Hin Hk'; by apply Hno, Hl1|].
      split; [done|]. split; [done|].
      pose proof (search_first false end_pattern (drop (i + length kw) text)
                    ltac:(vm_compute; reflexivity)) as Hfirst.
      destruct (search false end_pattern (drop (i + length kw) text)) as [b|].
      * left. exists (m_start b). by split.
      * right. split; [done|]. split; [done|]. rewrite Hsec, length_take. lia.
  - split; [|done]. split; [|done].
    intros _ kw Hin Hkw. by apply Hno, Hloop.
Qed.

Lemma find_section_spec_witness :
  ascii_text text_scenario = true /\ forallb ascii_text skills_keywords = true
  /\ _find_section text_scenario skills_keywords
     = Some (nl :: lit "Python, SQL, Docker")
  /\ exists kw i, In kw skills_keywords
                  /\ whole_word_at kw text_scenario i = true.
Proof.
  assert (Ha : ascii_text text_scenario = true) by (vm_compute; reflexivity).
  assert (Hk : forallb ascii_text skills_keywords = true)
    by (vm_compute; reflexivity).
  assert (H : _find_section text_scenario skills_keywords
              = Some (nl :: lit "Python, SQL, Docker"))
    by (vm_compute; reflexivity).
  split; [exact Ha|]. split; [exact Hk|]. split; [exact H|]. clear Hk.
  destruct (proj2 (find_section_spec text_scenario skills_keywords Ha
                     ltac:(vm_compute; reflexivity)) _ H)
    as (l1 & kw & l2 & i & Hk & _ & _ & Hw & _).
  exists kw, i. split; [|exact Hw]. rewrite Hk. apply in_elt.
Defined.

End LocatorClaim.

(** ** The overall score *)

Section MatchingClaims2.

Import MatchingService Examples.

(** The scores as they stand after the skill component, which is what the
    [except] clause returns when the experience component raises. *)
Lemma calc_experience_raises (now : Z) (max_str_digits : nat) (model : embedding) (resume : fields)
    (job : str) :
  _match_experience now max_str_digits (experience resume) (lower job) = None ->
  calculate_relevancy_score now max_str_digits model resume job =
  {| overall_score := 0;
     skill_match := sk_score (_match_skills (map lower (skills resume)) (lower job));
     experience_match := 0; education_match := 0; title_match := 0;
     detailed_scores :=
       <["skill_match"%string :=
           DSkill (_match_skills (map lower (skills resume)) (lower job))]> ∅;
     semantic_score := None; match_summary := None |}.
Proof. intros H. unfold calculate_relevancy_score. rewrite H. reflexivity. Qed.

Lemma calc_education_raises (now : Z) (max_str_digits : nat) (model : embedding) (resume : fields)
    (job : str) (ex : exp_detail) :
  _match_experience now max_str_digits (experience resume) (lower job) = Some ex ->
  _match_education (education resume) (lower job) = None ->
  calculate_relevancy_score now max_str_digits model resume job =
  {| overall_score := 0;
     skill_match := sk_score (_match_skills (map lower (skills resume)) (lower job));
     experience_match := ex_score ex; education_match := 0; title_match := 0;
     detailed_scores :=
       <["experience_match"%string := DExp ex]>
         (<["skill_match"%string :=
              DSkill (_match_skills (map lower (skills resume)) (lower job))]> ∅);
     semantic_score := None; match_summary := None |}.
Proof.
  intros H1 H2. unfold calculate_relevancy_score. rewrite H1, H2. reflexivity.
Qed.

(** C5, counterexample. The only experience entry has [title: null], so the
    experience component raises. The education component, run on its own,
    gives 1.0 for this profile; the result has [education_match] at its
    default 0.0 and no entry for the experience or the education component
    under [detailed_scores]. *)
Lemma failed_component_stops_the_rest :
  _match_experience 2026 4300 (experience profile_null_title)
    (lower job_python_bachelor) = None
  /\ (exists dt, _match_education (education profile_null_title)
                   (lower job_python_bachelor) = Some dt
                 /\ ed_score dt = 1%Q)
  /\ education_match
       (calculate_relevancy_score 2026 4300 None profile_null_title job_python_bachelor)
     = 0%Q
  /\ detailed_scores
       (calculate_relevancy_score 2026 4300 None profile_null_title job_python_bachelor)
       !! "experience_match"%string = None
  /\ detailed_scores
       (calculate_relevancy_score 2026 4300 None profile_null_title job_python_bachelor)
       !! "education_match"%string = None.
Proof.
  assert (H : _match_experience 2026 4300 (experience profile_null_title)
                (lower job_python_bachelor) = None) by (vm_compute; reflexivity).
  split; [exact H|]. split.
  { eexists. split; vm_compute; reflexivity. }
  rewrite (calc_experience_raises _ _ _ _ _ H). cbn [education_match detailed_scores].
  split; [reflexivity|]. split; by rewrite lookup_insert_ne, lookup_empty.
Qed.

(** C5, amended. The four components run in the order skill, experience,
    education, title inside one [try]. The skill and title components cannot
    raise. When the experience component raises, the result keeps the skill
    score and its entry under [detailed_scores], and everything else keeps
    its initial value: the other three scores and the overall score are 0.0,
    [detailed_scores] has no other entry, and there is no [match_summary].
    When the education component raises, the skill and experience scores and
    entries are kept, and the education, title and overall scores are 0.0
    with no entry and no [match_summary]. *)
Theorem failed_component_keeps_earlier_scores (now : Z) (max_str_digits : nat) (model : embedding)
    (resume : fields) (job : str) :
  let r := calculate_relevancy_score now max_str_digits model resume job in
  let sk := _match_skills (map lower (skills resume)) (lower job) in
  (_match_experience now max_str_digits (experience resume) (lower job) = None ->
   skill_match r = sk_score sk
   /\ detailed_scores r = <["skill_match"%string := DSkill sk]> ∅
   /\ experience_match r = 0%Q /\ education_match r = 0%Q /\ title_match r = 0%Q
   /\ overall_score r = 0%Q /\ semantic_score r = None /\ match_summary r = None)
  /\ (forall ex,
      _match_experience now max_str_digits (experience resume) (lower job) = Some ex ->
      _match_education (education resume) (lower job) = None ->
      skill_match r = sk_score sk /\ experience_match r = ex_score ex
      /\ detailed_scores r =
         <["experience_match"%string := DExp ex]>
           (<["skill_match"%string := DSkill sk]> ∅)
      /\ education_match r = 0%Q /\ title_match r = 0%Q
      /\ overall_score r = 0%Q /\ semantic_score r = None /\ match_summary r = None).
Proof.
  intros r sk. subst r sk. split.
  - intros H. rewrite (calc_experience_raises _ _ _ _ _ H).
    cbn [skill_match detailed_scores experience_match education_match
         title_match overall_score semantic_score match_summary].
    repeat split.
  - intros ex H1 H2. rewrite (calc_education_raises _ _ _ _ _ _ H1 H2).
    cbn [skill_match detailed_scores experience_match education_match
         title_match overall_score semantic_score match_summary].
    repeat split.
Qed.

Lemma failed_component_keeps_earlier_scores_witness :
  skill_match
    (calculate_relevancy_score 2026 4300 None profile_null_title job_python_bachelor)
  = sk_score (_match_skills (map lower (skills profile_null_title))
                (lower job_python_bachelor))
  /\ education_match
       (calculate_relevancy_score 2026 4300 None profile_null_title job_python_bachelor)
     = 0%Q.
Proof.
  destruct (failed_component_keeps_earlier_scores 2026 4300 None profile_null_title
              job_python_bachelor) as [H _].
  destruct H as (H1 & _ & _ & H2 & _).
  - vm_compute. reflexivity.
  - split; [exact H1 | exact H2].
Defined.

(** C6, counterexample. The profile has a string title and a string degree,
    as every parsed profile has, and its only experience entry bears no
    date. The job text asks for a number of years of 401 digits: the
    division of the float total by that number raises, the skill score
    stored in the result is 1.0 and the overall score is 0.0, which is not
    the weighted sum of the four scores of the result (0.4). *)
Lemma overall_score_zero_after_failure :
  Forall (fun e => is_Some (title e)) (experience profile_engineer)
  /\ Forall (fun e => is_Some (degree e)) (education profile_engineer)
  /\ (skill_match
        (calculate_relevancy_score 2026 4300 None profile_engineer job_many_years)
      == 1)%Q
  /\ (overall_score
        (calculate_relevancy_score 2026 4300 None profile_engineer job_many_years)
      == 0)%Q
  /\ ~ (overall_score
          (calculate_relevancy_score 2026 4300 None profile_engineer job_many_years)
        == weighted
             (skill_match
                (calculate_relevancy_score 2026 4300 None profile_engineer job_many_years))
             (experience_match
                (calculate_relevancy_score 2026 4300 None profile_engineer job_many_years))
             (education_match
                (calculate_relevancy_score 2026 4300 None profile_engineer job_many_years))
             (title_match
                (calculate_relevancy_score 2026 4300 None profile_engineer job_many_years)))%Q.
Proof.
  split; [repeat constructor; by eexists|].
  split; [repeat constructor; by eexists|].
  split; [vm_compute; reflexivity|]. split; [vm_compute; reflexivity|].
  vm_compute. discriminate.
Qed.

Lemma weighted_bounds (s e d t : Q) :
  (0 <= s <= 1)%Q -> (0 <= e <= 1)%Q -> (0 <= d <= 1)%Q -> (0 <= t <= 1)%Q ->
  (0 <= weighted s e d t <= 1)%Q.
Proof. unfold weighted. intros [] [] [] []. split; lra. Qed.

(** The four scores of the result lie in [0,1] for every profile. *)
Lemma component_scores_bounded (now : Z) (max_str_digits : nat) (model : embedding) (resume : fields)
    (job : str) :
  let r := calculate_relevancy_score now max_str_digits model resume job in
  (0 <= skill_match r <= 1)%Q /\ (0 <= experience_match r <= 1)%Q
  /\ (0 <= education_match r <= 1)%Q /\ (0 <= title_match r <= 1)%Q.
Proof.
  intros r. subst r.
  pose proof (match_skills_score_bounds (map lower (skills resume)) (lower job)) as Hsk.
  destruct (_match_experience now max_str_digits (experience resume) (lower job)) as [ex|] eqn:Hex.
  2:{ rewrite (calc_experience_raises _ _ _ _ _ Hex).
      cbn [skill_match experience_match education_match title_match].
      repeat split; try done; apply Hsk. }
  pose proof (match_experience_score_bounds _ _ _ _ _ Hex) as Hexb.
  destruct (_match_education (education resume) (lower job)) as [ed|] eqn:Hed.
  2:{ rewrite (calc_education_raises _ _ _ _ _ _ Hex Hed).
      cbn [skill_match experience_match education_match title_match].
      repeat split; try done; try apply Hsk; apply Hexb. }
  pose proof (match_education_score_bounds _ _ _ Hed) as Hedb.
  unfold calculate_relevancy_score. rewrite Hex, Hed.
  match goal with |- context [_match_titles ?a ?b] =>
    pose proof (match_titles_score_bounds a b) as Hti end.
  destruct model;
    cbn [skill_match experience_match education_match title_match];
    repeat split; try apply Hsk; try apply Hexb; try apply Hedb; apply Hti.
Qed.

Lemma digit_val_bounds (c : ascii) : is_digit c = true -> (0 <= digit_val c <= 9)%Z.
Proof.
  unfold is_digit, in_range, digit_val.
  intros [H1 H2]%andb_true_iff. apply Nat.leb_le in H1, H2. lia.
Qed.

Lemma int_of_digits_lt_from (s : str) (acc : Z) :
  forallb is_digit s = true -> (0 <= acc)%Z ->
  (fold_left (fun a c => (a * 10 + digit_val c)%Z) s acc
   < (acc + 1) * 10 ^ Z.of_nat (length s))%Z.
Proof.
  revert acc. induction s as [|c s IH]; intros acc Hd Hacc.
  - cbn [fold_left length]. change (10 ^ Z.of_nat 0)%Z with 1%Z. lia.
  - cbn [forallb] in Hd. apply andb_true_iff in Hd as [Hc Hd].
    apply digit_val_bounds in Hc. cbn [fold_left length].
    specialize (IH (acc * 10 + digit_val c)%Z Hd ltac:(lia)).
    rewrite Nat2Z.inj_succ, Z.pow_succ_r by lia.
    assert (Hp : (0 < 10 ^ Z.of_nat (length s))%Z) by (apply Z.pow_pos_nonneg; lia).
    nia.
Qed.

(** A number of [n] decimal digits is below [10 ** n]. *)
Lemma int_of_digits_lt (s : str) :
  forallb is_digit s = true -> (int_of_digits s < 10 ^ Z.of_nat (length s))%Z.
Proof.
  intros Hd. pose proof (int_of_digits_lt_from s 0 Hd ltac:(lia)) as H.
  unfold int_of_digits. lia.
Qed.

(** The first group of [years_pattern] holds digits only. *)
Lemma years_digits_digits (job : str) (g : str) :
  years_digits job = Some g -> forallb is_digit g = true.
Proof.
  unfold years_digits.
  destruct (search false years_pattern job) as [m|] eqn:Hs; [|done]. intros Hg.
  destruct (search_group false years_pattern job m 1 g Hs Hg) as (a & Hin & Ha).
  destruct Hin as [[= <-]|[]].
  apply (all_within_sound false is_digit _ g Ha). vm_compute. reflexivity.
Qed.

(** A modest number of years passes [int] and converts to a [float]. *)
Lemma modest_years_required (max_str_digits : nat) (job : str) :
  modest_years job = true ->
  exists n, required_years_of max_str_digits job = Some n
            /\ too_large_for_float n = false.
Proof.
  unfold modest_years, required_years_of.
  pose proof (years_digits_digits job) as Hd. unfold years_digits in *.
  destruct (search false years_pattern job) as [m|]; [|by exists 0%Z].
  destruct (group job m 1) as [g|]; [|done].
  intros Hlen. apply Nat.leb_le in Hlen. specialize (Hd g eq_refl).
  exists (int_of_digits g). split.
  - unfold int_of_str.
    destruct (640 <? length g) eqn:H640; [|done].
    apply Nat.ltb_lt in H640. lia.
  - unfold too_large_for_float. apply Z.leb_gt.
    pose proof (int_of_digits_lt g Hd) as Hlt.
    assert (Hp : (10 ^ Z.of_nat (length g) <= 10 ^ 308)%Z)
      by (apply Z.pow_le_mono_r; lia).
    assert (Hb : (10 ^ 308 < 2 ^ 1024 - 2 ^ 970)%Z)
      by (apply Z.ltb_lt; vm_compute; reflexivity).
    lia.
Qed.

(** The experience component returns when every title is a string and the
    number of years that the job text asks for is modest. *)
Lemma match_experience_total (now : Z) (max_str_digits : nat) (l : list exp_entry)
    (job : str) :
  Forall (fun e => is_Some (title e)) l -> modest_years job = true ->
  is_Some (_match_experience now max_str_digits l job).
Proof.
  intros Ht Hm. unfold _match_experience.
  destruct (negb (nonempty l)); [by eexists|].
  destruct (modest_years_required max_str_digits job Hm) as (n & -> & Hn).
  destruct (relevant_experience_total l Ht) as [r Hr].
  destruct (Z.eqb n 0); [rewrite Hr; by eexists|].
  unfold num_div_int. rewrite Hn.
  destruct (sum_years now l); rewrite Hr; by eexists.
Qed.

(** C6, amended. The four scores of the result lie in [0,1] for every
    profile. When no component raises: without a semantic back end the
    overall score is the value of the weighted sum of the four scores of
    the result and lies in [0,1]; with one, it is that sum times 0.7 plus
    the semantic score times 0.3. No component raises when every experience
    title and every education degree of the profile is a string and the
    number of years that the job text asks for, if any, has at most 308
    digits. *)
Theorem overall_score_is_weighted_sum (now : Z) (max_str_digits : nat)
    (model : embedding) (resume : fields) (job : str) :
  let r := calculate_relevancy_score now max_str_digits model resume job in
  ((0 <= skill_match r <= 1)%Q /\ (0 <= experience_match r <= 1)%Q
   /\ (0 <= education_match r <= 1)%Q /\ (0 <= title_match r <= 1)%Q)
  /\ (is_Some (_match_experience now max_str_digits (experience resume) (lower job)) ->
      is_Some (_match_education (education resume) (lower job)) ->
      (model = None ->
       overall_score r
       = weighted (skill_match r) (experience_match r) (education_match r)
           (title_match r)
       /\ (0 <= overall_score r <= 1)%Q)
      /\ (forall f, model = Some f ->
          semantic_score r = Some (_semantic_match f resume job)
          /\ overall_score r
             = (weighted (skill_match r) (experience_match r)
                  (education_match r) (title_match r) * (7 # 10)
                + _semantic_match f resume job * (3 # 10))%Q))
  /\ (Forall (fun e => is_Some (title e)) (experience resume) ->
      Forall (fun e => is_Some (degree e)) (education resume) ->
      modest_years (lower job) = true ->
      is_Some (_match_experience now max_str_digits (experience resume) (lower job))
      /\ is_Some (_match_education (education resume) (lower job))).
Proof.
  intros r. split; [apply component_scores_bounded|]. split.
  - intros [ex Hex] [ed Hed].
    pose proof (component_scores_bounded now max_str_digits model resume job) as Hb.
    fold r in Hb. destruct Hb as (Hb1 & Hb2 & Hb3 & Hb4).
    assert (Hr : r = calculate_relevancy_score now max_str_digits model resume job)
      by reflexivity.
    unfold calculate_relevancy_score in Hr. rewrite Hex, Hed in Hr.
    split.
    + intros ->.
      assert (Ho : overall_score r
                   = weighted (skill_match r) (experience_match r)
                       (education_match r) (title_match r))
        by (rewrite Hr; reflexivity).
      split; [exact Ho|]. rewrite Ho. by apply weighted_bounds.
    + intros f ->. rewrite Hr. split; reflexivity.
  - intros Ht Hd Hm. split.
    + by apply match_experience_total.
    + by apply match_education_total.
Qed.

Lemma overall_score_is_weighted_sum_witness :
  modest_years (lower job_python_bachelor) = true
  /\ overall_score
       (calculate_relevancy_score 2026 4300 None profile_engineer job_python_bachelor)
     = weighted
         (skill_match
            (calculate_relevancy_score 2026 4300 None profile_engineer job_python_bachelor))
         (experience_match
            (calculate_relevancy_score 2026 4300 None profile_engineer job_python_bachelor))
         (education_match
            (calculate_relevancy_score 2026 4300 None profile_engineer job_python_bachelor))
         (title_match
            (calculate_relevancy_score 2026 4300 None profile_engineer job_python_bachelor)).
Proof.
  assert (Hm : modest_years (lower job_python_bachelor) = true)
    by (vm_compute; reflexivity).
  split; [exact Hm|].
  destruct (overall_score_is_weighted_sum 2026 4300 None profile_engineer
              job_python_bachelor) as (_ & Hsum & Htot).
  destruct Htot as [Hex Hed].
  - repeat constructor; by eexists.
  - repeat constructor; by eexists.
  - exact Hm.
  - destruct (Hsum Hex Hed) as [H _]. destruct (H eq_refl) as [Ho _]. exact Ho.
Defined.

End MatchingClaims2.

(** * Further properties of the services *)


(** ** Case-insensitive matching *)

Section IgnoreCase.

Lemma case_facts (x : ascii) :
  to_lower (to_lower x) = to_lower x
  /\ to_upper (to_lower x) = to_upper x
  /\ (x = to_lower x \/ x = to_upper x).
Proof.
  assert (H : forall c,
             (Ascii.eqb (to_lower (to_lower c)) (to_lower c)
              && Ascii.eqb (to_upper (to_lower c)) (to_upper c)
              && (Ascii.eqb c (to_lower c) || Ascii.eqb c (to_upper c))) = true).
  { apply forallb_all_ascii. vm_compute. reflexivity. }
  specialize (H x). apply andb_true_iff in H as [H H3].
  apply andb_true_iff in H as [H1 H2].
  apply Ascii.eqb_eq in H1, H2. split; [done|]. split; [done|].
  apply orb_true_iff in H3 as [H3|H3]; apply Ascii.eqb_eq in H3; auto.
Qed.

(** Under [re.IGNORECASE] a class accepts a character exactly when it accepts
    its lower case. *)
Lemma accepts_to_lower (p : ascii -> bool) (x : ascii) :
  accepts true p (to_lower x) = accepts true p x.
Proof.
  unfold accepts. cbn [andb].
  destruct (case_facts x) as (H1 & H2 & H3). rewrite H1, H2.
  assert (Hp : p x = p (to_lower x) \/ p x = p (to_upper x)).
  { destruct H3 as [H3|H3]; [left | right]; by rewrite <- H3. }
  destruct Hp as [-> | ->]; by destruct (p (to_lower x)), (p (to_upper x)).
Qed.

Lemma eqb_nl_lower (c : ascii) : Ascii.eqb (to_lower c) nl = Ascii.eqb c nl.
Proof.
  apply Bool.eqb_prop. revert c. apply forallb_all_ascii. vm_compute. reflexivity.
Qed.

Lemma at_boundary_lower (st : mstate) : at_boundary (lower_st st) = at_boundary st.
Proof.
  unfold at_boundary, lower_st. cbn [prev rest].
  by rewrite head_lower, !is_word_opt_lower.
Qed.

Lemma rep_loop_lower (ma : mstate -> (mstate -> option mstate) -> option mstate)
    (lo : nat) (hi : option nat) :
  (forall st k1 k2, (forall s, lower_res (k1 (lower_st s)) (k2 s)) ->
                    lower_res (ma (lower_st st) k1) (ma st k2)) ->
  forall fuel n st k1 k2,
    (forall s, lower_res (k1 (lower_st s)) (k2 s)) ->
    lower_res (rep_loop ma lo hi k1 fuel n (lower_st st))
              (rep_loop ma lo hi k2 fuel n st).
Proof.
  intros Hma. induction fuel as [|fuel IH]; intros n st k1 k2 Hk; cbn [rep_loop].
  - done.
  - destruct (under n hi).
    + match goal with
      | |- lower_res (match ma _ ?f1 with _ => _ end)
                     (match ma _ ?f2 with _ => _ end) =>
          assert (Hm : lower_res (ma (lower_st st) f1) (ma st f2))
      end.
      { apply Hma. intros s. cbn [lower_st rest]. rewrite !lower_length.
        destruct (length (rest s) <? length (rest st)); [by apply IH | done]. }
      unfold lower_res in Hm. rewrite Hm.
      match goal with
      | |- context [ma st ?f2] => destruct (ma st f2) as [x|]
      end; cbn [fmap option_fmap option_map]; [done|].
      destruct (lo <=? n); [apply Hk | done].
    + destruct (lo <=? n); [apply Hk | done].
Qed.

(** Under [re.IGNORECASE] the matcher runs over the lower-cased subject as
    it runs over the subject. *)
Lemma rmatch_lower (r : re) :
  forall st k1 k2, (forall s, lower_res (k1 (lower_st s)) (k2 s)) ->
                   lower_res (rmatch true r (lower_st st) k1) (rmatch true r st k2).
Proof.
  induction r as [ |p|a IHa b IHb|a IHa b IHb|a IHa lo hi| | | |n a IHa];
    intros st k1 k2 Hk; cbn [rmatch].
  - apply Hk.
  - cbn [lower_st rest]. destruct (rest st) as [|c t]; [done|].
    cbn [lower map]. rewrite accepts_to_lower.
    destruct (accepts true p c); [|done]. apply (Hk (advance c t st)).
  - apply IHa. intros s. by apply IHb.
  - pose proof (IHa st k1 k2 Hk) as Ha. unfold lower_res in Ha. rewrite Ha.
    destruct (rmatch true a st k2); cbn [fmap option_fmap option_map]; [done|].
    by apply IHb.
  - cbn [lower_st rest]. rewrite lower_length.
    by apply (rep_loop_lower (rmatch true a) lo hi IHa).
  - cbn [lower_st prev]. destruct (prev st); [done | apply Hk].
  - cbn [lower_st rest]. destruct (rest st) as [|c [|c' t]]; cbn [lower map].
    + apply Hk.
    + rewrite eqb_nl_lower. destruct (Ascii.eqb c nl); [apply Hk | done].
    + done.
  - rewrite at_boundary_lower. destruct (at_boundary st); [apply Hk | done].
  - apply IHa. intros s. apply (Hk (set_cap n (pos st) (pos s) s)).
Qed.

Lemma match_at_lower (r : re) (pv : option ascii) (s : str) (i : nat) :
  match_at true r (to_lower <$> pv) (lower s) i = match_at true r pv s i.
Proof.
  unfold match_at.
  pose proof (rmatch_lower r (MState pv s i []) Some Some) as H.
  unfold lower_res in H.
  change (MState (to_lower <$> pv) (lower s) i [])
    with (lower_st (MState pv s i [])).
  rewrite H by done.
  by destruct (rmatch true r (MState pv s i []) Some).
Qed.

Lemma search_from_lower (r : re) (s : str) :
  forall (pv : option ascii) (i : nat),
    search_from true r (to_lower <$> pv) (lower s) i = search_from true r pv s i.
Proof.
  induction s as [|c s IH]; intros pv i.
  - cbn [search_from lower map]. change [] with (lower []) at 1.
    rewrite match_at_lower. by destruct (match_at true r pv [] i).
  - rewrite search_from_unfold. cbn [search_from].
    rewrite match_at_lower. destruct (match_at true r pv (c :: s) i); [done|].
    apply (IH (Some c)).
Qed.

(** Lower-casing the subject of a case-insensitive search does not change
    the match. *)
Lemma search_lower (r : re) (s : str) :
  search true r (lower s) = search true r s.
Proof. apply (search_from_lower r s None 0). Qed.

End IgnoreCase.

(** ** The entries the parser builds *)

Section ExperienceShape.

Import Examples.

Lemma date_title_len (line t : str) :
  date_title line = Some t -> 5 < length t /\ length t < 100.
Proof.
  unfold date_title. destruct (search true date_title_pattern line); [|done].
  destruct (truthy _); [|done].
  destruct (good_title_len _) eqn:H; [|done]. intros [= <-].
  unfold good_title_len in H. apply andb_true_iff in H as [H1 H2].
  apply Nat.ltb_lt in H1, H2. done.
Qed.

Lemma standard_title_len (patterns : list re) (line t : str) :
  standard_title patterns line = Some t -> 5 < length t /\ length t < 100.
Proof.
  induction patterns as [|r rs IH]; cbn [standard_title]; [done|].
  destruct (search true r line); [|done].
  destruct (good_title_len _) eqn:H; [|done]. intros [= <-].
  unfold good_title_len in H. apply andb_true_iff in H as [H1 H2].
  apply Nat.ltb_lt in H1, H2. done.
Qed.

Lemma find_title_len (line t : str) :
  find_title line = Some t -> 5 < length t /\ length t < 100.
Proof.
  unfold find_title. destruct (date_title line) eqn:H.
  - intros [= <-]. by apply date_title_len in H.
  - apply standard_title_len.
Qed.

Lemma new_exp_ok (t : str) : 5 < length t -> length t < 100 -> exp_entry_ok (new_exp t).
Proof. intros H1 H2. split; [by exists t|]. repeat split; done. Qed.

Lemma set_company_ok (e : exp_entry) (c : str) :
  c <> [] -> exp_entry_ok e -> exp_entry_ok (set_company e c).
Proof.
  intros Hc (Ht & _ & He & Ha & Hte). split; [done|]. split; [|done].
  cbn. congruence.
Qed.

Lemma set_start_date_ok (e : exp_entry) (x : str) :
  exp_entry_ok e -> exp_entry_ok (set_start_date e x).
Proof. intros H. exact H. Qed.

Lemma set_end_date_ok (e : exp_entry) (x : str) :
  x <> [] -> exp_entry_ok e -> exp_entry_ok (set_end_date e x).
Proof.
  intros Hx (Ht & Hc & _ & Ha & Hte). split; [done|]. split; [done|].
  split; [|done]. cbn. congruence.
Qed.

Lemma set_description_ok (e : exp_entry) (x : str) :
  exp_entry_ok e -> exp_entry_ok (set_description e x).
Proof. intros H. exact H. Qed.

Lemma truthy_nonempty (s : str) : truthy s = true -> s <> [].
Proof. by destruct s. Qed.

Lemma longer_nonempty (s : str) (n : nat) : (n <? length s) = true -> s <> [].
Proof. intros H ->. cbn in H. by destruct n. Qed.

Lemma company_from_orgs_ok (orgs : list str) (line : str) (e : exp_entry) :
  exp_entry_ok e -> exp_entry_ok (company_from_orgs orgs line e).
Proof.
  intros H. unfold company_from_orgs. destruct (some_truthy (company e)); [done|].
  destruct (List.find _ orgs) as [org|] eqn:Hf; [|done].
  apply find_some in Hf as [_ Hf].
  apply andb_true_iff in Hf as [Hf _]. apply andb_true_iff in Hf as [Hf _].
  apply set_company_ok; [by apply truthy_nonempty | done].
Qed.

Lemma company_from_well_known_ok (line : str) (e : exp_entry) :
  exp_entry_ok e -> exp_entry_ok (company_from_well_known line e).
Proof.
  intros H. unfold company_from_well_known.
  destruct (some_truthy (company e)); [done|].
  destruct (List.find _ well_known_companies) as [c|] eqn:Hf; [|done].
  apply find_some in Hf as [_ Hf].
  apply andb_true_iff in Hf as [Hf _]. apply andb_true_iff in Hf as [Hf _].
  apply andb_true_iff in Hf as [Hf _].
  apply set_company_ok; [by apply truthy_nonempty | done].
Qed.

Lemma company_from_line_ok (line : str) (e : exp_entry) :
  exp_entry_ok e -> exp_entry_ok (company_from_line line e).
Proof.
  intros H. unfold company_from_line. destruct (some_truthy (company e)); [done|].
  destruct (truthy line) eqn:Hl; [|done]. cbn [andb].
  destruct (_ && _ && _ && _ && _); [|done].
  apply set_company_ok; [by apply truthy_nonempty | done].
Qed.

Lemma company_from_separator_ok (line : str) (e : exp_entry) :
  exp_entry_ok e -> exp_entry_ok (company_from_separator line e).
Proof.
  intros H. unfold company_from_separator.
  destruct (some_truthy (company e)); [done|].
  destruct (search true company_at_pattern line) as [m|]; [|done].
  destruct (group line m 1) as [g|]; [|done].
  destruct (3 <? length (strip g)) eqn:Hl; [|done].
  destruct (length (strip g) <? 100); [|done]. cbn [andb].
  apply set_company_ok; [by eapply longer_nonempty | done].
Qed.

(** A match of a pattern whose matches have at least one character is not
    empty. *)
Lemma findall_nonempty (ic : bool) (r : re) (s x : str) :
  1 <= min_count ic (fun _ => true) r -> In x (findall ic r s) -> x <> [].
Proof.
  intros Hmin Hin. unfold findall in Hin. apply in_map_iff in Hin as (m & <- & Hm).
  apply finditer_sound in Hm as (pre & w & post & Hw & _ & _ & _ & ->).
  pose proof (min_count_sound ic (fun _ => true) r w Hw) as Hc.
  rewrite count_true_length in Hc. intros ->. cbn in Hc. lia.
Qed.

Lemma date_patterns_nonempty (r : re) :
  In r date_patterns -> 1 <= min_count true (fun _ => true) r.
Proof.
  unfold date_patterns. intros H.
  repeat destruct H as [<-|H]; try done; apply Nat.leb_le; vm_compute; reflexivity.
Qed.

Lemma dates_from_patterns_ok (patterns : list re) (line : str) (e : exp_entry) :
  (forall r, In r patterns -> 1 <= min_count true (fun _ => true) r) ->
  exp_entry_ok e -> exp_entry_ok (dates_from_patterns patterns line e).
Proof.
  intros Hp He. induction patterns as [|r rs IH]; cbn [dates_from_patterns]; [done|].
  destruct (findall true r line) as [|d0 more] eqn:Hf.
  - apply IH. intros r' Hr'. apply Hp. by right.
  - assert (He1 : exp_entry_ok
                    (if some_truthy (start_date e) then e else set_start_date e d0)).
    { destruct (some_truthy (start_date e)); [done | by apply set_start_date_ok]. }
    destruct more as [|d1 more'].
    + destruct (mentions_present line); [|done]. by apply set_end_date_ok.
    + apply set_end_date_ok; [|done].
      apply (findall_nonempty true r line); [apply Hp; by left|].
      rewrite Hf. right. by left.
Qed.

Lemma dates_from_range_ok (line : str) (e : exp_entry) :
  exp_entry_ok e -> exp_entry_ok (dates_from_range line e).
Proof.
  intros He. unfold dates_from_range.
  destruct (if truthy line then _ else None) as [m|]; [|done].
  set (e1 := if some_truthy (start_date e) then e else _).
  assert (He1 : exp_entry_ok e1).
  { subst e1. destruct (some_truthy (start_date e)); [done|].
    destruct (group line m 1) as [g|]; [|done].
    destruct (truthy g); [by apply set_start_date_ok | done]. }
  destruct (group line m 2) as [g|]; [|done].
  destruct (truthy g); [|done].
  destruct (truthy (strip g)) eqn:Hs; cbn [andb]; [|done].
  destruct (mem (lower (strip g)) present_words).
  - by apply set_end_date_ok.
  - apply set_end_date_ok; [by apply truthy_nonempty | done].
Qed.

Lemma add_description_ok (line : str) (e : exp_entry) :
  exp_entry_ok e -> exp_entry_ok (add_description line e).
Proof.
  intros He. unfold add_description.
  destruct (_ && _); [|done].
  destruct (truthy (description e)).
  - destruct (negb _); [by apply set_description_ok | done].
  - destruct (_ || _); [by apply set_description_ok | done].
Qed.

Lemma exp_chain_ok (orgs : list str) (line : str) (e : exp_entry) :
  exp_entry_ok e ->
  exp_entry_ok
    (add_description line
       (dates_from_range line
          (dates_from_patterns date_patterns line
             (company_from_separator line
                (company_from_line line
                   (company_from_well_known line
                      (company_from_orgs orgs line e))))))).
Proof.
  intros He.
  apply add_description_ok, dates_from_range_ok.
  apply dates_from_patterns_ok; [apply date_patterns_nonempty|].
  by apply company_from_separator_ok, company_from_line_ok,
    company_from_well_known_ok, company_from_orgs_ok.
Qed.

(** The invariant of the loop over the lines: the entries committed so far
    and the current entry, if any, have the shape [exp_entry_ok]. *)
Lemma exp_step_ok (orgs : list str) (st : list exp_entry * option exp_entry)
    (line : str) :
  Forall exp_entry_ok (fst st) ->
  (forall e, snd st = Some e -> exp_entry_ok e) ->
  Forall exp_entry_ok (fst (exp_step orgs st line))
  /\ (forall e, snd (exp_step orgs st line) = Some e -> exp_entry_ok e).
Proof.
  destruct st as [experience current]. cbn [fst snd]. intros Hl Hc.
  unfold exp_step.
  destruct (negb (truthy line)); [done|].
  destruct (negb (truthy (strip line)) || (length (strip line) <? 5)).
  { destruct current as [e|]; [|done].
    destruct (some_truthy (title e)); [|done]. cbn [fst snd]. split; [|done].
    apply Forall_app. split; [done|]. apply Forall_singleton. by apply Hc. }
  set (line' := if 500 <? length (strip line) then _ else _).
  destruct (find_title line') as [t|] eqn:Ht.
  - cbn [fst snd]. split.
    + unfold commit_exp. destruct current as [e|]; [|done].
      destruct (some_truthy (title e)); [|done].
      apply Forall_app. split; [done|]. apply Forall_singleton. by apply Hc.
    + intros e [= <-]. apply find_title_len in Ht as [H1 H2]. by apply new_exp_ok.
  - destruct current as [e|]; [|done]. cbn [fst snd]. split; [done|].
    intros e' He'. injection He' as He'. rewrite <- He'.
    apply (exp_chain_ok orgs line' e). by apply Hc.
Qed.

Lemma exp_fold_ok (orgs : list str) (lines : list str)
    (st : list exp_entry * option exp_entry) :
  Forall exp_entry_ok (fst st) ->
  (forall e, snd st = Some e -> exp_entry_ok e) ->
  Forall exp_entry_ok (fst (fold_left (exp_step orgs) lines st))
  /\ (forall e, snd (fold_left (exp_step orgs) lines st) = Some e ->
                exp_entry_ok e).
Proof.
  revert st. induction lines as [|l ls IH]; intros st H1 H2; cbn [fold_left].
  - done.
  - destruct (exp_step_ok orgs st l H1 H2) as [H3 H4]. by apply IH.
Qed.

Lemma extract_experience_ok (env : Env) (cleaned_text original_text : str) :
  Forall exp_entry_ok (_extract_experience_enhanced env cleaned_text original_text).
Proof.
  unfold _extract_experience_enhanced.
  set (lines := split_on nl _). set (orgs := spacy_orgs env _).
  destruct (exp_fold_ok orgs lines ([], None)) as [H1 H2]; [done|done|].
  destruct (fold_left (exp_step orgs) lines ([], None)) as [experience current].
  cbn [fst snd] in *. unfold commit_exp. destruct current as [e|]; [|done].
  destruct (some_truthy (title e)); [|done].
  apply Forall_app. split; [done|]. apply Forall_singleton. by apply H2.
Qed.

(** X1. Every experience entry of a parsed profile has a title of 6 to 99
    characters; its company and its end date, when present, are not empty;
    and its lists of achievements and of technologies are empty, since the
    parser never fills them. This holds for every input and every NER back
    end. *)
Theorem parsed_experience_entries (env : Env) (input : pyval) :
  Forall exp_entry_ok (experience (data (parse env input))).
Proof. cbn [parse data experience]. apply extract_experience_ok. Qed.

End ExperienceShape.

Section EducationShape.

Lemma strip_length_le (s : str) : length (strip s) <= length s.
Proof.
  assert (Hl : forall t : str, length (lstrip t) <= length t).
  { induction t as [|c t IH]; cbn [lstrip length]; [lia|].
    destruct (is_space c); cbn [length]; lia. }
  unfold strip, rstrip. rewrite length_rev.
  etransitivity; [apply Hl|]. rewrite length_rev. apply Hl.
Qed.

Lemma strip_count_le (s : str) : count non_space s <= length (strip s).
Proof. rewrite <- strip_count. apply count_le_length. Qed.

Lemma degree_patterns_count (r : re) :
  In r degree_patterns -> 2 <= min_count true non_space r.
Proof.
  unfold degree_patterns. intros H.
  repeat destruct H as [<-|H]; try done; apply Nat.leb_le; vm_compute; reflexivity.
Qed.

Lemma find_degree_len (patterns : list re) (line dg : str) :
  (forall r, In r patterns -> 2 <= min_count true non_space r) ->
  find_degree patterns line = Some dg -> 2 <= length dg <= 100.
Proof.
  intros Hp. induction patterns as [|r rs IH]; cbn [find_degree]; [done|].
  destruct (search true r line) as [m|] eqn:Hs.
  - apply search_sound in Hs as (pre & w & post & Hw & _ & _ & _ & Hg).
    rewrite Hg. pose proof (min_count_sound true non_space r w Hw) as Hc.
    pose proof (Hp r (or_introl eq_refl)) as Hr.
    pose proof (strip_count_le w) as Hl.
    destruct (100 <? length (strip w)) eqn:Hlen; intros [= <-].
    + apply Nat.ltb_lt in Hlen. rewrite length_take. lia.
    + apply Nat.ltb_ge in Hlen. lia.
  - apply IH. intros r' Hr'. apply Hp. by right.
Qed.

Lemma accepts_eqb (a c : ascii) : accepts false (Ascii.eqb a) c = true -> c = a.
Proof.
  unfold accepts. rewrite andb_false_l, orb_false_r.
  intros H. apply Ascii.eqb_eq in H. done.
Qed.

Lemma year_pattern_matches (w : str) :
  Matches false year_pattern w -> year_string w.
Proof.
  intros Hw. split; [|split].
  - apply (matches_length false year_pattern w 4 Hw); reflexivity.
  - apply (all_within_sound false is_digit year_pattern w Hw). vm_compute. reflexivity.
  - unfold year_pattern in Hw. cbn [seqs] in Hw.
    inversion Hw as [| |a b w1 w2 H1 H2| | | | | | | |]; subst.
    inversion H1; subst. clear H1 Hw.
    inversion H2 as [| |a b w1 w3 H3 H4| | | | | | | |]; subst. clear H2 H4.
    inversion H3 as [| | | | | | | | | |n a w H5]; subst. clear H3.
    unfold words in H5. cbn [map alts word lit lits] in H5.
    inversion H5 as [| | |a b w H6|a b w H6| | | | | |]; subst; clear H5.
    + left. inversion H6 as [| |a b x y Hx Hy| | | | | | | |]; subst.
      inversion Hx as [|p c Hc| | | | | | | | |]; subst.
      inversion Hy as [|p c' Hc'| | | | | | | | |]; subst.
      apply accepts_eqb in Hc, Hc'. subst. reflexivity.
    + right. inversion H6 as [| |a b x y Hx Hy| | | | | | | |]; subst.
      inversion Hx as [|p c Hc| | | | | | | | |]; subst.
      inversion Hy as [|p c' Hc'| | | | | | | | |]; subst.
      apply accepts_eqb in Hc, Hc'. subst. reflexivity.
Qed.

Lemma edu_institution_ok (line : str) (e : edu_entry) :
  edu_entry_ok e -> edu_entry_ok (edu_institution line e).
Proof.
  intros He. unfold edu_institution.
  destruct (some_truthy (institution e)); [done|].
  destruct (search false institution_pattern line) as [m|].
  - destruct (group line m 1) as [g|]; [|done].
    destruct (length (strip g) <=? 100); done.
  - destruct (_ && _); [|done].
    destruct (inst_words_loop _ _ _); done.
Qed.

Lemma edu_year_ok (line : str) (e : edu_entry) :
  edu_entry_ok e -> edu_entry_ok (edu_year line e).
Proof.
  intros He. unfold edu_year.
  destruct (search false year_pattern line) as [m|] eqn:Hs; [|done].
  destruct (some_truthy (year e)); [done|].
  apply search_sound in Hs as (pre & w & post & Hw & _ & _ & _ & Hg).
  destruct He as (Hd & _ & Hf & Hh). split; [done|]. split; [|done].
  cbn [year set_year]. intros y [= <-]. rewrite Hg. by apply year_pattern_matches.
Qed.

Lemma edu_gpa_ok (line : str) (e : edu_entry) :
  edu_entry_ok e -> edu_entry_ok (edu_gpa line e).
Proof.
  intros He. unfold edu_gpa.
  destruct (search true gpa_pattern line) as [m|]; [|done].
  destruct (group line m 1) as [g|]; done.
Qed.

Lemma new_edu_ok (dg : str) : 2 <= length dg <= 100 -> edu_entry_ok (new_edu dg).
Proof. intros H. split; [by exists dg|]. repeat split; done. Qed.

Lemma commit_edu_ok (education : list edu_entry) (current : option edu_entry) :
  Forall edu_entry_ok education ->
  (forall e, current = Some e -> edu_entry_ok e) ->
  Forall edu_entry_ok (commit_edu education current).
Proof.
  intros Hl Hc. unfold commit_edu. destruct current as [e|]; [|done].
  destruct (some_truthy (degree e)); [|done].
  apply Forall_app. split; [done|]. apply Forall_singleton. by apply Hc.
Qed.

Lemma edu_step_ok (st : list edu_entry * option edu_entry) (line : str) :
  Forall edu_entry_ok (fst st) ->
  (forall e, snd st = Some e -> edu_entry_ok e) ->
  Forall edu_entry_ok (fst (edu_step st line))
  /\ (forall e, snd (edu_step st line) = Some e -> edu_entry_ok e).
Proof.
  destruct st as [education current]. cbn [fst snd]. intros Hl Hc.
  unfold edu_step.
  destruct (negb (truthy line)); [done|].
  destruct (negb (truthy (strip line)) || (length (strip line) <? 5)).
  { destruct current as [e|]; [|done].
    destruct (some_truthy (degree e)); [|done]. cbn [fst snd]. split; [|done].
    apply Forall_app. split; [done|]. apply Forall_singleton. by apply Hc. }
  set (line' := if 300 <? length (strip line) then _ else _).
  destruct (find_degree degree_patterns line') as [dg|] eqn:Hd.
  - cbn [fst snd]. split; [by apply commit_edu_ok|].
    intros e He. injection He as He. rewrite <- He.
    apply edu_gpa_ok, edu_year_ok, edu_institution_ok, new_edu_ok.
    eapply find_degree_len; [apply degree_patterns_count | exact Hd].
  - destruct current as [e|]; [|done]. cbn [fst snd]. split; [done|].
    intros e' He. injection He as He. rewrite <- He.
    apply edu_gpa_ok, edu_year_ok, edu_institution_ok. by apply Hc.
Qed.

Lemma edu_fold_ok (lines : list str) (st : list edu_entry * option edu_entry) :
  Forall edu_entry_ok (fst st) ->
  (forall e, snd st = Some e -> edu_entry_ok e) ->
  Forall edu_entry_ok (fst (fold_left edu_step lines st))
  /\ (forall e, snd (fold_left edu_step lines st) = Some e -> edu_entry_ok e).
Proof.
  revert st. induction lines as [|l ls IH]; intros st H1 H2; cbn [fold_left].
  - done.
  - destruct (edu_step_ok st l H1 H2) as [H3 H4]. by apply IH.
Qed.

Lemma extract_education_ok (cleaned_text original_text : str) :
  Forall edu_entry_ok (_extract_education_enhanced cleaned_text original_text).
Proof.
  unfold _extract_education_enhanced.
  set (lines := split_on nl _).
  destruct (edu_fold_ok lines ([], None)) as [H1 H2]; [done|done|].
  destruct (fold_left edu_step lines ([], None)) as [education current].
  by apply commit_edu_ok.
Qed.

(** X2. Every education entry of a parsed profile has a degree of 2 to 100
    characters; its year, when present, is a string of four digits that
    starts with 19 or 20; its field is [None] and its list of honors is
    empty, since the parser never fills them. *)
Theorem parsed_education_entries (env : Env) (input : pyval) :
  Forall edu_entry_ok (education (data (parse env input))).
Proof. cbn [parse data education]. apply extract_education_ok. Qed.

End EducationShape.

Section SkillsShape.

Import Examples.

Lemma add_new_Forall (P : str -> Prop) (l : list str) (x : str) :
  Forall P l -> P x -> Forall P (add_new l x).
Proof.
  intros Hl Hx. unfold add_new. destruct (mem x l); [done|].
  apply Forall_app. split; [done|]. by apply Forall_singleton.
Qed.

Lemma vocab_fold_ok (section : str) (vocab : list str) (acc : list str) :
  vocab ⊆ EnhancedParser.common_skills ->
  Forall skill_ok acc -> Forall skill_ok (fold_left (vocab_step section) vocab acc).
Proof.
  revert acc. induction vocab as [|x vocab IH]; intros acc Hsub Hacc;
    cbn [fold_left]; [done|].
  apply IH.
  - intros y Hy. apply Hsub. by apply list_elem_of_further.
  - unfold vocab_step. destruct (bool_decide _); [|done].
    apply add_new_Forall; [done|]. left. apply Hsub, list_elem_of_here.
Qed.

Lemma token_step_ok (l : list str) (t : str) :
  Forall skill_ok l -> Forall skill_ok (token_step l t).
Proof.
  intros Hl. unfold token_step.
  destruct (truthy t && (3 <=? length t) && (length t <=? 50)) eqn:Hc; [|done].
  apply andb_true_iff in Hc as [Hc H50]. apply andb_true_iff in Hc as [_ H3].
  apply Nat.leb_le in H3, H50.
  destruct (List.find _ EnhancedParser.common_skills) as [known|] eqn:Hf.
  - apply find_some in Hf as [Hin _].
    apply add_new_Forall; [done|]. left. by apply list_elem_of_In.
  - destruct t as [|c t']; [done|].
    destruct (is_upper c && negb (mem (c :: t') l)) eqn:Hu; [|done].
    apply andb_true_iff in Hu as [Hu _].
    apply Forall_app. split; [done|]. apply Forall_singleton. right.
    split; [done|]. by exists c, t'.
Qed.

Lemma line_step_ok (l : list str) (line : str) :
  Forall skill_ok l -> Forall skill_ok (line_step l line).
Proof.
  intros H. unfold line_step. destruct (List.find _ separators); [|done].
  apply fold_left_invariant; [apply token_step_ok | done].
Qed.

Lemma collected_skills_ok (section : str) : Forall skill_ok (collected_skills section).
Proof.
  unfold collected_skills.
  apply fold_left_invariant; [apply line_step_ok|].
  by apply vocab_fold_ok.
Qed.

Lemma set_order_elem_of (env : Env) (l : list str) (x : str) :
  set_order_ok env -> NoDup l -> x ∈ set_order env l <-> x ∈ l.
Proof.
  intros Hset Hnd. pose proof (Hset l) as Hp.
  rewrite (dedup_str_NoDup _ Hnd) in Hp. by rewrite Hp.
Qed.

(** X3. Whatever the order in which the set enumerates its elements, every
    skill that [_extract_skills_enhanced] returns is an entry of the
    vocabulary, in the vocabulary's spelling, or a token of 3 to 50
    characters that starts with an upper-case letter. *)
Theorem extracted_skills_ok (env : Env) (cleaned_text original_text : str) :
  set_order_ok env ->
  Forall skill_ok (_extract_skills_enhanced env cleaned_text original_text).
Proof.
  intros Hset. unfold _extract_skills_enhanced. set (section := section_or _ _).
  apply Forall_forall. intros x Hx.
  apply (set_order_elem_of env _ x Hset (collected_skills_NoDup section)) in Hx.
  pose proof (collected_skills_ok section) as H.
  rewrite Forall_forall in H. by apply H.
Qed.

Lemma extracted_skills_ok_witness :
  set_order_ok plain_env
  /\ Forall skill_ok (_extract_skills_enhanced plain_env text_scenario text_scenario).
Proof.
  assert (H : set_order_ok plain_env) by (intros l; reflexivity).
  split; [exact H|].
  exact (extracted_skills_ok plain_env text_scenario text_scenario H).
Defined.

End SkillsShape.

Section Languages.

Import Examples.

(** A case-insensitive search for [\bkeyword\b] succeeds exactly when the
    keyword occurs in the text as a whole word. *)
Lemma search_whole_word_iff (kw text : str) :
  kw <> [] ->
  is_Some (search true (whole_word kw) text) <-> occurs_whole_word kw text.
Proof.
  intros Hkw. pose proof (search_whole_word kw text Hkw) as H.
  rewrite search_lower in H. unfold occurs_whole_word.
  destruct (search true (whole_word kw) text) as [m|].
  - destruct H as (i & Hi & _). split; [by exists i | by eexists].
  - split; [by intros [? ?]|]. intros [i Hi]. rewrite H in Hi. discriminate.
Qed.

Lemma common_langs_nonempty (lang : str) : In lang common_langs -> lang <> [].
Proof.
  unfold common_langs. intros H. repeat destruct H as [<-|H]; done.
Qed.

Lemma extract_languages_in (text lang : str) :
  In lang (_extract_languages text) -> In lang common_langs.
Proof.
  unfold _extract_languages.
  destruct (_find_section text lang_keywords) as [sec|]; [|done].
  destruct (truthy sec); [|done]. intros H. by apply filter_In in H as [H _].
Qed.

(** X4. [_extract_languages] returns the languages of its list that occur as
    whole words, ignoring case, in the section found under the heading
    [languages] or [language], in the order of the list; without such a
    section it returns nothing. *)
Theorem languages_spec (text lang : str) :
  (lang ∈ _extract_languages text <->
   In lang common_langs
   /\ exists sec, _find_section text lang_keywords = Some sec
                  /\ occurs_whole_word lang sec)
  /\ sublist (_extract_languages text) common_langs.
Proof.
  unfold _extract_languages. split.
  - destruct (_find_section text lang_keywords) as [sec|].
    + destruct (truthy sec) eqn:Hsec.
      * rewrite list_elem_of_In, filter_In, bool_decide_eq_true. split.
        -- intros [Hin Hs]. split; [done|]. exists sec. split; [done|].
           apply search_whole_word_iff; [by apply common_langs_nonempty | done].
        -- intros [Hin (sec' & [= <-] & Ho)]. split; [done|].
           apply search_whole_word_iff; [by apply common_langs_nonempty | done].
      * split; [by intros H%elem_of_nil|].
        intros [Hin (sec' & [= <-] & i & Hi)]. destruct sec; [|done].
        apply whole_word_at_in_range in Hi; [|by apply common_langs_nonempty].
        pose proof (common_langs_nonempty lang Hin).
        destruct lang; [done|]. cbn [length] in Hi. lia.
    + split; [by intros H%elem_of_nil|]. by intros [_ (sec & ? & _)].
  - destruct (_find_section text lang_keywords) as [sec|];
      [|apply sublist_nil_l].
    destruct (truthy sec); [|apply sublist_nil_l].
    generalize common_langs. intros l. induction l as [|x l IH]; [done|].
    cbn [List.filter]. destruct (bool_decide _).
    + by apply sublist_skip.
    + by apply sublist_cons.
Qed.

End Languages.

Section Certifications.

Lemma matches_lits_lower (kw w : str) :
  Matches true (lits kw) w -> lower w = lower kw.
Proof.
  revert w. induction kw as [|c kw IH]; intros w Hw.
  - inversion Hw. done.
  - destruct kw as [|c' kw].
    + inversion Hw as [|p x Hx| | | | | | | | |]; subst.
      cbn [lower map]. f_equal. rewrite <- accepts_to_lower in Hx.
      pose proof (accepts_lower c x) as H. rewrite H in Hx.
      apply Ascii.eqb_eq in Hx. done.
    + change (lits (c :: c' :: kw)) with (Seq (chr c) (lits (c' :: kw))) in Hw.
      inversion Hw as [| |a b w1 w2 H1 H2| | | | | | | |]; subst.
      inversion H1 as [|p x Hx| | | | | | | | |]; subst.
      apply IH in H2. cbn [app lower map]. fold (lower w2). rewrite H2.
      cbn [lower map]. f_equal. rewrite <- accepts_to_lower in Hx.
      pose proof (accepts_lower c x) as H. rewrite H in Hx.
      apply Ascii.eqb_eq in Hx. done.
Qed.

Lemma matches_alts_lits (l : list str) (w : str) :
  l <> [] -> Matches true (alts (map lits l)) w ->
  exists kw, In kw l /\ lower w = lower kw.
Proof.
  induction l as [|k l IH]; [done|]. intros _ Hw.
  destruct l as [|k' l].
  - exists k. split; [by left|]. by apply matches_lits_lower.
  - change (alts (map lits (k :: k' :: l)))
      with (Alt (lits k) (alts (map lits (k' :: l)))) in Hw.
    inversion Hw as [| | |a b w' H1|a b w' H1| | | | | |]; subst.
    + exists k. split; [by left|]. by apply matches_lits_lower.
    + destruct (IH ltac:(done) H1) as (kw & Hin & Hl).
      exists kw. split; [by right | done].
Qed.

Lemma startswith_app (p s : str) : startswith p (p ++ s) = true.
Proof.
  induction p as [|c p IH]; [by destruct s|].
  cbn [app startswith]. by rewrite Ascii.eqb_refl, IH.
Qed.

Lemma cert_pattern_matches (w : str) : Matches true cert_pattern w -> cert_ok w.
Proof.
  intros Hw. split; [|split].
  - pose proof (min_count_sound true (fun _ => true) cert_pattern w Hw) as H.
    rewrite count_true_length in H.
    assert (Hm : 9 <= min_count true (fun _ => true) cert_pattern)
      by (apply Nat.leb_le; vm_compute; reflexivity).
    lia.
  - apply (all_within_sound true _ cert_pattern w Hw). vm_compute. reflexivity.
  - unfold cert_pattern in Hw. cbn [seqs] in Hw.
    inversion Hw as [| |a b w1 w2 H1 H2| | | | | | | |]; subst.
    apply (matches_alts_lits ["Certified" : str; "Certification" : str;
                               "License" : str]) in H1; [|done].
    destruct H1 as (kw & Hin & Hl).
    exists (lower kw). split.
    + repeat destruct Hin as [<-|Hin]; cbn; auto.
    + unfold lower. rewrite map_app. fold (lower w1). rewrite Hl.
      apply startswith_app.
Qed.

Lemma extract_certifications_ok (text : str) :
  Forall cert_ok (_extract_certifications text).
Proof.
  unfold _extract_certifications.
  destruct (_find_section text cert_keywords) as [sec|]; [|done].
  destruct (truthy sec); [|done].
  apply Forall_forall. intros c Hc. apply list_elem_of_In in Hc.
  unfold findall in Hc. apply in_map_iff in Hc as (m & <- & Hm).
  apply finditer_sound in Hm as (pre & w & post & Hw & _ & _ & _ & ->).
  by apply cert_pattern_matches.
Qed.

(** X5. Every certification of a parsed profile has at least nine
    characters, all letters or white space, and starts, ignoring case, with
    [certified], [certification] or [license]. *)
Theorem parsed_certifications_ok (env : Env) (input : pyval) :
  Forall cert_ok (certifications (data (parse env input))).
Proof. cbn [parse data certifications]. apply extract_certifications_ok. Qed.

End Certifications.

(** ** Pre-processing *)

Section Preprocess.

Lemma split_on_no_sep (sep : ascii) (s : str) :
  Forall (fun p => forallb (fun c => negb (Ascii.eqb c sep)) p = true)
    (split_on sep s).
Proof.
  induction s as [|c s IH]; cbn [split_on].
  - by apply Forall_singleton.
  - destruct (Ascii.eqb c sep) eqn:Hc.
    + by apply Forall_cons.
    + destruct (split_on sep s) as [|p ps].
      * apply Forall_singleton. cbn [forallb]. by rewrite Hc.
      * apply Forall_cons in IH as [Hp Hps]. apply Forall_cons. split; [|done].
        cbn [forallb]. by rewrite Hc, Hp.
Qed.

Lemma split_on_single (sep : ascii) (x : str) :
  forallb (fun c => negb (Ascii.eqb c sep)) x = true -> split_on sep x = [x].
Proof.
  induction x as [|c x IH]; cbn [forallb split_on]; [done|].
  intros [Hc Hx]%andb_true_iff. apply negb_true_iff in Hc. rewrite Hc.
  by rewrite IH.
Qed.

Lemma split_on_app (sep : ascii) (x s : str) :
  forallb (fun c => negb (Ascii.eqb c sep)) x = true ->
  split_on sep (x ++ sep :: s) = x :: split_on sep s.
Proof.
  induction x as [|c x IH]; cbn [forallb app split_on].
  - intros _. by rewrite Ascii.eqb_refl.
  - intros [Hc Hx]%andb_true_iff. apply negb_true_iff in Hc. rewrite Hc.
    by rewrite IH.
Qed.

(** [sep.join(lines).split(sep)] gives the lines back when no line holds the
    separator. *)
Lemma split_on_join (sep : ascii) (lines : list str) :
  lines <> [] ->
  Forall (fun p => forallb (fun c => negb (Ascii.eqb c sep)) p = true) lines ->
  split_on sep (join [sep] lines) = lines.
Proof.
  induction lines as [|x lines IH]; [done|]. intros _ H.
  apply Forall_cons in H as [Hx Hl]. destruct lines as [|y lines].
  - cbn [join]. by apply split_on_single.
  - change (join [sep] (x :: y :: lines)) with (x ++ [sep] ++ join [sep] (y :: lines)).
    cbn [app]. rewrite split_on_app by done. f_equal. by apply IH.
Qed.

Lemma split_on_double (sep : ascii) (pre post : str) :
  [] ∈ tail (split_on sep (pre ++ sep :: sep :: post)).
Proof.
  induction pre as [|c pre IH]; cbn [app split_on].
  - rewrite Ascii.eqb_refl. cbn [tail]. apply list_elem_of_here.
  - destruct (Ascii.eqb c sep).
    + cbn [tail]. destruct (split_on sep (pre ++ sep :: sep :: post)); [done|].
      by apply list_elem_of_further.
    + by destruct (split_on sep (pre ++ sep :: sep :: post)).
Qed.

Lemma forallb_lstrip (P : ascii -> bool) (s : str) :
  forallb P s = true -> forallb P (lstrip s) = true.
Proof.
  induction s as [|c s IH]; cbn [lstrip forallb]; [done|].
  intros [Hc Hs]%andb_true_iff. destruct (is_space c); [by apply IH|].
  cbn [forallb]. by rewrite Hc, Hs.
Qed.

Lemma forallb_strip (P : ascii -> bool) (s : str) :
  forallb P s = true -> forallb P (strip s) = true.
Proof.
  intros H. unfold strip, rstrip.
  by apply forallb_rev, forallb_lstrip, forallb_rev, forallb_lstrip.
Qed.

Lemma forallb_take (P : ascii -> bool) (n : nat) (s : str) :
  forallb P s = true -> forallb P (take n s) = true.
Proof.
  revert n. induction s as [|c s IH]; intros [|n]; cbn [take forallb]; try done.
  intros [Hc Hs]%andb_true_iff. by rewrite Hc, IH.
Qed.

Lemma forallb_drop (P : ascii -> bool) (n : nat) (s : str) :
  forallb P s = true -> forallb P (drop n s) = true.
Proof.
  revert n. induction s as [|c s IH]; intros [|n]; cbn [drop forallb]; try done.
  intros [Hc Hs]%andb_true_iff. by apply IH.
Qed.

Lemma forallb_slice (P : ascii -> bool) (s : str) (i j : nat) :
  forallb P s = true -> forallb P (slice s i j) = true.
Proof. intros H. unfold slice. by apply forallb_take, forallb_drop. Qed.

(** A substitution leaves only characters of the text and of the
    replacement. *)
Lemma forallb_sub (P : ascii -> bool) (ic : bool) (r : re) (repl s : str) :
  forallb P repl = true -> forallb P s = true ->
  forallb P (sub ic r repl s) = true.
Proof.
  intros Hr Hs. unfold sub. generalize 0 (finditer ic r s). intros from ms.
  revert from. induction ms as [|m ms IH]; intros from; cbn [sub_spans].
  - by apply forallb_drop.
  - rewrite !forallb_app, (forallb_slice _ _ _ _ Hs), Hr. cbn [andb]. apply IH.
Qed.

Lemma cleaned_lines_ok (text : str) :
  Forall (fun l => truthy l = true /\ forallb not_nl l = true) (cleaned_lines text).
Proof.
  unfold cleaned_lines. apply Forall_forall. intros l Hl.
  apply list_elem_of_filter in Hl as [Ht Hl]. apply Is_true_true in Ht.
  split; [done|].
  apply list_elem_of_In, in_map_iff in Hl as (x & <- & Hx).
  apply list_elem_of_In, list_elem_of_filter in Hx as [_ Hx].
  pose proof (split_on_no_sep nl text) as Hs. rewrite Forall_forall in Hs.
  apply Hs in Hx.
  unfold clean_line. apply forallb_sub; [done|]. by apply forallb_strip.
Qed.

Lemma blank_lines_double (w : str) :
  Matches false blank_lines_re w -> exists w', w = nl :: nl :: w'.
Proof.
  intros Hw.
  pose proof (min_count_sound false (fun _ => true) _ w Hw) as Hc.
  rewrite count_true_length in Hc.
  assert (Hm : min_count false (fun _ => true) blank_lines_re = 3) by reflexivity.
  rewrite Hm in Hc.
  assert (Ha : forallb (Ascii.eqb nl) w = true).
  { apply (all_within_sound false _ _ w Hw). vm_compute. reflexivity. }
  destruct w as [|a [|b w']]; cbn [length] in Hc; try lia.
  cbn [forallb] in Ha. apply andb_true_iff in Ha as [H1 Ha].
  apply andb_true_iff in Ha as [H2 _]. apply Ascii.eqb_eq in H1, H2. subst.
  by exists w'.
Qed.

Lemma truthy_not_nil (l : str) : truthy l = true -> l <> [].
Proof. by destruct l. Qed.

(** X6. The last step of [_preprocess_text], which replaces three or more
    line breaks by two, never finds any: the result is the kept lines joined
    by single line breaks. Each kept line is non-empty and holds no line
    break, and splitting the result at the line breaks gives the kept lines
    back, so the result has no empty line. *)
Theorem preprocess_text_lines (text : str) :
  _preprocess_text text = join [nl] (cleaned_lines text)
  /\ Forall (fun l => l <> [] /\ nl ∉ l) (cleaned_lines text)
  /\ split_on nl (_preprocess_text text)
     = match cleaned_lines text with [] => [[]] | _ :: _ => cleaned_lines text end.
Proof.
  pose proof (cleaned_lines_ok text) as Hok.
  assert (Hnl : Forall (fun p => forallb (fun c => negb (Ascii.eqb c nl)) p = true)
                  (cleaned_lines text)).
  { eapply Forall_impl; [exact Hok|]. by intros l [_ H]. }
  assert (Hpre : _preprocess_text text = join [nl] (cleaned_lines text)).
  { unfold _preprocess_text. destruct text as [|c text'] eqn:Htext; [done|].
    cbn [truthy negb]. rewrite <- Htext in Hok, Hnl |- *.
    fold (cleaned_lines text).
    unfold sub.
    destruct (finditer false blank_lines_re (join [nl] (cleaned_lines text)))
      as [|m ms] eqn:Hf; [done|].
    exfalso.
    assert (Hm : In m (finditer false blank_lines_re (join [nl] (cleaned_lines text))))
      by (rewrite Hf; by left).
    apply finditer_sound in Hm as (pre & w & post & Hw & Hs & _).
    apply blank_lines_double in Hw as [w' ->].
    destruct (cleaned_lines text) as [|l ls] eqn:Hcl.
    { by destruct pre. }
    pose proof (split_on_double nl pre (w' ++ post)) as Hd.

    cbn [app] in Hs. rewrite <- Hs, split_on_join in Hd by done.
    cbn [tail] in Hd. apply Forall_cons in Hok as [_ Hok].
    rewrite Forall_forall in Hok. by destruct (Hok _ Hd). }
  split; [done|]. split.
  - eapply Forall_impl; [exact Hok|]. intros l [Ht Hn]. split.
    + by apply truthy_not_nil.
    + intros Hin. apply list_elem_of_In in Hin.
      rewrite forallb_forall in Hn. apply Hn in Hin.
      unfold not_nl in Hin. by rewrite Ascii.eqb_refl in Hin.
  - rewrite Hpre. destruct (cleaned_lines text) as [|l ls] eqn:Hcl; [done|].
    by apply split_on_join.
Qed.

End Preprocess.

(** ** The values of the confidence score *)

Section ConfidenceValues.

Lemma py_round_whole (x : Q) (z : Z) (n : nat) :
  (x == inject_Z z)%Q -> (py_round x n == inject_Z z)%Q.
Proof.
  intros H. destruct (py_round_bounds z z x n) as [H1 H2].
  - rewrite H. apply Qle_refl.
  - rewrite H. apply Qle_refl.
  - by apply Qle_antisym.
Qed.

Lemma raw_score_points (pd : fields) : (raw_score pd == inject_Z (raw_points pd))%Q.
Proof.
  unfold raw_score, raw_points.
  destruct (some_truthy (full_name (personal_info pd))),
    (some_truthy (email (personal_info pd))),
    (some_truthy (phone (personal_info pd))),
    (nonempty (experience pd)), (nonempty (education pd)),
    (nonempty (skills pd)), (nonempty (languages pd)),
    (nonempty (certifications pd));
    (destruct (summary pd) as [s|]; [destruct (50 <? length s)|]);
    rewrite ?inject_Z_plus; change (inject_Z 0) with 0%Q;
    change (inject_Z 10) with 10%Q; change (inject_Z 5) with 5%Q; lra.
Qed.

End ConfidenceValues.

Section ConfidenceValues2.

Lemma inject_Z_eq (a b : Z) : (inject_Z a == inject_Z b)%Q <-> a = b.
Proof. unfold Qeq. cbn. lia. Qed.

Lemma Qmin_inject_Z (a b : Z) : (Qmin (inject_Z a) (inject_Z b) == inject_Z (Z.min a b))%Q.
Proof.
  destruct (Z.le_ge_cases a b) as [H|H].
  - rewrite Z.min_l by done. apply Q.min_l. by rewrite <- Zle_Qle.
  - rewrite Z.min_r by done. apply Q.min_r. by rewrite <- Zle_Qle.
Qed.

(** The score as an integer: the points, with the floor rule, capped at
    100. *)
Lemma confidence_points (pd : fields) :
  (_calculate_confidence_enhanced pd
   == inject_Z (Z.min 100 (if (raw_points pd =? 0)%Z
                           then (if has_any_data pd then 10 else 0)
                           else raw_points pd)))%Q.
Proof.
  unfold _calculate_confidence_enhanced. apply py_round_whole.
  pose proof (raw_score_points pd) as Hr.
  rewrite <- Qmin_inject_Z. change (inject_Z 100) with 100%Q.
  apply Q.min_compat; [reflexivity|].
  destruct (Qeq_bool (raw_score pd) 0) eqn:Hq.
  - apply Qeq_bool_iff in Hq.
    assert (Hz : raw_points pd = 0%Z).
    { apply inject_Z_eq. change (inject_Z 0) with 0%Q. by rewrite <- Hr. }
    rewrite Hz. cbn [Z.eqb]. destruct (has_any_data pd); [reflexivity|].
    by rewrite Hr, Hz.
  - apply Qeq_bool_neq in Hq.
    destruct (raw_points pd =? 0)%Z eqn:Hz; [|done].
    apply Z.eqb_eq in Hz. rewrite Hz in Hr. by destruct Hq.
Qed.

Lemma raw_points_nonneg (pd : fields) : (0 <= raw_points pd)%Z.
Proof.
  pose proof (raw_score_nonneg pd) as H. rewrite raw_score_points in H.
  unfold Qle in H. cbn in H. lia.
Qed.

Lemma nonempty_false {A : Type} (l : list A) : nonempty l = false <-> l = [].
Proof. by destruct l. Qed.

Lemma skill_points_pos (n : nat) : 0 < n -> (3 <= skill_points n)%Z.
Proof.
  intros H. unfold skill_points.
  destruct (10 <=? n), (5 <=? n), (3 <=? n); lia.
Qed.

Lemma raw_points_zero (pd : fields) :
  raw_points pd = 0%Z ->
  some_truthy (full_name (personal_info pd)) = false
  /\ some_truthy (email (personal_info pd)) = false
  /\ some_truthy (phone (personal_info pd)) = false
  /\ skills pd = [] /\ languages pd = [] /\ certifications pd = [].
Proof.
  unfold raw_points.
  pose proof (sum_points_nonneg_from exp_points (experience pd) 0
                exp_points_nonneg (Z.le_refl 0)) as H6.
  pose proof (sum_points_nonneg_from edu_points (education pd) 0
                edu_points_nonneg (Z.le_refl 0)) as H7.
  fold (sum_points exp_points (experience pd)) in H6.
  fold (sum_points edu_points (education pd)) in H7.
  assert (Hs : (0 <= match summary pd with
                     | Some s => if (50 <? length s)%nat then 5 else 0
                     | None => 0
                     end)%Z).
  { destruct (summary pd) as [s|]; [destruct (50 <? length s)|]; lia. }
  assert (Hk : skills pd = [] \/ (3 <= skill_points (length (skills pd)))%Z).
  { destruct (skills pd); [by left|]. right. apply skill_points_pos. cbn. lia. }
  destruct (some_truthy (full_name (personal_info pd))),
    (some_truthy (email (personal_info pd))),
    (some_truthy (phone (personal_info pd))),
    (nonempty (experience pd)), (nonempty (education pd));
    destruct (skills pd) as [|k ks] eqn:Hsk;
    destruct (languages pd) as [|la ls];
    destruct (certifications pd) as [|ce cs]; cbn [nonempty length] in *;
    intros H; try (repeat split; done); exfalso;
    destruct Hk as [Hk|Hk]; try done; lia.
Qed.

(** X7. The confidence score is 0 exactly when the profile has no name,
    email or phone, no experience or education entry, no skill, no summary,
    no language and no certification. A location and the LinkedIn and GitHub
    handles play no part. *)
Theorem confidence_zero_iff (pd : fields) :
  (_calculate_confidence_enhanced pd == 0)%Q <-> nothing_scored pd.
Proof.
  rewrite confidence_points. change 0%Q with (inject_Z 0).
  rewrite (inject_Z_eq _ 0).
  pose proof (raw_points_nonneg pd) as Hn. unfold nothing_scored. split.
  - intros H. destruct (raw_points pd =? 0)%Z eqn:Hz; [|lia].
    apply Z.eqb_eq in Hz.
    destruct (has_any_data pd) eqn:Hd; [lia|].
    apply raw_points_zero in Hz as (H1 & H2 & H3 & H4 & H5 & H6).
    unfold has_any_data in Hd. rewrite H1, H2, H3, H4 in Hd. cbn [orb nonempty] in Hd.
    apply orb_false_iff in Hd as [Hd Hsum].
    apply orb_false_iff in Hd as [Hd _].
    apply orb_false_iff in Hd as [Hex Hed].
    apply nonempty_false in Hex, Hed. done.
  - intros (H1 & H2 & H3 & H4 & H5 & H6 & H7 & H8 & H9).
    assert (Hr : raw_points pd = 0%Z).
    { unfold raw_points. rewrite H1, H2, H3, H4, H5, H6, H8, H9. cbn [nonempty].
      destruct (summary pd) as [s|]; [|done]. cbn [some_truthy] in H7.
      destruct s; [done | discriminate]. }
    rewrite Hr. cbn [Z.eqb]. unfold has_any_data.
    by rewrite H1, H2, H3, H4, H5, H6, H7.
Qed.

(** X8. The confidence score is a whole number between 0 and 100: every
    increment is an integer, so rounding to one decimal changes nothing. *)
Theorem confidence_whole_number (pd : fields) :
  exists z : Z, (0 <= z <= 100)%Z
                /\ (_calculate_confidence_enhanced pd == inject_Z z)%Q.
Proof.
  eexists. split; [|apply confidence_points].
  pose proof (raw_points_nonneg pd) as Hn.
  destruct (raw_points pd =? 0)%Z; [destruct (has_any_data pd)|]; lia.
Qed.

End ConfidenceValues2.

(** ** Summary and email *)

Section SummaryAndEmail.

Import Examples.

Lemma summary_from_lines_len (cleaned_text s : str) :
  summary_from_lines cleaned_text = Some s -> 1 <= length s <= 500.
Proof.
  unfold summary_from_lines.
  destruct (List.find _ _) as [line|] eqn:Hf; [|done].
  apply find_some in Hf as [_ Hlen]. apply Nat.ltb_lt in Hlen.
  intros [= <-]. rewrite length_take. lia.
Qed.

(** X9. A summary, when [_extract_summary_enhanced] returns one, is not empty
    and has at most 500 characters. *)
Theorem summary_length (cleaned_text original_text s : str) :
  _extract_summary_enhanced cleaned_text original_text = Some s ->
  1 <= length s <= 500.
Proof.
  unfold _extract_summary_enhanced.
  destruct (_find_section cleaned_text summary_keywords) as [sec|];
    [|apply summary_from_lines_len].
  destruct (truthy sec); [|apply summary_from_lines_len].
  destruct (truthy (strip _)) eqn:Ht; [|apply summary_from_lines_len].
  intros [= <-]. rewrite length_take.
  destruct (strip _); [done|]. cbn [length]. lia.
Qed.

Lemma summary_length_witness :
  _extract_summary_enhanced "Summary: Builds data pipelines. Likes tests." []
    = Some (": Builds data pipelines.  Likes tests." : str)
  /\ 1 <= length (": Builds data pipelines.  Likes tests." : str) <= 500.
Proof.
  assert (H : _extract_summary_enhanced "Summary: Builds data pipelines. Likes tests." []
              = Some (": Builds data pipelines.  Likes tests." : str))
    by (vm_compute; reflexivity).
  split; [exact H|]. exact (summary_length _ _ _ H).
Defined.

Lemma matches_rep_nonempty (ic : bool) (p : ascii -> bool) (lo : nat)
    (hi : option nat) (w : str) :
  1 <= lo -> Matches ic (Rep (Cls p) lo hi) w -> w <> [].
Proof.
  intros Hlo Hw.
  pose proof (min_count_sound ic (fun _ => true) _ w Hw) as H.
  rewrite count_true_length in H. cbn [min_count] in H.
  assert (Hc : class_within ic (fun _ => true) p = true).
  { unfold class_within. apply forallb_forall. intros x _. apply implb_true_r. }
  rewrite Hc in H. destruct w; [cbn in H; lia | done].
Qed.

Lemma matches_rep_class (p : ascii -> bool) (lo : nat) (hi : option nat) (w : str) :
  Matches false (Rep (Cls p) lo hi) w -> forallb p w = true.
Proof.
  intros Hw. apply (all_within_sound false p _ w Hw). cbn [all_within].
  unfold class_within. apply forallb_forall. intros x _.
  unfold accepts. rewrite andb_false_l, orb_false_r. by destruct (p x).
Qed.

Lemma matches_chr (a : ascii) (w : str) : Matches false (chr a) w -> w = [a].
Proof.
  intros Hw. inversion Hw as [|p c Hc| | | | | | | | |]; subst.
  apply accepts_eqb in Hc. by subst.
Qed.

Lemma email_pattern_matches (w : str) : Matches false email_pattern w -> email_shape w.
Proof.
  unfold email_pattern. cbn [seqs]. intros Hw.
  inversion Hw as [| |a b w0 w1 H0 H1| | | | | | | |]; subst. inversion H0; subst.
  inversion H1 as [| |a b w2 w3 H2 H3| | | | | | | |]; subst.
  inversion H3 as [| |a b w4 w5 H4 H5| | | | | | | |]; subst.
  inversion H5 as [| |a b w6 w7 H6 H7| | | | | | | |]; subst.
  inversion H7 as [| |a b w8 w9 H8 H9| | | | | | | |]; subst.
  inversion H9 as [| |a b w10 w11 H10 H11| | | | | | | |]; subst.
  inversion H11; subst.
  apply matches_chr in H4, H8. subst.
  exists w2, w6, w10. rewrite app_nil_r. split; [done|].
  split; [by eapply (matches_rep_nonempty false _ 1 None); [|exact H2]|].
  split; [exact (matches_rep_class _ 1 None _ H2)|].
  split; [by eapply (matches_rep_nonempty false _ 1 None); [|exact H6]|].
  split; [exact (matches_rep_class _ 1 None _ H6)|].
  split; [|exact (matches_rep_class _ 2 None _ H10)].
  pose proof (min_count_sound false (fun _ => true) _ w10 H10) as H.
  rewrite count_true_length in H. cbn [min_count at_least] in H.
  assert (Hc : class_within false (fun _ => true) (cor is_alpha (one_of "|")) = true).
  { unfold class_within. apply forallb_forall. intros x _. apply implb_true_r. }
  rewrite Hc in H. lia.
Qed.

(** X10. The email of a parsed profile, when there is one, is a piece of the
    text of the form [local@domain.tld]: the local part and the domain are
    not empty, the last part has two characters or more, and each part is
    over the class the pattern gives it; the class of the last part holds
    the letters and the bar. *)
Theorem parsed_email_shape (env : Env) (text e : str) :
  email (personal_info (data (parse env (PStr text)))) = Some e ->
  (exists pre post, text = pre ++ e ++ post) /\ email_shape e.
Proof.
  rewrite parse_email. unfold findall.
  destruct (finditer false email_pattern text) as [|m ms] eqn:Hf; [done|].
  cbn [map head]. intros [= <-].
  assert (Hm : In m (finditer false email_pattern text)) by (rewrite Hf; by left).
  apply finditer_sound in Hm as (pre & w & post & Hw & Hs & _ & _ & ->).
  split; [by exists pre, post|]. by apply email_pattern_matches.
Qed.

Lemma parsed_email_shape_witness :
  email (personal_info (data (parse plain_env (PStr text_scenario))))
    = Some ("john@x.com" : str)
  /\ email_shape "john@x.com".
Proof.
  assert (H : email (personal_info (data (parse plain_env (PStr text_scenario))))
              = Some ("john@x.com" : str)) by (vm_compute; reflexivity).
  split; [exact H|]. exact (proj2 (parsed_email_shape plain_env text_scenario _ H)).
Defined.

End SummaryAndEmail.

(** ** From the parser to the scoring engine *)

Section Pipeline.

Import MatchingService Examples.

Lemma parse_titles_some (env : Env) (input : pyval) :
  Forall (fun e => is_Some (title e)) (experience (data (parse env input))).
Proof.
  cbn [parse data experience].
  eapply Forall_impl; [apply extract_experience_ok|].
  intros e ((t & Ht & _) & _). by exists t.
Qed.

Lemma parse_degrees_some (env : Env) (input : pyval) :
  Forall (fun e => is_Some (degree e)) (education (data (parse env input))).
Proof.
  cbn [parse data education].
  eapply Forall_impl; [apply extract_education_ok|].
  intros e ((dg & Hd & _) & _). by exists dg.
Qed.

(** X11. Scoring a parsed profile takes the exception path only through
    the number of years that the job text asks for. When that number has at
    most 308 digits, or the text asks for none, then whatever the text, the
    NER back ends and the embedding model, the result holds all four entries
    under [detailed_scores] and a match summary, and without an embedding
    model its overall score lies in [0,1]. *)
Theorem parsed_profile_is_fully_scored (env : Env) (input : pyval) (now : Z)
    (max_str_digits : nat) (model : embedding) (job : str) :
  modest_years (lower job) = true ->
  let r := calculate_relevancy_score now max_str_digits model
             (data (parse env input)) job in
  is_Some (match_summary r)
  /\ is_Some (detailed_scores r !! "skill_match"%string)
  /\ is_Some (detailed_scores r !! "experience_match"%string)
  /\ is_Some (detailed_scores r !! "education_match"%string)
  /\ is_Some (detailed_scores r !! "title_match"%string)
  /\ (0 <= overall_score
             (calculate_relevancy_score now max_str_digits None
                (data (parse env input)) job)
      <= 1)%Q.
Proof.
  intros Hm. set (pd := data (parse env input)).
  destruct (match_experience_total now max_str_digits (experience pd) (lower job)
              (parse_titles_some env input) Hm) as [ex Hex].
  destruct (match_education_total (education pd) (lower job)
              (parse_degrees_some env input)) as [ed Hed].
  assert (Hb : (0 <= overall_score
                       (calculate_relevancy_score now max_str_digits None pd job)
                <= 1)%Q).
  { pose proof (component_scores_bounded now max_str_digits None pd job) as Hc.
    unfold calculate_relevancy_score in *. rewrite Hex, Hed in *.
    cbn [skill_match experience_match education_match title_match
         overall_score] in *.
    destruct Hc as (H1 & H2 & H3 & H4). by apply weighted_bounds. }
  intros r. subst r.
  set (r0 := calculate_relevancy_score now max_str_digits None pd job) in *.
  clearbody r0.
  unfold calculate_relevancy_score. rewrite Hex, Hed.
  destruct model; cbn [match_summary detailed_scores];
    (split; [by eexists|]);
    (split; [rewrite !lookup_insert_ne by done; rewrite lookup_insert_eq; by eexists|]);
    (split; [rewrite !lookup_insert_ne by done; rewrite lookup_insert_eq; by eexists|]);
    (split; [rewrite !lookup_insert_ne by done; rewrite lookup_insert_eq; by eexists|]);
    (split; [rewrite lookup_insert_eq; by eexists|]); exact Hb.
Qed.

(** The text of one line [Senior Software Engineer] parses to one entry
    without dates. With a number of years of 401 digits in the job text the
    scorer takes the exception path; with a job text that asks for no
    number of years it does not. *)
Lemma parsed_profile_is_fully_scored_witness :
  modest_years (lower job_many_years) = false
  /\ match_summary
       (calculate_relevancy_score 2026 4300 None
          (data (parse plain_env (PStr "Senior Software Engineer"))) job_many_years)
     = None
  /\ modest_years (lower job_python_bachelor) = true
  /\ is_Some (match_summary
                (calculate_relevancy_score 2026 4300 None
                   (data (parse plain_env (PStr "Senior Software Engineer")))
                   job_python_bachelor)).
Proof.
  split; [vm_compute; reflexivity|]. split; [vm_compute; reflexivity|].
  assert (Hm : modest_years (lower job_python_bachelor) = true)
    by (vm_compute; reflexivity).
  split; [exact Hm|].
  exact (proj1 (parsed_profile_is_fully_scored plain_env
                  (PStr "Senior Software Engineer") 2026 4300 None
                  job_python_bachelor Hm)).
Defined.

End Pipeline.

(** ** Skill matching and years *)

Section SkillMatching.

Import MatchingService Examples.

Lemma overlaps_sym (a b : str) : overlaps a b = overlaps b a.
Proof. unfold overlaps. apply orb_comm. Qed.

Lemma existsb_filter_overlaps (s : str) (required resume : list str) :
  In s required ->
  existsb (fun rs => overlaps s rs)
    (List.filter (fun skill => existsb (fun req => overlaps req skill) required)
       resume)
  = existsb (fun rs => overlaps s rs) resume.
Proof.
  intros Hs. induction resume as [|x resume IH]; [done|].
  cbn [List.filter existsb].
  destruct (existsb (fun req => overlaps req x) required) eqn:Hx.
  - cbn [existsb]. by rewrite IH.
  - rewrite IH. destruct (overlaps s x) eqn:Ho; [|done].
    assert (Ht : existsb (fun req => overlaps req x) required = true).
    { apply existsb_exists. by exists s. }
    congruence.
Qed.

Lemma filter_ext_in' {A : Type} (f g : A -> bool) (l : list A) :
  (forall x, In x l -> f x = g x) -> List.filter f l = List.filter g l.
Proof.
  induction l as [|x l IH]; intros H; cbn [List.filter]; [done|].
  rewrite (H x) by (by left). rewrite IH; [done|].
  intros y Hy. apply H. by right.
Qed.

(** X12. A required skill is reported as missing exactly when no skill of
    the resume contains it or is contained in it: filtering against the
    matched skills, as the code does, gives the same list as filtering
    against all the skills of the resume. *)
Theorem missing_skills_spec (resume_skills : list str) (job_desc : str) :
  missing_skills (_match_skills resume_skills job_desc)
  = List.filter (fun s => negb (existsb (fun rs => overlaps s rs) resume_skills))
      (required_skills (_match_skills resume_skills job_desc)).
Proof.
  unfold _match_skills. cbn [missing_skills required_skills].
  apply filter_ext_in'. intros s Hs. f_equal.
  by apply existsb_filter_overlaps.
Qed.

Lemma startswith_spec (p s : str) :
  startswith p s = true <-> exists post, s = p ++ post.
Proof.
  revert s. induction p as [|c p IH]; intros s.
  - split; [intros _; by exists s | by destruct s].
  - destruct s as [|x s]; cbn [startswith].
    + split; [done | by intros [post ?]].
    + rewrite andb_true_iff, Ascii.eqb_eq, IH. split.
      * intros [-> [post ->]]. by exists post.
      * intros [post [= -> ->]]. split; [done | by exists post].
Qed.

(** [sub in s]: the text [s] holds [sub] as a contiguous piece. *)
Lemma contains_spec (sub s : str) :
  contains sub s = true <-> exists pre post, s = pre ++ sub ++ post.
Proof.
  induction s as [|x s IH]; cbn [contains].
  - rewrite orb_false_r, startswith_spec. split.
    + intros [post H]. by exists [], post.
    + intros (pre & post & H). destruct pre; [by exists post|done].
  - rewrite orb_true_iff, startswith_spec, IH. split.
    + intros [[post H]|(pre & post & H)].
      * by exists [], post.
      * exists (x :: pre), post. by rewrite H.
    + intros (pre & post & H). destruct pre as [|y pre].
      * left. by exists post.
      * right. injection H as -> H. by exists pre, post.
Qed.

Lemma contains_trans (a b s : str) :
  contains a b = true -> contains b s = true -> contains a s = true.
Proof.
  rewrite !contains_spec. intros (p1 & q1 & ->) (p2 & q2 & ->).
  exists (p2 ++ p1), (q1 ++ q2). by rewrite <- !app_assoc.
Qed.

(** X13. The required skills are found by substring search, so they are
    closed under containment within the vocabulary: when a skill of the
    vocabulary is required, so is every skill of the vocabulary that it
    contains. A job that asks for [javascript] thus asks for [java] too, and
    one that asks for [postgresql] asks for [sql]. *)
Theorem required_skills_closed (resume_skills : list str) (job_desc a b : str) :
  In a common_skills -> contains a b = true ->
  In b (required_skills (_match_skills resume_skills job_desc)) ->
  In a (required_skills (_match_skills resume_skills job_desc)).
Proof.
  unfold _match_skills. cbn [required_skills]. intros Ha Hab Hb.
  apply filter_In in Hb as [_ Hb]. apply filter_In. split; [done|].
  by apply (contains_trans a b).
Qed.

Lemma required_skills_closed_witness :
  In ("javascript" : str)
    (required_skills (_match_skills [] "we use javascript and postgresql"))
  /\ In ("java" : str)
       (required_skills (_match_skills [] "we use javascript and postgresql")).
Proof.
  assert (H : In ("javascript" : str)
                (required_skills (_match_skills [] "we use javascript and postgresql")))
    by (vm_compute; tauto).
  split; [exact H|].
  apply (required_skills_closed [] _ "java" "javascript");
    [vm_compute; tauto | vm_compute; reflexivity | exact H].
Defined.

End SkillMatching.

Section Years.

Import MatchingService Examples.

Lemma year_string_value (y : str) :
  year_string y -> (1900 <= int_of_digits y <= 2099)%Z.
Proof.
  intros (Hlen & Hd & Hp).
  destruct y as [|a [|b [|c [|e [|? ?]]]]]; try done.
  cbn [forallb] in Hd. apply andb_true_iff in Hd as [_ Hd].
  apply andb_true_iff in Hd as [_ Hd]. apply andb_true_iff in Hd as [Hc Hd].
  apply andb_true_iff in Hd as [He _].
  apply digit_val_bounds in Hc, He.
  unfold int_of_digits. cbn [fold_left].
  destruct Hp as [Hp|Hp]; cbn [startswith lit list_ascii_of_string] in Hp;
    apply andb_true_iff in Hp as [Ha Hp]; apply andb_true_iff in Hp as [Hb _];
    apply Ascii.eqb_eq in Ha, Hb; subst a b;
    change (digit_val "1") with 1%Z; change (digit_val "9") with 9%Z;
    change (digit_val "2") with 2%Z; change (digit_val "0") with 0%Z; lia.
Qed.

(** X14. A year that [_extract_year] returns lies between 1900 and 2099, so
    it is never 0 and the truth test on the two years in
    [_calculate_years_from_exp] only ever fails on a missing year. *)
Theorem extract_year_range (date_str : option str) (y : Z) :
  _extract_year date_str = Some y -> (1900 <= y <= 2099)%Z.
Proof.
  unfold _extract_year. destruct date_str as [s|]; [|done].
  destruct (truthy s); [|done].
  destruct (search false year_pattern s) as [m|] eqn:Hs; [|done].
  intros [= <-].
  apply search_sound in Hs as (pre & w & post & Hw & _ & _ & _ & ->).
  by apply year_string_value, year_pattern_matches.
Qed.

Lemma extract_year_range_witness :
  _extract_year (Some ("Jan 2020" : str)) = Some 2020%Z
  /\ (1900 <= 2020 <= 2099)%Z.
Proof.
  assert (H : _extract_year (Some ("Jan 2020" : str)) = Some 2020%Z)
    by (vm_compute; reflexivity).
  split; [exact H|]. exact (extract_year_range _ _ H).
Defined.

End Years.

(** ** The vocabulary search of the skills *)

Section VocabularySearch.

Import Examples.

Lemma add_new_mono (l : list str) (x y : str) : y ∈ l -> y ∈ add_new l x.
Proof.
  intros H. unfold add_new. destruct (mem x l); [done|].
  apply elem_of_app. by left.
Qed.

Lemma add_new_elem (l : list str) (x : str) : x ∈ add_new l x.
Proof.
  unfold add_new. destruct (mem x l) eqn:H.
  - by apply mem_elem_of.
  - apply elem_of_app. right. apply list_elem_of_here.
Qed.

Lemma vocab_step_mono (section : str) (l : list str) (x y : str) :
  y ∈ l -> y ∈ vocab_step section l x.
Proof.
  intros H. unfold vocab_step. destruct (bool_decide _); [by apply add_new_mono | done].
Qed.

Lemma token_step_mono (l : list str) (t y : str) : y ∈ l -> y ∈ token_step l t.
Proof.
  intros H. unfold token_step. destruct (_ && _ && _); [|done].
  destruct (List.find _ _); [by apply add_new_mono|].
  destruct (_ && _); [|done]. apply elem_of_app. by left.
Qed.

Lemma line_step_mono (l : list str) (line y : str) : y ∈ l -> y ∈ line_step l line.
Proof.
  intros H. unfold line_step. destruct (List.find _ separators) as [sep|]; [|done].
  apply (fold_left_invariant (fun l => y ∈ l)); [|done].
  intros acc t. apply token_step_mono.
Qed.

Lemma vocab_fold_elem (section : str) (vocab : list str) (acc : list str) (y : str) :
  In y vocab -> is_Some (search true (whole_word y) section) ->
  y ∈ fold_left (vocab_step section) vocab acc.
Proof.
  revert acc. induction vocab as [|x vocab IH]; intros acc Hin Hs; [done|].
  cbn [fold_left]. destruct Hin as [->|Hin]; [|by apply IH].
  apply (fold_left_invariant (fun l => y ∈ l)).
  - intros a b. apply vocab_step_mono.
  - unfold vocab_step. rewrite bool_decide_eq_true_2 by done. apply add_new_elem.
Qed.

Lemma vocabulary_nonempty (skill : str) :
  In skill EnhancedParser.common_skills -> skill <> [].
Proof.
  intros H Hnil. subst skill. revert H. vm_compute. intuition discriminate.
Qed.

(** X15. Every skill of the vocabulary that occurs as a whole word, ignoring
    case, in the skills section (or in the whole text when there is no such
    section) is among the skills returned. *)
Theorem vocabulary_skill_reported (env : Env) (cleaned_text original_text skill : str) :
  set_order_ok env ->
  In skill EnhancedParser.common_skills ->
  occurs_whole_word skill
    (section_or (_find_section cleaned_text skills_keywords) cleaned_text) ->
  skill ∈ _extract_skills_enhanced env cleaned_text original_text.
Proof.
  intros Hset Hin Hocc. unfold _extract_skills_enhanced.
  set (section := section_or _ _) in *.
  apply (set_order_elem_of env _ skill Hset (collected_skills_NoDup section)).
  unfold collected_skills.
  apply (fold_left_invariant (fun l => skill ∈ l)).
  - intros a b. apply line_step_mono.
  - apply vocab_fold_elem; [done|].
    apply search_whole_word_iff; [by apply vocabulary_nonempty | done].
Qed.

Lemma vocabulary_skill_reported_witness :
  set_order_ok plain_env
  /\ ("Docker" : str) ∈ _extract_skills_enhanced plain_env
                          "Skills: we run docker in production" [].
Proof.
  assert (H : set_order_ok plain_env) by (intros l; reflexivity).
  split; [exact H|].
  apply (vocabulary_skill_reported plain_env _ [] "Docker" H).
  - vm_compute. tauto.
  - exists 9. vm_compute. reflexivity.
Defined.

Lemma lookup_lower (s : list ascii) (n : nat) :
  lower s !! n = to_lower <$> s !! n.
Proof.
  revert n. induction s as [|c s IH]; intros [|n]; try done. apply IH.
Qed.

(** A keyword that ends in a character outside [\w] is followed, where it
    occurs as a whole word, by a character of [\w]. *)
Lemma whole_word_symbol_end (kw text : list ascii) (i : nat) (c : ascii) :
  last kw = Some c -> is_word c = false ->
  whole_word_at kw text i = true ->
  exists x, text !! (i + length kw) = Some x /\ is_word x = true.
Proof.
  intros Hlast Hc Hw.
  assert (Hkw : kw <> []) by (intros ->; discriminate).
  pose proof (whole_word_at_in_range kw text i Hkw Hw) as Hr.
  unfold whole_word_at in Hw. apply andb_true_iff in Hw as [Hw Hb].
  apply andb_true_iff in Hw as [He _]. apply str_eqb_eq in He.
  unfold word_boundary_at in Hb.
  assert (Hlen : 0 < length kw) by (destruct kw; [done | cbn; lia]).
  assert (Hbefore : exists y, char_before text (i + length kw) = Some y
                              /\ to_lower y = to_lower c).
  { destruct (length kw) as [|n] eqn:Hn; [lia|].
    rewrite Nat.add_succ_r. cbn [char_before].
    assert (Hl : lower (slice text i (i + S n)) !! n = lower kw !! n)
      by (by rewrite He).
    rewrite !lookup_lower in Hl. unfold slice in Hl.
    replace (i + S n - i) with (S n) in Hl by lia.
    rewrite lookup_take_lt, lookup_drop in Hl by lia.
    rewrite last_lookup, Hn in Hlast. cbn [pred] in Hlast.
    rewrite Hlast in Hl. cbn in Hl.
    destruct (text !! (i + n)) as [y|]; [|done]. injection Hl as Hl.
    by exists y. }
  destruct Hbefore as (y & Hy & Hyc). rewrite Hy in Hb.
  assert (Hyw : is_word y = false).
  { rewrite <- is_word_lower, Hyc, is_word_lower. exact Hc. }
  cbn [is_word_opt] in Hb. rewrite Hyw in Hb. cbn [xorb] in Hb.
  destruct (text !! (i + length kw)) as [x|]; [|done]. by exists x.
Qed.

(** X16. A skill of the vocabulary that ends in a symbol, such as [C++] or
    [C#], is added by the whole-word search only where the section holds it
    directly followed by a letter, a digit or an underscore: the pattern
    asks for a word boundary after the symbol. At the end of the section, or
    before a space or a comma, the search does not find it. *)
Theorem symbol_skill_needs_word_after (section : str) (skills : list str)
    (skill : str) (c : ascii) :
  last skill = Some c -> is_word c = false ->
  vocab_step section skills skill <> skills ->
  exists i x, whole_word_at skill section i = true
              /\ section !! (i + length skill) = Some x /\ is_word x = true.
Proof.
  intros Hlast Hc Hstep. unfold vocab_step in Hstep.
  assert (Hkw : skill <> []) by (intros ->; discriminate).
  destruct (bool_decide _) eqn:Hd; [|done].
  apply bool_decide_eq_true in Hd.
  apply search_whole_word_iff in Hd as [i Hi]; [|done].
  destruct (whole_word_symbol_end skill section i c Hlast Hc Hi) as (x & Hx & Hxw).
  by exists i, x.
Qed.

Lemma symbol_skill_needs_word_after_witness :
  vocab_step "C#x" [] "C#" <> []
  /\ vocab_step "C#, Java" [] "C#" = []
  /\ exists i x, whole_word_at "C#" "C#x" i = true
                 /\ ("C#x" : str) !! (i + 2) = Some x /\ is_word x = true.
Proof.
  assert (H : vocab_step "C#x" [] "C#" <> []) by (vm_compute; discriminate).
  split; [exact H|]. split; [vm_compute; reflexivity|].
  apply (symbol_skill_needs_word_after "C#x" [] "C#" "#");
    [reflexivity | reflexivity | exact H].
Defined.

End VocabularySearch.

(** ** The classification service *)

Section ImpliedExperience.

Import MatchingService Examples.

Lemma extract_year_same (date_str : option str) :
  ClassificationService._extract_year date_str = MatchingService._extract_year date_str.
Proof. reflexivity. Qed.

Lemma implied_step_years (now : Z) (acc : Q) (e : exp_entry) :
  (ClassificationService.implied_step now acc e
   == acc + inject_Z (entry_years now e))%Q.
Proof.
  unfold ClassificationService.implied_step, entry_years, end_year.
  change ClassificationService._extract_year with _extract_year.
  destruct (_extract_year (start_date e)) as [sy|];
    [|cbv beta iota; change (inject_Z 0) with 0%Q; lra].
  destruct (end_date e) as [s|];
    [|cbn [_extract_year]; cbv beta iota; change (inject_Z 0) with 0%Q; lra].
  destruct (if str_eqb s "Present" then Some now else _extract_year (Some s))
    as [ey|]; [|cbv beta iota; change (inject_Z 0) with 0%Q; lra].
  destruct (negb (sy =? 0)%Z && negb (ey =? 0)%Z);
    [|cbv beta iota; change (inject_Z 0) with 0%Q; lra].
  destruct (0 <? ey - sy)%Z eqn:Hy.
  - apply Z.ltb_lt in Hy. rewrite Z.max_r by lia. reflexivity.
  - apply Z.ltb_ge in Hy. rewrite Z.max_l by lia.
    change (inject_Z 0) with 0%Q. lra.
Qed.

Lemma years_from_exp_years (now : Z) (e : exp_entry) :
  (num_value (_calculate_years_from_exp now e)
   == inject_Z (entry_years now e) + (if dated now e then 0 else 1))%Q.
Proof.
  unfold _calculate_years_from_exp, entry_years, dated, end_year.
  destruct (_extract_year (start_date e)) as [sy|];
    [|cbv beta iota; cbn [num_value]; change (inject_Z 0) with 0%Q; lra].
  destruct (end_date e) as [s|];
    [|cbn [_extract_year]; cbv beta iota; cbn [num_value];
      change (inject_Z 0) with 0%Q; lra].
  destruct (if str_eqb s "Present" then Some now else _extract_year (Some s))
    as [ey|]; [|cbv beta iota; cbn [num_value]; change (inject_Z 0) with 0%Q; lra].
  destruct (negb (sy =? 0)%Z && negb (ey =? 0)%Z);
    [|cbv beta iota; cbn [num_value]; change (inject_Z 0) with 0%Q; lra].
  cbv beta iota. cbn [num_value]. lra.
Qed.

Lemma implied_fold (now : Z) (l : list exp_entry) (acc : Q) (z : Z) :
  (acc == inject_Z z)%Q ->
  (fold_left (ClassificationService.implied_step now) l acc
   == inject_Z (fold_left (fun a e => (a + entry_years now e)%Z) l z))%Q.
Proof.
  revert acc z. induction l as [|e l IH]; intros acc z Hacc; cbn [fold_left].
  - done.
  - apply IH. rewrite implied_step_years, Hacc. by rewrite inject_Z_plus.
Qed.

Lemma sum_years_fold (now : Z) (l : list exp_entry) (acc : pynum) (z : Z) (n : nat) :
  (num_value acc == inject_Z z + inject_Z (Z.of_nat n))%Q ->
  (num_value (fold_left (fun a e => num_add a (_calculate_years_from_exp now e)) l acc)
   == inject_Z (fold_left (fun a e => (a + entry_years now e)%Z) l z)
      + inject_Z (Z.of_nat (n + length (List.filter (fun e => negb (dated now e)) l))))%Q.
Proof.
  revert acc z n. induction l as [|e l IH]; intros acc z n Hacc; cbn [fold_left].
  - cbn [List.filter length]. by rewrite Nat.add_0_r.
  - cbn [List.filter]. destruct (dated now e) eqn:Hd; cbn [negb].
    + apply IH. rewrite num_add_value, years_from_exp_years, Hd, Hacc, inject_Z_plus.
      lra.
    + cbn [length]. rewrite Nat.add_succ_r, <- Nat.add_succ_l. apply IH.
      rewrite num_add_value, years_from_exp_years, Hd, Hacc, inject_Z_plus.
      rewrite Nat2Z.inj_succ. unfold Z.succ. rewrite inject_Z_plus.
      change (inject_Z 1) with 1%Q. lra.
Qed.

(** X17. The two services count the years of experience in the same way but
    for the entries without a usable pair of years: the matching service
    credits such an entry with one year and the classification service with
    none. So the [total_years] that [_match_experience] reports is the total
    of the classification service plus the number of those entries; both
    are whole numbers and the rounding to one decimal changes neither. The
    result has no [total_years] only for an empty list. *)
Theorem total_years_of_the_two_services (now : Z) (max_str_digits : nat)
    (experience : list exp_entry) (job_desc : str) (dt : exp_detail) :
  _match_experience now max_str_digits experience job_desc = Some dt ->
  match total_years dt with
  | Some t =>
      (t == ClassificationService.calculate_implied_experience now experience
            + inject_Z (Z.of_nat (length (List.filter (fun e => negb (dated now e))
                                            experience))))%Q
  | None => experience = []
  end.
Proof.
  intros Hm.
  pose proof (implied_fold now experience 0 0 ltac:(reflexivity)) as Hi.
  pose proof (sum_years_fold now experience (PyInt 0) 0 0 ltac:(reflexivity)) as Hs.
  cbn [Nat.add] in Hs. fold (sum_years now experience) in Hs.
  unfold _match_experience in Hm. destruct experience as [|e l] eqn:Hl.
  - cbn in Hm. injection Hm as <-. reflexivity.
  - rewrite <- Hl in *. assert (Hn : nonempty experience = true) by (by rewrite Hl).
    rewrite Hn in Hm. cbn [negb] in Hm.
    destruct (required_years_of max_str_digits job_desc) as [required|]; [|done].
    destruct (if Z.eqb required 0 then _ else _) as [score|]; [|done].
    destruct (relevant_experience experience); [|done].
    injection Hm as <-. cbn [total_years].
    unfold ClassificationService.calculate_implied_experience.
    rewrite (py_round_whole _ _ 1 Hi).
    rewrite <- inject_Z_plus in Hs. rewrite (py_round_whole _ _ 1 Hs).
    by rewrite inject_Z_plus.
Qed.

Lemma total_years_of_the_two_services_witness :
  exists dt,
    _match_experience 2026 4300
      [entry_titled (Some ("Software Engineer" : str))] "python" = Some dt
    /\ (exists t, total_years dt = Some t /\ (t == 1)%Q)
    /\ (ClassificationService.calculate_implied_experience 2026
          [entry_titled (Some ("Software Engineer" : str))] == 0)%Q.
Proof.
  assert (H : is_Some (_match_experience 2026 4300
                         [entry_titled (Some ("Software Engineer" : str))] "python"))
    by (vm_compute; by eexists).
  destruct H as [dt H]. exists dt. split; [exact H|].
  pose proof (total_years_of_the_two_services 2026 4300 _ _ dt H) as Ht.
  split.
  - destruct (total_years dt) as [t|]; [|discriminate Ht].
    exists t. split; [reflexivity|]. rewrite Ht. vm_compute. reflexivity.
  - vm_compute. reflexivity.
Defined.

End ImpliedExperience.

Section SkillRelevance.

Import ClassificationService.

Lemma score_one_cases (ps : list str) (s : str) :
  (relevance_score (score_one ps s) = 1%Q /\ is_core (score_one ps s) = true)
  \/ (relevance_score (score_one ps s) = (1 # 2)%Q
      /\ is_core (score_one ps s) = false).
Proof.
  unfold score_one. cbn [relevance_score is_core].
  destruct (existsb _ ps); [by left | by right].
Qed.

Lemma insert_core (ps : list str) (s : str) (l : list str) :
  is_core (score_one ps s) = true ->
  insert_desc (fun x => (relevance_score x, false)) (score_one ps s)
    (map (score_one ps) l)
  = score_one ps s :: map (score_one ps) l.
Proof.
  intros Hc. destruct l as [|y l]; [done|]. cbn [map insert_desc].
  destruct (score_one_cases ps s) as [[Hs _]|[_ Hs]]; [|congruence].
  unfold key_lt. cbn [fst snd]. rewrite Hs.
  by destruct (score_one_cases ps y) as [[-> _]|[-> _]].
Qed.

Lemma insert_not_core (ps : list str) (s : str) (hi lo : list str) :
  is_core (score_one ps s) = false ->
  Forall (fun y => is_core (score_one ps y) = true) hi ->
  Forall (fun y => is_core (score_one ps y) = false) lo ->
  insert_desc (fun x => (relevance_score x, false)) (score_one ps s)
    (map (score_one ps) (hi ++ lo))
  = map (score_one ps) (hi ++ s :: lo).
Proof.
  intros Hc Hhi Hlo.
  destruct (score_one_cases ps s) as [[_ Hs]|[Hs _]]; [congruence|].
  induction Hhi as [|y hi Hy _ IH]; cbn [app map insert_desc].
  - destruct Hlo as [|y lo Hy _]; [done|]. cbn [map insert_desc].
    unfold key_lt. cbn [fst snd]. rewrite Hs.
    by destruct (score_one_cases ps y) as [[_ Hy']|[-> _]]; [congruence|].
  - unfold key_lt. cbn [fst snd]. rewrite Hs.
    destruct (score_one_cases ps y) as [[-> _]|[_ Hy']]; [|congruence].
    cbn. by rewrite IH.
Qed.

Lemma sort_scored (ps : list str) (l : list str) :
  sort_desc (fun x => (relevance_score x, false)) (map (score_one ps) l)
  = map (score_one ps)
      (List.filter (fun s => is_core (score_one ps s)) l
       ++ List.filter (fun s => negb (is_core (score_one ps s))) l).
Proof.
  induction l as [|s l IH]; [done|].
  unfold sort_desc in *. cbn [map foldr]. rewrite IH. cbn [List.filter].
  destruct (is_core (score_one ps s)) eqn:Hc; cbn [negb].
  - by rewrite insert_core.
  - rewrite insert_not_core; [done|done| |].
    + apply Forall_forall. intros y Hy. apply list_elem_of_In, filter_In in Hy.
      by destruct Hy.
    + apply Forall_forall. intros y Hy. apply list_elem_of_In, filter_In in Hy.
      destruct Hy as [_ Hy]. by apply negb_true_iff in Hy.
Qed.

Lemma is_core_priority (job_role s : str) :
  is_core (score_one (role_skills job_role) s) = is_priority job_role s.
Proof.
  unfold score_one, is_priority. cbn [is_core]. by destruct (existsb _ _).
Qed.

(** X18. [score_skill_relevance] loses and adds no skill and puts the skills
    that hold a priority skill of the role first: the skills of the result
    are those that hold one, in the order of the input, followed by the
    others, in the order of the input. The first group has relevance 1.0
    and is marked as core, the second has relevance 0.5 and is not. *)
Theorem skill_relevance_order (skills : list str) (job_role : str) :
  map skill (score_skill_relevance skills job_role)
  = List.filter (is_priority job_role) skills
    ++ List.filter (fun s => negb (is_priority job_role s)) skills
  /\ Forall (fun x => if is_priority job_role (skill x)
                      then relevance_score x = 1%Q /\ is_core x = true
                      else relevance_score x = (1 # 2)%Q /\ is_core x = false)
       (score_skill_relevance skills job_role).
Proof.
  unfold score_skill_relevance. rewrite sort_scored. split.
  - rewrite map_map. cbn [score_one skill]. rewrite map_id.
    f_equal; apply filter_ext; intros s; by rewrite is_core_priority.
  - apply Forall_forall. intros x Hx.
    apply list_elem_of_In, in_map_iff in Hx as (s & <- & _).
    rewrite <- is_core_priority. cbn [score_one skill].
    fold (score_one (role_skills job_role) s).
    destruct (score_one_cases (role_skills job_role) s) as [[H1 H2]|[H1 H2]];
      rewrite H2; by split.
Qed.

End SkillRelevance.

Section Seniority.

Import ClassificationService.

Lemma keyword_scores_keys (table : list (str * list str)) (all_text : str) :
  Forall (fun e => In (fst e) (map fst table)) (keyword_scores table all_text).
Proof.
  unfold keyword_scores. induction table as [|entry table IH]; [done|].
  cbn [omap list_omap map].
  destruct (0 <? keyword_score all_text (snd entry))%Z.
  - apply Forall_cons. split; [by left|].
    eapply Forall_impl; [exact IH|]. intros e He. by right.
  - eapply Forall_impl; [exact IH|]. intros e He. by right.
Qed.

Lemma dict_add_keys (P : str -> Prop) (d : list (str * Z)) (k : str) (n : Z) :
  P k -> Forall (fun e => P (fst e)) d -> Forall (fun e => P (fst e)) (dict_add d k n).
Proof.
  intros Hk. induction 1 as [|e d He Hd IH]; cbn [dict_add].
  - by apply Forall_singleton.
  - destruct (str_eqb (fst e) k); apply Forall_cons; by split.
Qed.

Lemma max_item_in (P : str -> Prop) (best : str * Z) (d : list (str * Z)) :
  P (fst best) -> Forall (fun e => P (fst e)) d -> P (fst (max_item best d)).
Proof.
  intros Hb Hd. revert best Hb. induction Hd as [|e d He Hd IH]; intros best Hb.
  - exact Hb.
  - cbn [max_item]. apply IH. by destruct (snd best <? snd e)%Z.
Qed.

Lemma keyword_scores_none (table : list (str * list str)) (all_text : str) :
  no_keyword table all_text -> keyword_scores table all_text = [].
Proof.
  unfold keyword_scores. induction table as [|entry table IH]; [done|].
  intros Hno. cbn [omap list_omap].
  assert (Hs : keyword_score all_text (snd entry) = 0%Z).
  { unfold keyword_score. rewrite filter_nil_of_all_false; [done|].
    intros kw Hkw. apply (Hno entry kw); [by left | done]. }
  rewrite Hs. cbn. apply IH. intros e kw He Hkw. apply (Hno e kw); [by right | done].
Qed.

(** X19. The level that [assess_seniority_level] returns is one of [entry],
    [mid], [senior] and [executive]. When the titles hold no seniority
    keyword the years alone decide: under 2 years [entry], under 5 [mid],
    under 10 [senior], otherwise [executive], and the breakdown holds that
    level alone. *)
Theorem seniority_level_spec (job_titles : list str) (experience_years : option Q) :
  In (level (assess_seniority_level job_titles experience_years)) levels
  /\ (no_keyword SENIORITY_KEYWORDS (lower (join " " job_titles)) ->
      forall years, experience_years = Some years ->
      breakdown (assess_seniority_level job_titles experience_years)
      = [(level (assess_seniority_level job_titles experience_years),
          if Qle_bool 10 years then 1%Z else 2%Z)]
      /\ level (assess_seniority_level job_titles experience_years)
         = if negb (Qle_bool 2 years) then "entry" : str
           else if negb (Qle_bool 5 years) then "mid" : str
           else if negb (Qle_bool 10 years) then "senior" : str
           else "executive" : str).
Proof.
  split.
  - unfold assess_seniority_level. cbn [level].
    set (all_text := lower (join " " job_titles)).
    pose proof (keyword_scores_keys SENIORITY_KEYWORDS all_text) as Hk.
    change (map fst SENIORITY_KEYWORDS) with levels in Hk.
    set (scores := match experience_years with Some _ => _ | None => _ end).
    assert (Hs : Forall (fun e => In (fst e) levels) scores).
    { subst scores. destruct experience_years as [years|]; [|done].
      destruct (negb (Qle_bool 2 years));
        [apply (dict_add_keys (fun k => In k levels)); [|done]; cbn; tauto|].
      destruct (negb (Qle_bool 5 years));
        [apply (dict_add_keys (fun k => In k levels)); [|done]; cbn; tauto|].
      destruct (negb (Qle_bool 10 years));
        apply (dict_add_keys (fun k => In k levels)); try done; cbn; tauto. }
    destruct scores as [|e d]; [cbn; tauto|].
    apply Forall_cons in Hs as [He Hd].
    by apply (max_item_in (fun k => In k levels)).
  - intros Hno years ->. unfold assess_seniority_level. cbn [level breakdown].
    rewrite (keyword_scores_none _ _ Hno). cbn [dict_add].
    destruct (Qle_bool 10 years) eqn:H10.
    + assert (H5 : Qle_bool 5 years = true).
      { apply Qle_bool_iff. apply Qle_bool_iff in H10. lra. }
      assert (H2 : Qle_bool 2 years = true).
      { apply Qle_bool_iff. apply Qle_bool_iff in H10. lra. }
      rewrite H5, H2. cbn [negb max_item fst]. done.
    + cbn [negb]. destruct (Qle_bool 2 years) eqn:H2; cbn [negb max_item fst];
        [|done].
      destruct (Qle_bool 5 years); cbn [negb max_item fst]; done.
Qed.

Lemma seniority_level_spec_witness :
  no_keyword SENIORITY_KEYWORDS (lower (join " " ["Software Engineer" : str]))
  /\ level (assess_seniority_level ["Software Engineer" : str] (Some 3%Q))
     = ("mid" : str).
Proof.
  assert (Hno : no_keyword SENIORITY_KEYWORDS
                  (lower (join " " ["Software Engineer" : str]))).
  { intros entry kw He Hk. revert kw Hk.
    repeat (destruct He as [<-|He]; [cbn [snd]; intros kw Hk;
      repeat (destruct Hk as [<-|Hk]; [vm_compute; reflexivity|]); destruct Hk|]).
    destruct He. }
  split; [exact Hno|].
  destruct (seniority_level_spec ["Software Engineer" : str] (Some 3%Q)) as [_ H].
  destruct (H Hno 3%Q eq_refl) as [_ Hl]. exact Hl.
Defined.

End Seniority.

(** ** The anonymization service *)

Section Anonymization.

Import MatchingService AnonymizationService Examples.

Lemma redact_value (name : string) (mark : str) (value : option str)
    (removed : gmap string str) :
  fst (redact name mark value removed)
  = if some_truthy value then Some mark else value.
Proof. unfold redact. destruct value as [[|c v]|]; reflexivity. Qed.

Lemma redact_removed (name : string) (mark : str) (value : option str)
    (removed : gmap string str) :
  snd (redact name mark value removed)
  = match value with
    | Some v => if truthy v then <[name := v]> removed else removed
    | None => removed
    end.
Proof. unfold redact. destruct value as [[|c v]|]; reflexivity. Qed.

Lemma redact_truthy (mark : str) (value : option str) :
  mark <> [] ->
  some_truthy (if some_truthy value then Some mark else value) = some_truthy value.
Proof.
  intros Hm. destruct (some_truthy value) eqn:Hv; [|done].
  cbn [some_truthy]. by destruct mark.
Qed.

Lemma redact_redacted (mark : str) (value : option str) :
  redacted mark (if some_truthy value then Some mark else value).
Proof.
  unfold redacted. destruct value as [[|c v]|]; cbn [some_truthy truthy]; auto.
Qed.

Lemma redact_again (mark : str) (value : option str) :
  mark <> [] ->
  (if some_truthy (if some_truthy value then Some mark else value)
   then Some mark else (if some_truthy value then Some mark else value))
  = if some_truthy value then Some mark else value.
Proof.
  intros Hm. rewrite (redact_truthy mark value Hm).
  by destruct (some_truthy value).
Qed.

(** The personal fields after anonymization. *)
Lemma anonymized_personal (p : profile) :
  personal_info (data (anonymized_data (anonymize_resume_data p)))
  = {| full_name := if some_truthy (full_name (personal_info (data p)))
                    then Some ("[NAME]" : str) else full_name (personal_info (data p));
       email := if some_truthy (email (personal_info (data p)))
                then Some ("[EMAIL]" : str) else email (personal_info (data p));
       phone := if some_truthy (phone (personal_info (data p)))
                then Some ("[PHONE]" : str) else phone (personal_info (data p));
       location := if some_truthy (location (personal_info (data p)))
                   then Some ("[LOCATION]" : str)
                   else location (personal_info (data p));
       linkedin := if some_truthy (linkedin (personal_info (data p)))
                   then Some ("[PROFILE]" : str)
                   else linkedin (personal_info (data p));
       github := if some_truthy (github (personal_info (data p)))
                 then Some ("[PROFILE]" : str)
                 else github (personal_info (data p)) |}.
Proof.
  unfold anonymize_resume_data.
  destruct (redact "name" _ _ _) as [v1 r1] eqn:H1.
  destruct (redact "email" _ _ _) as [v2 r2] eqn:H2.
  destruct (redact "phone" _ _ _) as [v3 r3] eqn:H3.
  destruct (redact "location" _ _ _) as [v4 r4] eqn:H4.
  destruct (redact "linkedin" _ _ _) as [v5 r5] eqn:H5.
  destruct (redact "github" _ _ _) as [v6 r6] eqn:H6.
  cbn [anonymized_data data personal_info].
  apply (f_equal fst) in H1, H2, H3, H4, H5, H6.
  rewrite redact_value in H1, H2, H3, H4, H5, H6. cbn [fst] in *.
  by subst.
Qed.

Lemma anonymized_rest (p : profile) :
  experience (data (anonymized_data (anonymize_resume_data p))) = experience (data p)
  /\ education (data (anonymized_data (anonymize_resume_data p))) = education (data p)
  /\ skills (data (anonymized_data (anonymize_resume_data p))) = skills (data p)
  /\ summary (data (anonymized_data (anonymize_resume_data p))) = summary (data p)
  /\ certifications (data (anonymized_data (anonymize_resume_data p)))
     = certifications (data p)
  /\ languages (data (anonymized_data (anonymize_resume_data p))) = languages (data p)
  /\ confidence_score (anonymized_data (anonymize_resume_data p)) = confidence_score p.
Proof.
  unfold anonymize_resume_data.
  destruct (redact "name" _ _ _) as [v1 r1].
  destruct (redact "email" _ _ _) as [v2 r2].
  destruct (redact "phone" _ _ _) as [v3 r3].
  destruct (redact "location" _ _ _) as [v4 r4].
  destruct (redact "linkedin" _ _ _) as [v5 r5].
  destruct (redact "github" _ _ _) as [v6 r6].
  repeat split.
Qed.

(** X20. After [anonymize_resume_data] every personal field is absent, empty
    or its placeholder, so no original value is left; the other fields and
    the stored confidence score are unchanged; and anonymizing the result
    again gives the same data. *)
Theorem anonymized_data_spec (p : profile) :
  let q := anonymized_data (anonymize_resume_data p) in
  (redacted "[NAME]" (full_name (personal_info (data q)))
   /\ redacted "[EMAIL]" (email (personal_info (data q)))
   /\ redacted "[PHONE]" (phone (personal_info (data q)))
   /\ redacted "[LOCATION]" (location (personal_info (data q)))
   /\ redacted "[PROFILE]" (linkedin (personal_info (data q)))
   /\ redacted "[PROFILE]" (github (personal_info (data q))))
  /\ (experience (data q) = experience (data p)
      /\ education (data q) = education (data p)
      /\ skills (data q) = skills (data p)
      /\ summary (data q) = summary (data p)
      /\ certifications (data q) = certifications (data p)
      /\ languages (data q) = languages (data p)
      /\ confidence_score q = confidence_score p)
  /\ anonymized_data (anonymize_resume_data q) = q.
Proof.
  intros q. subst q. split; [|split].
  - rewrite anonymized_personal. cbn [full_name email phone location linkedin github].
    repeat split; apply redact_redacted.
  - apply anonymized_rest.
  - set (q := anonymized_data (anonymize_resume_data p)).
    pose proof (anonymized_personal q) as Hq.
    pose proof (anonymized_rest q) as (H1 & H2 & H3 & H4 & H5 & H6 & H7).
    destruct (anonymized_data (anonymize_resume_data q)) as [[pi ex ed sk su ce la] cs].
    cbn [data personal_info experience education skills summary certifications
         languages confidence_score] in *.
    subst pi ex ed sk su ce la cs.
    subst q. rewrite (anonymized_personal p).
    cbn [full_name email phone location linkedin github].
    rewrite !redact_again by done.
    rewrite <- (anonymized_personal p).
    by destruct (anonymized_data (anonymize_resume_data p)) as [[? ? ? ? ? ? ?] ?].
Qed.

(** X21. Anonymization changes no score: the confidence score computed from
    the anonymized data is the one computed from the original data, and so
    is every field of the relevancy result, for every job description and
    with or without an embedding model. *)
Theorem anonymization_keeps_scores (p : profile) (now : Z) (max_str_digits : nat)
    (model : embedding) (job : str) :
  let q := anonymized_data (anonymize_resume_data p) in
  _calculate_confidence_enhanced (data q) = _calculate_confidence_enhanced (data p)
  /\ calculate_relevancy_score now max_str_digits model (data q) job
     = calculate_relevancy_score now max_str_digits model (data p) job.
Proof.
  intros q. subst q.
  pose proof (anonymized_personal p) as Hp.
  pose proof (anonymized_rest p) as (H1 & H2 & H3 & H4 & H5 & H6 & _).
  split.
  - unfold _calculate_confidence_enhanced, raw_score, has_any_data.
    rewrite Hp, H1, H2, H3, H4, H5, H6. cbn [full_name email phone].
    by rewrite !redact_truthy.
  - unfold calculate_relevancy_score, _semantic_match, resume_text.
    by rewrite H1, H2, H3, H4.
Qed.

End Anonymization.

(** ** The response formatter *)

Section FormatSkills.

Import ResponseFormatter.

Lemma skill_step_cases (a b c : list str) (s : str) :
  skill_step (a, b, c) s
  = (if in_languages s then a ++ [s] else a,
     if in_frameworks s then b ++ [s] else b,
     if in_tools s then c ++ [s] else c).
Proof.
  unfold skill_step, in_languages, in_tools, in_frameworks.
  destruct (has_keyword lang_keywords (lower s)),
    (has_keyword framework_keywords (lower s)),
    (has_keyword tool_keywords (lower s)); reflexivity.
Qed.

Lemma skill_step_filters (l : list str) (a b c : list str) :
  fold_left skill_step l (a, b, c)
  = (a ++ List.filter in_languages l, b ++ List.filter in_frameworks l,
     c ++ List.filter in_tools l).
Proof.
  revert a b c. induction l as [|s l IH]; intros a b c; cbn [fold_left List.filter].
  - by rewrite !app_nil_r.
  - rewrite skill_step_cases, IH.
    destruct (in_languages s), (in_frameworks s), (in_tools s);
      by rewrite <- ?app_assoc.
Qed.

Lemma category_cases (s : str) :
  (in_languages s = true /\ in_frameworks s = false /\ in_tools s = false)
  \/ (in_languages s = false /\ in_frameworks s = true /\ in_tools s = false)
  \/ (in_languages s = false /\ in_frameworks s = false /\ in_tools s = true).
Proof.
  unfold in_languages, in_tools, in_frameworks.
  destruct (has_keyword lang_keywords (lower s)),
    (has_keyword framework_keywords (lower s)),
    (has_keyword tool_keywords (lower s)); cbn; tauto.
Qed.

Lemma three_way_partition (l : list str) :
  Permutation
    (List.filter in_languages l ++ List.filter in_frameworks l
     ++ List.filter in_tools l) l.
Proof.
  induction l as [|s l IH]; [done|]. cbn [List.filter].
  destruct (category_cases s) as [(-> & -> & ->)|[(-> & -> & ->)|(-> & -> & ->)]];
    cbn [app].
  - apply perm_skip, IH.
  - rewrite <- Permutation_middle. apply perm_skip, IH.
  - rewrite app_assoc, <- Permutation_middle, <- app_assoc. apply perm_skip, IH.
Qed.

Lemma has_keyword_contains (keywords : list str) (kw s : str) :
  In kw keywords -> contains kw s = true -> has_keyword keywords s = true.
Proof. intros Hin Hc. unfold has_keyword. apply existsb_exists. by exists kw. Qed.

(** X22. [_format_skills] files every skill under exactly one of three
    categories, keeps the order of the input within each and leaves out the
    empty categories. The keywords are searched as substrings and the list
    of languages holds [r] and [go], so every skill with the letter r or
    with [go] in it, whatever its case, is filed under Programming
    Languages, where the skills without any keyword go too. *)
Theorem format_skills_categories (skills_list languages_list : list str) :
  technical (_format_skills skills_list languages_list)
  = List.filter (fun e => nonempty (items e))
      [ {| category := "Programming Languages";
           items := List.filter in_languages skills_list |};
        {| category := "Frameworks";
           items := List.filter in_frameworks skills_list |};
        {| category := "Tools & Technologies";
           items := List.filter in_tools skills_list |} ]
  /\ Permutation
       (List.filter in_languages skills_list
        ++ List.filter in_frameworks skills_list
        ++ List.filter in_tools skills_list) skills_list
  /\ (forall s, contains "r" (lower s) = true \/ contains "go" (lower s) = true ->
                in_languages s = true).
Proof.
  split; [|split].
  - unfold _format_skills. rewrite skill_step_filters. cbn [app technical].
    cbn [List.filter items].
    destruct (List.filter in_languages skills_list),
      (List.filter in_frameworks skills_list),
      (List.filter in_tools skills_list); reflexivity.
  - apply three_way_partition.
  - intros s Hs.
    assert (Hl : has_keyword lang_keywords (lower s) = true).
    { destruct Hs as [Hs|Hs].
      - apply (has_keyword_contains _ "r"); [|done]. unfold lang_keywords.
        do 13 right. by left.
      - apply (has_keyword_contains _ "go"); [|done]. unfold lang_keywords.
        do 4 right. by left. }
    unfold in_languages, in_frameworks, in_tools. by rewrite Hl.
Qed.

Lemma format_skills_categories_witness :
  (contains "r" (lower "Docker") = true \/ contains "go" (lower "Docker") = true)
  /\ in_languages "Docker" = true
  /\ in_languages "Django" = true.
Proof.
  destruct (format_skills_categories [] []) as (_ & _ & H).
  split; [left; vm_compute; reflexivity|].
  split; apply H; [left | right]; vm_compute; reflexivity.
Defined.

End FormatSkills.

Section FormatParsed.

Import ResponseFormatter Examples.

Lemma format_language_common (lang : str) :
  In lang common_langs ->
  format_language lang
  = {| language := lang; proficiency := "Conversational" |}.
Proof.
  unfold common_langs. intros H.
  repeat destruct H as [<-|H]; try (vm_compute; reflexivity). destruct H.
Qed.

Lemma letters_spaces_no_dash (c : str) :
  forallb (cor is_alpha is_space) c = true ->
  forallb (fun x => negb (Ascii.eqb x "-")) c = true.
Proof.
  rewrite !forallb_forall. intros H x Hx. specialize (H x Hx). revert H.
  generalize x. clear.
  assert (Ha : forall x, implb (cor is_alpha is_space x) (negb (Ascii.eqb x "-")) = true).
  { apply forallb_all_ascii. vm_compute. reflexivity. }
  intros x Hx. specialize (Ha x). by rewrite Hx in Ha.
Qed.

Lemma format_cert_plain (c : str) :
  forallb (cor is_alpha is_space) c = true -> issuer (format_cert c) = None.
Proof.
  intros H. unfold format_cert.
  by rewrite (split_on_single "-" c (letters_spaces_no_dash c H)).
Qed.

(** X23. For a parsed profile the formatter never finds a proficiency or an
    issuer: the languages come from a fixed list and the certifications
    hold letters and white space only, so neither holds the dash at which
    the formatter splits. Every language is reported under its own name with
    the proficiency [Conversational], and every certification without
    issuer. *)
Theorem parsed_languages_and_certifications (env : Env) (input : pyval)
    (skills_list : list str) :
  f_languages (_format_skills skills_list (languages (data (parse env input))))
  = map (fun lang => {| language := lang; proficiency := "Conversational" |})
      (languages (data (parse env input)))
  /\ Forall (fun c => issuer c = None)
       (_format_certifications (certifications (data (parse env input)))).
Proof.
  split.
  - unfold _format_skills.
    destruct (fold_left skill_step skills_list ([], [], [])) as [[pl fw] tl].
    cbn [f_languages parse data languages].
    apply map_ext_in. intros lang Hl.
    by apply format_language_common, (extract_languages_in _ _ Hl).
  - unfold _format_certifications. cbn [parse data certifications].
    apply Forall_forall. intros c Hc.
    apply list_elem_of_In, in_map_iff in Hc as (x & <- & Hx).
    pose proof (extract_certifications_ok
                  (_preprocess_text match input with PStr s => s | PNotStr => [] end))
      as Hok.
    rewrite Forall_forall in Hok. apply list_elem_of_In, Hok in Hx.
    destruct Hx as (_ & Hx & _). by apply format_cert_plain.
Qed.

Lemma with_scheme_prefixed (prefix g : str) :
  4 <= length prefix -> startswith "http" prefix = false ->
  with_scheme (Some (prefix ++ g)) = Some (("https://" : str) ++ prefix ++ g).
Proof.
  intros Hp Hh. unfold with_scheme.
  destruct prefix as [|a [|b [|c [|e p]]]]; cbn [length] in Hp; try lia.
  cbn [app truthy].
  assert (Hs : startswith "http" (a :: b :: c :: e :: p ++ g)
               = startswith "http" (a :: b :: c :: e :: p)) by reflexivity.
  by rewrite Hs, Hh.
Qed.

Lemma extract_handle_cases (pattern : re) (prefix text : str) :
  extract_handle pattern prefix text = None
  \/ exists g, extract_handle pattern prefix text = Some (prefix ++ g).
Proof.
  unfold extract_handle. destruct (search true pattern text) as [m|]; [|by left].
  destruct (group text m 1) as [g|]; [right; by exists g | by left].
Qed.

(** X24. The formatter puts [https://] before the LinkedIn and GitHub handles
    of every parsed profile: the parser builds them as [linkedin.com/in/...]
    and [github.com/...], which never start with [http]. The website is the
    GitHub link. *)
Theorem parsed_links_get_scheme (env : Env) (input : pyval) :
  let info := personal_info (data (parse env input)) in
  c_linkedin (contact (_format_personal_info info))
  = (fun l => ("https://" : str) ++ l) <$> linkedin info
  /\ website (contact (_format_personal_info info))
     = (fun g => ("https://" : str) ++ g) <$> github info
  /\ (forall l, linkedin info = Some l -> startswith "linkedin.com/in/" l = true)
  /\ (forall g, github info = Some g -> startswith "github.com/" g = true).
Proof.
  intros info. subst info. cbn [parse data personal_info].
  unfold _extract_personal_info_enhanced, _format_personal_info.
  cbn [contact c_linkedin website linkedin github].
  set (text := match input with PStr s => s | PNotStr => [] end).
  destruct (extract_handle_cases linkedin_pattern "linkedin.com/in/" text)
    as [Hl|[g Hl]];
    destruct (extract_handle_cases github_pattern "github.com/" text)
      as [Hg|[g' Hg]]; rewrite Hl, Hg; cbn [fmap option_fmap option_map some_truthy].
  - repeat split; done.
  - rewrite with_scheme_prefixed by (cbn; (lia || reflexivity)).
    assert (Ht : truthy (("github.com/" : str) ++ g') = true) by done.
    rewrite Ht. repeat split; try done.
    intros x Hx. injection Hx as Hx. rewrite <- Hx.
    exact (startswith_app "github.com/" g').
  - rewrite with_scheme_prefixed by (cbn; (lia || reflexivity)). repeat split; try done.
    intros x Hx. injection Hx as Hx. rewrite <- Hx.
    exact (startswith_app "linkedin.com/in/" g).
  - rewrite !with_scheme_prefixed by (cbn; (lia || reflexivity)).
    assert (Ht : truthy (("github.com/" : str) ++ g') = true) by done.
    rewrite Ht. repeat split; try done; intros x Hx; injection Hx as Hx;
      rewrite <- Hx.
    + exact (startswith_app "linkedin.com/in/" g).
    + exact (startswith_app "github.com/" g').
Qed.

Lemma parsed_links_get_scheme_witness :
  linkedin (personal_info (data (parse plain_env (PStr text_only_linkedin))))
    = Some ("linkedin.com/in/jdoe" : str)
  /\ c_linkedin (contact (_format_personal_info
       (personal_info (data (parse plain_env (PStr text_only_linkedin))))))
     = Some ("https://linkedin.com/in/jdoe" : str).
Proof.
  assert (H : linkedin (personal_info (data (parse plain_env (PStr text_only_linkedin))))
              = Some ("linkedin.com/in/jdoe" : str)) by (vm_compute; reflexivity).
  split; [exact H|].
  destruct (parsed_links_get_scheme plain_env (PStr text_only_linkedin)) as [Hl _].
  rewrite Hl, H. reflexivity.
Defined.

End FormatParsed.

Section QualityScores.

Import ResponseFormatter.

Lemma py_int_whole (x : Q) (z : Z) : (x == inject_Z z)%Q -> py_int x = z.
Proof.
  intros H. unfold py_int. destruct (Qle_bool 0 x).
  - rewrite (Qfloor_comp _ _ H). apply Qfloor_Z.
  - rewrite (Qceiling_comp _ _ H). apply Qceiling_Z.
Qed.

(** X25. For a parsed profile the quality score is the confidence score
    itself, which is a whole number, so the conversion to an integer loses
    nothing. The completeness score is a multiple of ten between 0 and 100,
    and it is 0 whenever the quality score is: a profile that scores no
    confidence has none of the six items that completeness counts. *)
Theorem quality_and_completeness (env : Env) (input : pyval) :
  let p := parse env input in
  (inject_Z (qualityScore p) == confidence_score p)%Q
  /\ (0 <= qualityScore p <= 100)%Z
  /\ (0 <= completenessScore p <= 100)%Z
  /\ (completenessScore p mod 10 = 0)%Z
  /\ (qualityScore p = 0%Z -> completenessScore p = 0%Z).
Proof.
  intros p. subst p. set (pd := data (parse env input)).
  assert (Hc : confidence_score (parse env input) = _calculate_confidence_enhanced pd)
    by reflexivity.
  pose proof (confidence_points pd) as Hp.
  pose proof (raw_points_nonneg pd) as Hn.
  set (z := Z.min 100 _) in Hp.
  assert (Hq : qualityScore (parse env input) = z).
  { unfold qualityScore. rewrite Hc. by apply py_int_whole. }
  rewrite Hq, Hc.
  assert (Hcomp : forall q : profile,
             (0 <= completenessScore q <= 100)%Z
             /\ (completenessScore q mod 10 = 0)%Z).
  { intros q. unfold completenessScore.
    destruct (some_truthy (full_name (personal_info (data q)))),
      (some_truthy (email (personal_info (data q)))),
      (nonempty (experience (data q))), (nonempty (education (data q))),
      (nonempty (skills (data q))), (some_truthy (summary (data q)));
      split; (lia || reflexivity). }
  destruct (Hcomp (parse env input)) as [Hc1 Hc2].
  split; [by rewrite Hp|]. split.
  { subst z. destruct (raw_points pd =? 0)%Z; [destruct (has_any_data pd)|]; lia. }
  split; [done|]. split; [done|].
  intros Hz. subst z.
  destruct (raw_points pd =? 0)%Z eqn:Hr; [|lia].
  apply Z.eqb_eq in Hr. destruct (has_any_data pd) eqn:Hd; [lia|].
  apply raw_points_zero in Hr as (H1 & H2 & _ & H4 & _).
  unfold has_any_data in Hd. rewrite H1, H2, H4 in Hd. cbn [orb nonempty] in Hd.
  apply orb_false_iff in Hd as [Hd Hsum].
  apply orb_false_iff in Hd as [Hd _].
  apply orb_false_iff in Hd as [Hd Hed].
  apply orb_false_iff in Hd as [_ Hex].
  unfold completenessScore. fold pd. by rewrite H1, H2, H4, Hex, Hed, Hsum.
Qed.

Lemma quality_and_completeness_witness :
  qualityScore (parse Examples.plain_env (PStr Examples.text_only_linkedin)) = 0%Z
  /\ completenessScore (parse Examples.plain_env (PStr Examples.text_only_linkedin))
     = 0%Z.
Proof.
  assert (H : qualityScore (parse Examples.plain_env (PStr Examples.text_only_linkedin))
              = 0%Z) by (vm_compute; reflexivity).
  split; [exact H|].
  destruct (quality_and_completeness Examples.plain_env
              (PStr Examples.text_only_linkedin)) as (_ & _ & _ & _ & Hz).
  exact (Hz H).
Defined.

End QualityScores.


(** ** Names, handles and grades: what the captured groups hold *)

Section FirstAndLast.

Lemma head_app_nonempty (w1 w2 : list ascii) : w1 <> [] -> head (w1 ++ w2) = head w1.
Proof. by destruct w1. Qed.

Lemma last_app_nonempty (w1 w2 : list ascii) : w2 <> [] -> last (w1 ++ w2) = last w2.
Proof.
  intros H. destruct w2 as [|c w2] using rev_ind; [done|].
  by rewrite app_assoc, !last_snoc.
Qed.

Lemma starts_within_sound (ic : bool) (P : ascii -> bool) (r : re) (w : str) :
  Matches ic r w -> starts_within ic P r = true ->
  forall c, head w = Some c -> P c = true.
Proof.
  induction 1 as [ |p c Hc|a b w1 w2 H1 IH1 H2 IH2|a b w _ IH|a b w _ IH|a hi
                 |a lo hi w1 w2 Hu H1 IH1 H2 IH2| | | |n a w _ IH];
    cbn [starts_within]; try done.
  - intros Hw x [= <-]. by apply (class_within_spec ic P p).
  - intros [Ha Hb]%andb_true_iff x Hx. destruct w1 as [|y w1].
    + apply orb_true_iff in Hb as [Hb|Hb].
      * by apply (never_empty_sound _ _ _ H1) in Hb.
      * by apply IH2.
    + by apply IH1.
  - intros [Ha Hb]%andb_true_iff. by apply IH.
  - intros [Ha Hb]%andb_true_iff. by apply IH.
  - intros Ha x Hx. destruct w1 as [|y w1]; [by apply IH2 | by apply IH1].
Qed.

Lemma ends_within_sound (ic : bool) (P : ascii -> bool) (r : re) (w : str) :
  Matches ic r w -> ends_within ic P r = true ->
  forall c, last w = Some c -> P c = true.
Proof.
  induction 1 as [ |p c Hc|a b w1 w2 H1 IH1 H2 IH2|a b w _ IH|a b w _ IH|a hi
                 |a lo hi w1 w2 Hu H1 IH1 H2 IH2| | | |n a w _ IH];
    cbn [ends_within]; try done.
  - intros Hw x [= <-]. by apply (class_within_spec ic P p).
  - intros [Hb Ha]%andb_true_iff x Hx.
    destruct (decide (w2 = [])) as [->|Hne].
    + rewrite app_nil_r in Hx. apply orb_true_iff in Ha as [Ha|Ha].
      * by apply (never_empty_sound _ _ _ H2) in Ha.
      * by apply IH1.
    + rewrite last_app_nonempty in Hx by done. by apply IH2.
  - intros [Ha Hb]%andb_true_iff. by apply IH.
  - intros [Ha Hb]%andb_true_iff. by apply IH.
  - intros Ha x Hx. destruct (decide (w2 = [])) as [->|Hne].
    + rewrite app_nil_r in Hx. by apply IH1.
    + rewrite last_app_nonempty in Hx by done. by apply IH2.
Qed.

(** A text that neither starts nor ends with white space is its own
    [strip]. *)
Lemma strip_ends (s : str) (a b : ascii) :
  head s = Some a -> is_space a = false ->
  last s = Some b -> is_space b = false -> strip s = s.
Proof.
  intros Ha Hsa Hb Hsb. unfold strip, rstrip.
  assert (Hl : lstrip s = s).
  { destruct s as [|c s]; [done|]. injection Ha as ->. cbn [lstrip]. by rewrite Hsa. }
  rewrite Hl.
  assert (Hr : lstrip (rev s) = rev s).
  { destruct (rev s) as [|c t] eqn:Hrev; [done|].
    assert (Hc : last s = Some c).
    { rewrite <- (rev_involutive s), Hrev. cbn [rev]. apply last_snoc. }
    rewrite Hb in Hc. injection Hc as <-. cbn [lstrip]. by rewrite Hsb. }
  rewrite Hr. apply rev_involutive.
Qed.

End FirstAndLast.

Section Handles.

Import Examples.

Lemma handle_re_matches (h : str) : Matches true handle_re h -> handle_string h.
Proof.
  intros Hw. split.
  - apply (never_empty_sound true handle_re h Hw). vm_compute. reflexivity.
  - apply (all_within_sound true _ handle_re h Hw). vm_compute. reflexivity.
Qed.

Lemma extract_handle_spec (pattern : re) (prefix text l : str) :
  groups_of pattern = [(1, handle_re)] ->
  extract_handle pattern prefix text = Some l ->
  exists h, l = prefix ++ h /\ handle_string h.
Proof.
  intros Hg. unfold extract_handle.
  destruct (search true pattern text) as [m|] eqn:Hs; [|done].
  destruct (group text m 1) as [g|] eqn:Hgr; [|done]. intros [= <-].
  destruct (search_group true pattern text m 1 g Hs Hgr) as (a & Hin & Ha).
  rewrite Hg in Hin. destruct Hin as [[= <-]|[]].
  exists g. split; [done|]. by apply handle_re_matches.
Qed.

(** X26. The LinkedIn and GitHub links of a parsed profile, when present, are
    [linkedin.com/in/] and [github.com/] followed by a handle that is not
    empty and holds letters, digits and dashes only. A handle found after
    [linkedin.com/pub/] is reported after [linkedin.com/in/] as well. *)
Theorem parsed_handles (env : Env) (input : pyval) :
  (forall l, linkedin (personal_info (data (parse env input))) = Some l ->
             exists h, l = ("linkedin.com/in/" : str) ++ h /\ handle_string h)
  /\ (forall g, github (personal_info (data (parse env input))) = Some g ->
                exists h, g = ("github.com/" : str) ++ h /\ handle_string h).
Proof.
  cbn [parse data personal_info _extract_personal_info_enhanced linkedin github].
  split; intros l Hl.
  - by apply (extract_handle_spec linkedin_pattern _ _ _ eq_refl Hl).
  - by apply (extract_handle_spec github_pattern _ _ _ eq_refl Hl).
Qed.

Lemma parsed_handles_witness :
  linkedin (personal_info (data (parse plain_env (PStr "see linkedin.com/pub/j-doe7 now"))))
    = Some ("linkedin.com/in/j-doe7" : str)
  /\ exists h, ("linkedin.com/in/j-doe7" : str) = ("linkedin.com/in/" : str) ++ h
               /\ handle_string h.
Proof.
  assert (H : linkedin (personal_info
                (data (parse plain_env (PStr "see linkedin.com/pub/j-doe7 now"))))
              = Some ("linkedin.com/in/j-doe7" : str)) by (vm_compute; reflexivity).
  split; [exact H|].
  exact (proj1 (parsed_handles plain_env (PStr "see linkedin.com/pub/j-doe7 now")) _ H).
Defined.

End Handles.

Section Gpa.

Import Examples.

Lemma digits_ci (w : str) (lo : nat) (hi : option nat) :
  Matches true (Rep d lo hi) w -> forallb is_digit w = true.
Proof.
  intros Hw. apply (all_within_sound true is_digit _ w Hw). vm_compute. reflexivity.
Qed.

Lemma accepts_dot (c : ascii) : accepts true (Ascii.eqb ".") c = true -> c = "."%char.
Proof.
  assert (H : forall x, implb (accepts true (Ascii.eqb ".") x) (Ascii.eqb x ".") = true).
  { apply forallb_all_ascii. vm_compute. reflexivity. }
  intros Hc. specialize (H c). rewrite Hc in H. by apply Ascii.eqb_eq in H.
Qed.

Lemma odot_matches (w : str) : Matches true odot w -> w = [] \/ w = ["."%char].
Proof.
  unfold odot, opt. intros Hw.
  inversion Hw as [| | | | |a hi|a lo hi w1 w2 Hu H1 H2| | | |]; subst; [by left|].
  cbn [pred fmap option_fmap option_map] in H2.
  inversion H1 as [|p c Hc| | | | | | | | |]; subst. apply accepts_dot in Hc. subst c.
  inversion H2 as [| | | | |a hi|a lo hi w3 w4 Hu' H3 H4| | | |]; subst; [by right|].
  cbn [under] in Hu'. done.
Qed.

Lemma gpa_group_matches (g : str) :
  Matches true (seqs [plus d; odot; star d]) g -> gpa_string g.
Proof.
  cbn [seqs]. intros Hw.
  inversion Hw as [| |a b w1 w23 H1 H23| | | | | | | |]; subst.
  inversion H23 as [| |a b w2 w3 H2 H3| | | | | | | |]; subst.
  exists w1, w2, w3. split; [done|].
  split; [apply (never_empty_sound true (plus d) w1 H1); vm_compute; reflexivity|].
  split; [by apply (digits_ci w1 1 None)|].
  split; [by apply odot_matches|]. by apply (digits_ci w3 0 None).
Qed.

Lemma edu_gpa_string (line : str) (e : edu_entry) :
  (forall g, gpa e = Some g -> gpa_string g) ->
  forall g, gpa (edu_gpa line e) = Some g -> gpa_string g.
Proof.
  intros He. unfold edu_gpa.
  destruct (search true gpa_pattern line) as [m|] eqn:Hs; [|done].
  destruct (group line m 1) as [x|] eqn:Hg; [|done].
  cbn [gpa set_gpa]. intros g [= <-].
  destruct (search_group true gpa_pattern line m 1 x Hs Hg) as (a & Hin & Ha).
  destruct Hin as [[= <-]|[]]. by apply gpa_group_matches.
Qed.

Lemma edu_other_gpa (line : str) (e : edu_entry) :
  gpa (edu_year line (edu_institution line e)) = gpa e.
Proof.
  unfold edu_year, edu_institution.
  destruct (search false year_pattern line) as [m|].
  - destruct (some_truthy (year _)); cbn [gpa set_year];
      destruct (some_truthy (institution e)); try done;
      (destruct (search false institution_pattern line);
       [destruct (group _ _ _); [destruct (_ <=? 100)|]; done|]);
      (destruct (_ && _); [destruct (inst_words_loop _ _ _)|]; done).
  - destruct (some_truthy (institution e)); [done|].
    destruct (search false institution_pattern line).
    + destruct (group _ _ _); [destruct (_ <=? 100)|]; done.
    + destruct (_ && _); [destruct (inst_words_loop _ _ _)|]; done.
Qed.

Lemma edu_step_gpa (st : list edu_entry * option edu_entry) (line : str) :
  Forall (fun e => forall g, gpa e = Some g -> gpa_string g) (fst st) ->
  (forall e, snd st = Some e -> forall g, gpa e = Some g -> gpa_string g) ->
  Forall (fun e => forall g, gpa e = Some g -> gpa_string g) (fst (edu_step st line))
  /\ (forall e, snd (edu_step st line) = Some e ->
                forall g, gpa e = Some g -> gpa_string g).
Proof.
  destruct st as [education current]. cbn [fst snd]. intros Hl Hc.
  unfold edu_step.
  destruct (negb (truthy line)); [done|].
  destruct (negb (truthy (strip line)) || (length (strip line) <? 5)).
  { destruct current as [e|]; [|done].
    destruct (some_truthy (degree e)); [|done]. cbn [fst snd]. split; [|done].
    apply Forall_app. split; [done|]. apply Forall_singleton. by apply Hc. }
  set (line' := if 300 <? length (strip line) then _ else _).
  destruct (find_degree degree_patterns line') as [dg|] eqn:Hd.
  - cbn [fst snd]. split.
    + unfold commit_edu. destruct current as [e|]; [|done].
      destruct (some_truthy (degree e)); [|done].
      apply Forall_app. split; [done|]. apply Forall_singleton. by apply Hc.
    + intros e He. injection He as He. rewrite <- He.
      apply edu_gpa_string. by rewrite edu_other_gpa.
  - destruct current as [e|]; [|done]. cbn [fst snd]. split; [done|].
    intros e' He. injection He as He. rewrite <- He.
    apply edu_gpa_string. rewrite edu_other_gpa. by apply Hc.
Qed.

(** X27. The GPA of an education entry of a parsed profile, when present, is
    one or more digits, then possibly a dot, then possibly more digits: it
    is never empty, starts with a digit and holds no other character, so it
    always reads as a number. *)
Theorem parsed_gpa (env : Env) (input : pyval) :
  Forall (fun e => forall g, gpa e = Some g -> gpa_string g)
    (education (data (parse env input))).
Proof.
  cbn [parse data education]. unfold _extract_education_enhanced.
  set (lines := split_on nl _).
  assert (H : forall (l : list str) st,
             Forall (fun e => forall g, gpa e = Some g -> gpa_string g) (fst st) ->
             (forall e, snd st = Some e -> forall g, gpa e = Some g -> gpa_string g) ->
             Forall (fun e => forall g, gpa e = Some g -> gpa_string g)
               (fst (fold_left edu_step l st))
             /\ (forall e, snd (fold_left edu_step l st) = Some e ->
                           forall g, gpa e = Some g -> gpa_string g)).
  { induction l as [|x l IH]; intros st H1 H2; cbn [fold_left]; [done|].
    destruct (edu_step_gpa st x H1 H2) as [H3 H4]. by apply IH. }
  destruct (H lines ([], None)) as [H1 H2]; [done|done|].
  destruct (fold_left edu_step lines ([], None)) as [education current].
  cbn [fst snd] in *. unfold commit_edu. destruct current as [e|]; [|done].
  destruct (some_truthy (degree e)); [|done].
  apply Forall_app. split; [done|]. apply Forall_singleton. by apply H2.
Qed.

Lemma parsed_gpa_witness :
  exists e, In e (education (data (parse plain_env
                    (PStr "Education: Bachelor of Science in Physics, GPA: 3.8"))))
            /\ gpa e = Some ("3.8" : str) /\ gpa_string "3.8".
Proof.
  assert (H : map gpa (education (data (parse plain_env
                (PStr "Education: Bachelor of Science in Physics, GPA: 3.8"))))
              = [Some ("3.8" : str)]) by (vm_compute; reflexivity).
  pose proof (parsed_gpa plain_env
                (PStr "Education: Bachelor of Science in Physics, GPA: 3.8")) as Hg.
  destruct (education (data (parse plain_env
              (PStr "Education: Bachelor of Science in Physics, GPA: 3.8"))))
    as [|e l]; [done|].
  injection H as He _. exists e. split; [by left|]. split; [done|].
  apply Forall_cons in Hg as [Hg _]. by apply Hg.
Defined.

End Gpa.

Section Names.

Import Examples.

Lemma insert_desc_in {A : Type} (key : A -> Q * bool) (x y : A) (l : list A) :
  In y (insert_desc key x l) -> y = x \/ In y l.
Proof.
  induction l as [|z l IH]; cbn [insert_desc].
  - intros [<-|[]]. by left.
  - destruct (key_lt (key x) (key z)).
    + intros [<-|H]; [right; by left|].
      destruct (IH H) as [->|Hl]; [by left | right; by right].
    + intros [<-|H]; [by left | by right].
Qed.

Lemma sort_desc_in {A : Type} (key : A -> Q * bool) (l : list A) (y : A) :
  In y (sort_desc key l) -> In y l.
Proof.
  unfold sort_desc. induction l as [|x l IH]; cbn [foldr]; [done|].
  intros H. apply insert_desc_in in H as [->|H]; [by left | right; by apply IH].
Qed.

Lemma name_group_matches (g : str) :
  Matches false (Seq cap_word (between (Seq (plus sp) cap_word) 1 3)) g ->
  name_string g /\ strip g = g.
Proof.
  intros Hw.
  assert (Hlen : 5 <= length g).
  { pose proof (min_count_sound false (fun _ => true) _ g Hw) as H.
    rewrite count_true_length in H.
    assert (Hm : min_count false (fun _ => true)
                   (Seq cap_word (between (Seq (plus sp) cap_word) 1 3)) = 5)
      by (vm_compute; reflexivity).
    lia. }
  assert (Hall : forallb (cor is_alpha is_space) g = true).
  { apply (all_within_sound false _ _ g Hw). vm_compute. reflexivity. }
  destruct g as [|c0 g0] eqn:Hg; [cbn in Hlen; lia|]. rewrite <- Hg in *.
  assert (Hhead : exists c, head g = Some c /\ is_upper c = true).
  { exists c0. split; [by rewrite Hg|].
    apply (starts_within_sound false is_upper _ g Hw); [|by rewrite Hg].
    vm_compute. reflexivity. }
  assert (Hlast : exists c, last g = Some c /\ is_lower c = true).
  { destruct (last g) as [c|] eqn:Hl.
    - exists c. split; [done|].
      apply (ends_within_sound false is_lower _ g Hw); [|done].
      vm_compute. reflexivity.
    - apply last_None in Hl. congruence. }
  split; [by repeat split|].
  destruct Hhead as (a & Ha & Hau). destruct Hlast as (b & Hb & Hbl).
  apply (strip_ends g a b Ha); [|done|].
  - revert Hau. generalize a.
    assert (H : forall x, implb (is_upper x) (negb (is_space x)) = true)
      by (apply forallb_all_ascii; vm_compute; reflexivity).
    intros x Hx. specialize (H x). rewrite Hx in H. by apply negb_true_iff in H.
  - revert Hbl. generalize b.
    assert (H : forall x, implb (is_lower x) (negb (is_space x)) = true)
      by (apply forallb_all_ascii; vm_compute; reflexivity).
    intros x Hx. specialize (H x). rewrite Hx in H. by apply negb_true_iff in H.
Qed.

Lemma pattern_names_ok (cleaned_text : str) (c : candidate) :
  In c (pattern_names cleaned_text) ->
  name_string (fst (fst c))
  /\ Forall (fun w => contains (lower w) (lower (fst (fst c))) = false)
       name_stop_words.
Proof.
  unfold pattern_names.
  generalize (if truthy cleaned_text
              then match split_on nl cleaned_text with l :: _ => l | [] => [] end
              else []).
  intros first_line. cbv zeta.
  destruct (truthy first_line); [|done].
  destruct (search false name_pattern first_line) as [m|] eqn:Hs; [|done].
  destruct (group first_line m 1) as [g|] eqn:Hg; [|done].
  destruct (search_group false name_pattern first_line m 1 g Hs Hg) as (a & Hin & Ha).
  destruct Hin as [[= <-]|[]].
  apply name_group_matches in Ha as [Hn Hstrip]. rewrite Hstrip.
  destruct (truthy g && negb (existsb _ name_stop_words)) eqn:Hc; [|done].
  intros [<-|[]]. cbn [fst]. split; [done|].
  apply andb_true_iff in Hc as [_ Hc]. apply negb_true_iff in Hc.
  apply Forall_forall. intros w Hw. apply list_elem_of_In in Hw.
  destruct (contains (lower w) (lower g)) eqn:Hcw; [|done].
  assert (Ht : existsb (fun w => contains (lower w) (lower g)) name_stop_words = true).
  { apply existsb_exists. by exists w. }
  congruence.
Qed.

(** X28. Without NER back ends the name of a parsed profile comes from the
    first line alone. When there is one it has at least five characters,
    letters and white space only, starts with an upper-case letter and ends
    with a lower-case one, and holds none of the words that mark a company
    or a job title ([inc], [llc], [corp], [company], [engineer],
    [manager]), in any case. *)
Theorem parsed_name_without_ner (env : Env) (input : pyval) (nm : str) :
  spacy_nlp env = None -> transformer_ner env = None ->
  full_name (personal_info (data (parse env input))) = Some nm ->
  name_string nm
  /\ Forall (fun w => contains (lower w) (lower nm) = false) name_stop_words.
Proof.
  intros Hsp Htr.
  cbn [parse data personal_info _extract_personal_info_enhanced full_name].
  unfold extract_name, spacy_names, transformer_names. rewrite Hsp, Htr.
  cbn [app]. cbv zeta.
  destruct (sort_desc cand_key (pattern_names _)) as [|c l] eqn:Hsort; [done|].
  intros [= <-]. eapply pattern_names_ok, (sort_desc_in cand_key).
  rewrite Hsort. by left.
Qed.

Lemma parsed_name_without_ner_witness :
  full_name (personal_info (data (parse plain_env (PStr text_scenario))))
    = Some ("John Doe" : str)
  /\ name_string "John Doe".
Proof.
  assert (H : full_name (personal_info (data (parse plain_env (PStr text_scenario))))
              = Some ("John Doe" : str)) by (vm_compute; reflexivity).
  split; [exact H|].
  exact (proj1 (parsed_name_without_ner plain_env (PStr text_scenario) _
                  eq_refl eq_refl H)).
Defined.

End Names.

(** ** Job roles and skill names *)

Section JobRoles.

Import ClassificationService.

Lemma keyword_scores_in (table : list (str * list str)) (all_text k : str) (v : Z) :
  In (k, v) (keyword_scores table all_text) ->
  exists keywords, In (k, keywords) table /\ v = keyword_score all_text keywords
                   /\ (0 < v)%Z.
Proof.
  unfold keyword_scores. induction table as [|[k' kws] table IH]; [done|].
  cbn [omap list_omap fst snd].
  destruct (0 <? keyword_score all_text kws)%Z eqn:Hpos.
  - intros [[= <- <-]|H].
    + exists kws. split; [by left|]. split; [done|]. by apply Z.ltb_lt.
    + destruct (IH H) as (kws' & Hin & Hv). exists kws'. split; [by right | done].
  - intros H. destruct (IH H) as (kws' & Hin & Hv). exists kws'.
    split; [by right | done].
Qed.

Lemma keyword_scores_nil (table : list (str * list str)) (all_text : str) :
  keyword_scores table all_text = [] -> no_keyword table all_text.
Proof.
  unfold keyword_scores, no_keyword.
  induction table as [|entry table IH]; [by intros _ ? ? []|].
  cbn [omap list_omap].
  destruct (0 <? keyword_score all_text (snd entry))%Z eqn:Hpos; [done|].
  intros Hnil e kw [<-|He] Hkw; [|by apply (IH Hnil e kw)].
  destruct (contains kw all_text) eqn:Hc; [|done].
  apply Z.ltb_ge in Hpos. unfold keyword_score in Hpos.
  assert (Hin : In kw (List.filter (fun keyword => contains keyword all_text)
                         (snd entry))) by (by apply filter_In).
  destruct (List.filter _ (snd entry)); [done|]. cbn [length] in Hpos. lia.
Qed.

Lemma keyword_score_ge (all_text kw : str) (keywords : list str) :
  In kw keywords -> contains kw all_text = true ->
  (1 <= keyword_score all_text keywords)%Z.
Proof.
  intros Hin Hc. unfold keyword_score.
  assert (H : In kw (List.filter (fun keyword => contains keyword all_text) keywords))
    by (by apply filter_In).
  destruct (List.filter _ keywords); [done|]. cbn [length]. lia.
Qed.

Lemma keyword_scores_nodup (table : list (str * list str)) (all_text : str) :
  List.NoDup (map fst table) -> List.NoDup (map fst (keyword_scores table all_text)).
Proof.
  induction table as [|entry table IH]; [done|].
  cbn [map]. intros Hnd. apply List.NoDup_cons_iff in Hnd as [Hnot Hnd].
  unfold keyword_scores. cbn [omap list_omap].
  destruct (0 <? keyword_score all_text (snd entry))%Z; [|by apply IH].
  cbn [map fst]. apply List.NoDup_cons; [|by apply IH].
  intros Hin. apply Hnot.
  pose proof (keyword_scores_keys table all_text) as Hk.
  rewrite Forall_forall in Hk.
  apply in_map_iff in Hin as (e & <- & He). by apply Hk, list_elem_of_In.
Qed.

Lemma dict_get_in (d : list (str * Z)) (e : str * Z) :
  List.NoDup (map fst d) -> In e d -> dict_get d (fst e) = snd e.
Proof.
  unfold dict_get. induction d as [|x d IH]; [done|].
  cbn [map List.find]. intros Hnd. apply List.NoDup_cons_iff in Hnd as [Hnot Hnd].
  intros [->|Hin].
  - by rewrite str_eqb_refl.
  - destruct (str_eqb (fst x) (fst e)) eqn:Hx; [|by apply IH].
    apply str_eqb_eq in Hx. exfalso. apply Hnot. rewrite Hx. by apply in_map.
Qed.

(** [max] returns the first of the items with the greatest value. *)
Lemma max_item_first (best : str * Z) (d : list (str * Z)) :
  max_item best d = best
  \/ (In (max_item best d) d /\ (snd best < snd (max_item best d))%Z).
Proof.
  revert best. induction d as [|e d IH]; intros best; cbn [max_item]; [by left|].
  destruct (snd best <? snd e)%Z eqn:Hlt.
  - apply Z.ltb_lt in Hlt. destruct (IH e) as [->|[Hin Hl]].
    + right. split; [by left | done].
    + right. split; [by right | lia].
  - destruct (IH best) as [->|[Hin Hl]]; [by left|]. right. split; [by right | done].
Qed.

Lemma max_item_ge (best : str * Z) (d : list (str * Z)) :
  Forall (fun e => (snd e <= snd (max_item best d))%Z) (best :: d).
Proof.
  revert best. induction d as [|e d IH]; intros best; cbn [max_item].
  - apply Forall_singleton. lia.
  - destruct (snd best <? snd e)%Z eqn:Hlt.
    + apply Z.ltb_lt in Hlt. specialize (IH e).
      apply Forall_cons in IH as [He Hd].
      apply Forall_cons. split; [lia|]. by apply Forall_cons.
    + apply Z.ltb_ge in Hlt. specialize (IH best).
      apply Forall_cons in IH as [Hb Hd].
      apply Forall_cons. split; [done|]. apply Forall_cons. split; [lia | done].
Qed.

Lemma keyword_scores_cons (entry : str * list str) (table : list (str * list str))
    (all_text : str) :
  keyword_scores (entry :: table) all_text
  = if (0 <? keyword_score all_text (snd entry))%Z
    then (fst entry, keyword_score all_text (snd entry))
           :: keyword_scores table all_text
    else keyword_scores table all_text.
Proof.
  unfold keyword_scores. cbn [omap list_omap].
  by destruct (0 <? keyword_score all_text (snd entry))%Z.
Qed.

(** When [max] does not choose the first role of the table, it chooses a
    later one with a greater score. *)
Lemma max_item_after_first (entry : str * list str) (table : list (str * list str))
    (all_text : str) (e : str * Z) (d : list (str * Z)) :
  keyword_scores (entry :: table) all_text = e :: d ->
  fst (max_item e d) <> fst entry ->
  In (max_item e d) (keyword_scores table all_text)
  /\ (keyword_score all_text (snd entry) < snd (max_item e d))%Z.
Proof.
  rewrite keyword_scores_cons.
  destruct (0 <? keyword_score all_text (snd entry))%Z eqn:Hpos.
  - intros [= <- <-] Hne.
    destruct (max_item_first (fst entry, keyword_score all_text (snd entry))
                (keyword_scores table all_text)) as [Heq|[Hin Hl]].
    + by rewrite Heq in Hne.
    + done.
  - intros Hs _. apply Z.ltb_ge in Hpos.
    assert (Hin : In (max_item e d) (keyword_scores table all_text)).
    { rewrite Hs. destruct (max_item_first e d) as [->|[H _]]; [by left | by right]. }
    split; [done|]. destruct (max_item e d) as [k v].
    apply keyword_scores_in in Hin as (kws & _ & _ & Hv). cbn [snd]. lia.
Qed.

Lemma job_roles_nodup : List.NoDup (map fst JOB_ROLES).
Proof.
  unfold JOB_ROLES. cbn [map fst].
  repeat (apply List.NoDup_cons;
          [cbn [In]; intros H; repeat destruct H as [H|H]; done|]).
  apply List.NoDup_nil.
Qed.

Lemma job_roles_other (keywords : list str) :
  In ("other" : str, keywords) JOB_ROLES -> keywords = [].
Proof.
  unfold JOB_ROLES. cbn [In]. intros H.
  repeat destruct H as [H|H]; try done. by injection H as <-.
Qed.

Lemma job_roles_devops (keywords : list str) :
  In ("devops" : str, keywords) JOB_ROLES ->
  keywords = ["devops" : str; "sre" : str; "site reliability" : str;
              "infrastructure engineer" : str].
Proof.
  unfold JOB_ROLES. cbn [In]. intros H.
  repeat destruct H as [H|H]; try done. by injection H as <-.
Qed.

(** The scores and the chosen role, case by case. *)
Lemma primary_role_cases (job_titles : list str) (descriptions : option (list str)) :
  let r := classify_job_role job_titles descriptions in
  let t := role_text job_titles descriptions in
  (role_scores r = [] /\ primary_role r = ("other" : str))
  \/ exists e d, role_scores r = e :: d
                 /\ primary_role r = fst (max_item e d)
                 /\ In (max_item e d) (e :: d)
                 /\ dict_get (role_scores r) (primary_role r) = snd (max_item e d).
Proof.
  cbn zeta. unfold classify_job_role. cbn [role_scores primary_role].
  pose proof (keyword_scores_nodup JOB_ROLES
                (role_text job_titles descriptions) job_roles_nodup) as Hnd.
  destruct (keyword_scores JOB_ROLES (role_text job_titles descriptions))
    as [|e d]; [by left|].
  right. exists e, d.
  assert (Hin : In (max_item e d) (e :: d)).
  { destruct (max_item_first e d) as [->|[H _]]; [by left | by right]. }
  repeat split; [done|]. by apply dict_get_in.
Qed.

(** X29. [classify_job_role] answers [other] exactly when the titles and
    descriptions hold no keyword of the table; otherwise no role has a
    greater score than the primary role. The word [devops] alone never gives
    the role [devops]: it holds the keyword [dev] of [software_engineer],
    which comes first in the table and wins a tie, so [devops] is chosen
    only when the text also holds [sre], [site reliability] or
    [infrastructure engineer]. *)
Theorem job_role_spec (job_titles : list str) (descriptions : option (list str)) :
  let r := classify_job_role job_titles descriptions in
  let t := role_text job_titles descriptions in
  (primary_role r = ("other" : str) <-> no_keyword JOB_ROLES t)
  /\ Forall (fun e => (snd e <= dict_get (role_scores r) (primary_role r))%Z)
       (role_scores r)
  /\ (primary_role r = ("devops" : str) ->
      contains "sre" t = true \/ contains "site reliability" t = true
      \/ contains "infrastructure engineer" t = true).
Proof.
  cbn zeta.
  pose proof (primary_role_cases job_titles descriptions) as Hc. cbn zeta in Hc.
  assert (Hsc : role_scores (classify_job_role job_titles descriptions)
                = keyword_scores JOB_ROLES (role_text job_titles descriptions))
    by reflexivity.
  set (r := classify_job_role job_titles descriptions) in *.
  set (t := role_text job_titles descriptions) in *.
  split; [|split].
  - destruct Hc as [[Hnil Hp]|(e & d & Hs & Hp & Hin & _)].
    + split; [intros _|done]. apply keyword_scores_nil. by rewrite <- Hsc.
    + split.
      * intros Ho. exfalso. rewrite <- Hs, Hsc in Hin.
        destruct (max_item e d) as [k v]. cbn [fst] in Hp. rewrite Ho in Hp. subst k.
        apply keyword_scores_in in Hin as (kws & Hk & Hv & Hpos).
        apply job_roles_other in Hk. subst kws v.
        unfold keyword_score in Hpos. cbn [List.filter length] in Hpos. lia.
      * intros Hno. apply keyword_scores_none in Hno. rewrite <- Hsc, Hs in Hno. done.
  - destruct Hc as [[Hnil Hp]|(e & d & Hs & Hp & Hin & Hget)].
    + rewrite Hnil. constructor.
    + rewrite Hget, Hs. apply max_item_ge.
  - intros Hdev.
    destruct Hc as [[Hnil Hp]|(e & d & Hs & Hp & Hin & _)]; [by rewrite Hp in Hdev|].
    rewrite Hp in Hdev. clear Hp Hin.
    set (s1 := keyword_score t
                 ["software engineer" : str; "developer" : str; "programmer" : str;
                  "coder" : str; "dev" : str]).
    set (sd := keyword_score t
                 ["devops" : str; "sre" : str; "site reliability" : str;
                  "infrastructure engineer" : str]).
    assert (Hlt : (s1 < sd)%Z /\ (0 < sd)%Z).
    { assert (Hjr : JOB_ROLES
                    = ("software_engineer" : str,
                       ["software engineer" : str; "developer" : str;
                        "programmer" : str; "coder" : str; "dev" : str])
                      :: List.tl JOB_ROLES) by reflexivity.
      rewrite Hsc, Hjr in Hs.
      apply max_item_after_first in Hs as [Hm Hl]; [|by rewrite Hdev].
      destruct (max_item e d) as [k v]. cbn [fst snd] in *. subst k.
      apply keyword_scores_in in Hm as (kws & Hk & Hv & Hpos).
      assert (Hk' : In ("devops" : str, kws) JOB_ROLES) by (rewrite Hjr; by right).
      apply job_roles_devops in Hk'. subst kws. fold sd in Hv. subst v.
      by split. }
    destruct Hlt as [Hlt Hpos].
    destruct (contains "sre" t) eqn:H1; [by left|].
    destruct (contains "site reliability" t) eqn:H2; [right; by left|].
    destruct (contains "infrastructure engineer" t) eqn:H3; [right; by right|].
    exfalso. subst sd. unfold keyword_score in Hlt, Hpos.
    cbn [List.filter] in Hlt, Hpos. rewrite H1, H2, H3 in Hlt, Hpos.
    destruct (contains "devops" t) eqn:H0; cbn [length] in Hlt, Hpos; [|lia].
    assert (Hd : contains "dev" t = true)
      by (by apply (contains_trans "dev" "devops" t)).
    pose proof (keyword_score_ge t "dev"
                  ["software engineer" : str; "developer" : str; "programmer" : str;
                   "coder" : str; "dev" : str]) as Hge.
    fold s1 in Hge. specialize (Hge ltac:(do 4 right; by left) Hd). lia.
Qed.

Lemma job_role_spec_witness :
  primary_role (classify_job_role ["DevOps Engineer" : str] None)
    = ("software_engineer" : str)
  /\ primary_role (classify_job_role ["DevOps SRE" : str] None) = ("devops" : str)
  /\ (contains "sre" (role_text ["DevOps SRE" : str] None) = true
      \/ contains "site reliability" (role_text ["DevOps SRE" : str] None) = true
      \/ contains "infrastructure engineer" (role_text ["DevOps SRE" : str] None)
         = true).
Proof.
  split; [vm_compute; reflexivity|].
  assert (H : primary_role (classify_job_role ["DevOps SRE" : str] None)
              = ("devops" : str)) by (vm_compute; reflexivity).
  split; [exact H|].
  exact (proj2 (proj2 (job_role_spec ["DevOps SRE" : str] None)) H).
Defined.

End JobRoles.

Section Standardize.

Import ClassificationService.

Lemma letter_case_facts (c : ascii) :
  to_lower (to_upper c) = to_lower c /\ to_lower (to_lower c) = to_lower c
  /\ to_upper (to_upper c) = to_upper c
  /\ is_alpha (to_upper c) = is_alpha c /\ is_alpha (to_lower c) = is_alpha c.
Proof.
  assert (H : forall x,
             Ascii.eqb (to_lower (to_upper x)) (to_lower x)
             && Ascii.eqb (to_lower (to_lower x)) (to_lower x)
             && Ascii.eqb (to_upper (to_upper x)) (to_upper x)
             && Bool.eqb (is_alpha (to_upper x)) (is_alpha x)
             && Bool.eqb (is_alpha (to_lower x)) (is_alpha x) = true).
  { apply forallb_all_ascii. vm_compute. reflexivity. }
  specialize (H c).
  repeat (apply andb_true_iff in H as [H ?]).
  repeat split; (by apply Ascii.eqb_eq) || (by apply Bool.eqb_prop).
Qed.

Lemma title_from_lower (b : bool) (s : str) : lower (title_from b s) = lower s.
Proof.
  revert b. induction s as [|c s IH]; intros b; [done|].
  cbn [title_from]. unfold lower in *. cbn [map]. rewrite IH. f_equal.
  destruct (letter_case_facts c) as (H1 & H2 & _). by destruct b.
Qed.

Lemma title_from_idem (b : bool) (s : str) :
  title_from b (title_from b s) = title_from b s.
Proof.
  revert b. induction s as [|c s IH]; intros b; [done|].
  cbn [title_from]. destruct (letter_case_facts c) as (_ & H2 & H3 & H4 & H5).
  destruct b.
  - by rewrite H2, H5, IH.
  - by rewrite H3, H4, IH.
Qed.

Lemma standardize_cases (skill : str) :
  (exists e, In e skill_map /\ strip (lower skill) = fst e
             /\ standardize_skill skill = snd e)
  \/ (~ In (strip (lower skill)) (map fst skill_map)
      /\ standardize_skill skill = title_case skill).
Proof.
  unfold standardize_skill.
  destruct (List.find _ skill_map) as [e|] eqn:Hf.
  - left. exists e. apply find_some in Hf as [Hin He].
    apply str_eqb_eq in He. by repeat split.
  - right. split; [|done]. intros Hin.
    apply in_map_iff in Hin as (e & He & Hin).
    apply (find_none _ _ Hf) in Hin. cbn beta in Hin.
    by rewrite He, str_eqb_refl in Hin.
Qed.

(** X30. [standardize_skill] changes only the case of the letters of a skill
    that is not one of its thirteen abbreviations. Applied twice it gives
    the same as applied once, except for the abbreviations [js], [ts], [ui],
    [ux] and [api]: their expansions [JavaScript], [TypeScript], [UI/UX]
    and [REST API] are no abbreviations, so the second pass capitalizes
    them anew. *)
Theorem standardize_skill_twice (skill : str) :
  (standardize_skill (standardize_skill skill) = standardize_skill skill
   <-> ~ In (strip (lower skill))
          ["js" : str; "ts" : str; "ui" : str; "ux" : str; "api" : str])
  /\ (~ In (strip (lower skill)) (map fst skill_map) ->
      lower (standardize_skill skill) = lower skill).
Proof.
  destruct (standardize_cases skill) as [(e & Hin & Hk & Hv)|[Hnot Hv]].
  - split.
    + rewrite Hv, Hk. clear Hv Hk. unfold skill_map in Hin. cbn [In] in Hin.
      repeat destruct Hin as [<-|Hin]; try done; cbn [fst snd];
        (split;
         [ intros H;
           first [ by (vm_compute in H) | cbn [In]; intros Hi;
                   repeat destruct Hi as [Hi|Hi]; done ]
         | intros H;
           first [ by (vm_compute) | exfalso; apply H; cbn [In]; tauto ] ]).
    + intros H. exfalso. apply H. rewrite Hk. by apply in_map.
  - assert (Hl : lower (title_case skill) = lower skill)
      by apply title_from_lower.
    split; [|by rewrite Hv].
    rewrite Hv. split.
    + intros _ Hin. apply Hnot. cbn [In] in Hin. unfold skill_map. cbn [map fst In].
      tauto.
    + intros _.
      destruct (standardize_cases (title_case skill))
        as [(e & Hin & Hk & _)|[_ ->]].
      * exfalso. apply Hnot. rewrite <- Hl, Hk. by apply in_map.
      * apply title_from_idem.
Qed.

Lemma standardize_skill_twice_witness :
  standardize_skill "node.js" = ("Node.Js" : str)
  /\ lower (standardize_skill "node.js") = lower "node.js".
Proof.
  split; [vm_compute; reflexivity|].
  apply (proj2 (standardize_skill_twice "node.js")).
  vm_compute. intros H. repeat destruct H as [H|H]; done.
Defined.

End Standardize.
